(** * A web-testing engine: the test runner and the element crawler

    A shallow embedding of the TypeScript services of the repository:

    - [RunTS]      src/services/runTScrawler.ts, the test runner in its
                   minimal form;
    - [RunTSFull]  the later revision of the same [WebCrawler] class, with
                   fixture lookup and on-disk artifacts (the second class
                   kept in src/routes/crawler.ts, lines 402-969);
    - [Routes]     src/routes/runTsRoutes.ts, the two handlers that drive
                   the runner;
    - [Responses]  the response cache of the third [WebCrawler] class of
                   src/routes/crawler.ts (lines 989-1736);
    - [Crawler]    src/services/crawler.ts, lines 48-428: element
                   discovery and retry;
    - [Analyze]    src/api/crawler.ts, the handler of /analyzewebsite.

    The browser (Playwright) and the file system are outside the program;
    time stamps are left out.  Every call that the code awaits on them is a [Call]; a
    [Driver] answers a call from the present state of the world with a new
    world and either a thrown error or a value.  The code itself becomes a
    state-and-exception monad over the fields of the [WebCrawler] object,
    and every call is appended to a trace, so that "no page was opened" is
    a statement about the trace. *)

From Stdlib Require Import String Ascii.
From stdpp Require Import base option list strings gmap pretty.
From Equations Require Import Equations.

Local Open Scope string_scope.

(** ** JavaScript values that the code inspects *)

(** A thrown [Error]; only its [message] is read by the code
    ([error instanceof Error ? error.message : String(error)]). *)
Record JsError := mkError { err_message : string }.

(** A double quote, for template literals such as [[name="v"]]. *)
Definition dquote : string := String "034"%char EmptyString.

(** Truthiness of [string | undefined]: absent and empty are falsy. *)
Definition truthy (v : option string) : bool :=
  match v with
  | Some s => negb (String.eqb s "")
  | None => false
  end.

(** [${v}] for [string | undefined] and for [string | null]. *)
Definition show_undef (v : option string) : string := default "undefined" v.
Definition show_null (v : option string) : string := default "null" v.

(** ** Strings as the code uses them

    Strings are sequences of bytes here, and [String.length] stands for
    [.length]; the character classes below are the ASCII part of what
    JavaScript's [toLowerCase], [trim] and [\s] cover. *)

Definition lowerChar (c : ascii) : ascii :=
  let n := nat_of_ascii c in
  if ((65 <=? n) && (n <=? 90))%nat then ascii_of_nat (n + 32) else c.

(** [s.toLowerCase()] *)
Fixpoint toLowerCase (s : string) : string :=
  match s with
  | EmptyString => EmptyString
  | String c rest => String (lowerChar c) (toLowerCase rest)
  end.

(** The ASCII white space of [\s]: tab, line feed, vertical tab, form
    feed, carriage return and space. *)
Definition isSpace (c : ascii) : bool :=
  let n := nat_of_ascii c in
  (((9 <=? n) && (n <=? 13)) || (n =? 32))%nat.

Fixpoint trimStart (s : string) : string :=
  match s with
  | EmptyString => EmptyString
  | String c rest => if isSpace c then trimStart rest else s
  end.

Definition reverse (s : string) : string :=
  string_of_list_ascii (rev (list_ascii_of_string s)).

(** [s.trim()] *)
Definition trim (s : string) : string :=
  reverse (trimStart (reverse (trimStart s))).

(** [s.split(/\s+/)]: [cur] is the piece being read, [inRun] tells that
    the previous character was white space. *)
Fixpoint splitSpaces (s : string) (cur : string) (inRun : bool) : list string :=
  match s with
  | EmptyString => [cur]
  | String c rest =>
      if isSpace c
      then (if inRun then splitSpaces rest cur true
            else cur :: splitSpaces rest EmptyString true)
      else splitSpaces rest (cur +:+ String c EmptyString) false
  end.

(** [xs.join(sep)] *)
Fixpoint join (sep : string) (xs : list string) : string :=
  match xs with
  | [] => EmptyString
  | [x] => x
  | x :: rest => x +:+ sep +:+ join sep rest
  end.

(** [s.includes(t)] *)
Fixpoint includes (s t : string) : bool :=
  String.prefix t s ||
  match s with
  | EmptyString => false
  | String _ rest => includes rest t
  end.

(** ** src/interfaces/types.ts *)

Inductive TestStatus := NOT_RUN | RUNNING | PASSED | FAILED | BLOCKED | SKIPPED.

#[global] Instance TestStatus_eq_dec : EqDecision TestStatus.
Proof. solve_decision. Defined.

(** Terminal states of a run (spec, data model). *)
Definition terminal (st : TestStatus) : bool :=
  match st with
  | PASSED | FAILED | BLOCKED | SKIPPED => true
  | NOT_RUN | RUNNING => false
  end.

(** [SelectorType], [Action] and [AssertionType] are unions of string
    literals; at run time they are strings read from JSON, and the code
    switches on them.  A missing [type] is [None]. *)
Record Selector := mkSelector {
  sel_type : option string;
  sel_value : string
}.

Record StepTestData := mkStepTestData {
  td_valid : option (gmap string string);
  td_invalid : option (gmap string string)
}.

Record Step := mkStep {
  step_id : string;
  step_action : string;
  step_selector : option Selector;
  step_value : option string;
  step_timeout : option N;
  step_waitForNavigation : bool;
  step_testData : option StepTestData;
  step_useValidData : bool
}.

Record Assertion := mkAssertion {
  assertion_id : string;
  assertion_type : string;
  assertion_selector : option Selector;
  assertion_expectedValue : option string
}.

Record TestCase := mkTestCase {
  tc_id : string;
  tc_steps : list Step;
  tc_assertions : list Assertion;
  tc_dependsOn : option (list string)
}.

Record TestSuite := mkTestSuite {
  suite_id : string;
  suite_testCases : list TestCase
}.

Record StepLog := mkStepLog {
  sl_stepId : string;
  sl_success : bool;
  sl_error : option string
}.

Record AssertionLog := mkAssertionLog {
  al_assertionId : string;
  al_success : bool;
  al_error : option string
}.

Record Logs := mkLogs {
  logs_steps : list StepLog;
  logs_assertions : list AssertionLog;
  logs_message : option string
}.

(** The identifiers built from [Date.now()], the ISO time stamps, the
    duration, the stack trace and the constant [environment] / [runBy]
    fields are not modelled: no operation below reads them. *)
Record TestRun := mkTestRun {
  run_testCaseId : string;
  run_status : TestStatus;
  run_errorMessage : option string;
  run_screenshot : option string;
  run_logs : Logs
}.

Record TestSuiteRun := mkTestSuiteRun {
  tsr_testSuiteId : string;
  tsr_status : TestStatus;
  tsr_totalTests : nat;
  tsr_passedTests : nat;
  tsr_failedTests : nat;
  tsr_skippedTests : nat;
  tsr_blockedTests : nat;
  tsr_testRuns : list TestRun
}.

(** The number of cases counted so far, over the four counters. *)
Definition counted (r : TestSuiteRun) : nat :=
  tsr_passedTests r + tsr_failedTests r + tsr_blockedTests r + tsr_skippedTests r.

(** ** The outside world *)

Definition Browser := nat.
Definition Page := nat.
Definition Elem := nat.

(** The awaited calls, indexed by the type of what they resolve to. *)
Inductive Call : Type -> Type :=
| Launch : Call Browser
| NewPage (b : Browser) : Call Page
| Goto (p : Page) (url : option string) : Call unit
| Click (p : Page) (sel : string) : Call unit
| Fill (p : Page) (sel : string) (v : option string) : Call unit
| SelectOption (p : Page) (sel : string) (v : string) : Call unit
| WaitForTimeout (p : Page) (ms : N) : Call unit
| WaitForLoadState (p : Page) (st : string) : Call unit
| WaitForSelector (p : Page) (sel : string) (st : option string) : Call unit
| TextContent (p : Page) (sel : string) : Call (option string)
| Query (p : Page) (sel : string) : Call (option Elem)
| ElemTextContent (e : Elem) : Call (option string)
| PageClose (p : Page) : Call unit
| Screenshot (p : Page) : Call string
| ScreenshotFile (p : Page) (name : string) : Call unit
| Mkdir (dir : string) : Call unit
| ReadFile (name : string) : Call string
| WriteLog (name : string) (body : TestRun) : Call unit.

Inductive AnyCall := any : forall A : Type, Call A -> AnyCall.
Arguments any {A} c.

Record Driver (W : Type) := mkDriver {
  drv : forall A : Type, Call A -> W -> W * (JsError + A);
  (** [page.url()] is synchronous and does not fail. *)
  page_url : Page -> W -> string
}.
Arguments drv {W} _ {A} _ _.
Arguments page_url {W} _ _ _.

(** [browser.close()] is the one awaited call of the runner that is neither
    on a page nor on a file; a [Chromium] adds the answer of the world to
    it to the answers of a [Driver]. *)
Record Chromium (W : Type) := mkChromium {
  pages : Driver W;
  browser_close : Browser -> W -> W * (JsError + unit)
}.
Arguments pages {W} _.
Arguments browser_close {W} _ _ _.

(** ** The monad of the code: state and exceptions *)

Definition M (S A : Type) : Type := S -> S * (JsError + A).

Definition ret {S A} (a : A) : M S A := fun s => (s, inr a).

Definition throw {S A} (e : JsError) : M S A := fun s => (s, inl e).

Definition bind {S A B} (m : M S A) (k : A -> M S B) : M S B :=
  fun s => match m s with
           | (s', inl e) => (s', inl e)
           | (s', inr a) => k a s'
           end.

(** [try { m } catch (error) { h error }] *)
Definition try_catch {S A} (m : M S A) (h : JsError -> M S A) : M S A :=
  fun s => match m s with
           | (s', inl e) => h e s'
           | (s', inr a) => (s', inr a)
           end.

(** [try { m } finally { f }]: an error of [f] replaces the outcome of [m]. *)
Definition try_finally {S A} (m : M S A) (f : M S unit) : M S A :=
  fun s => match m s with
           | (s', r) => match f s' with
                        | (s'', inl e) => (s'', inl e)
                        | (s'', inr _) => (s'', r)
                        end
           end.

Definition modify {S} (f : S -> S) : M S unit := fun s => (f s, inr tt).

Definition gets {S A} (f : S -> A) : M S A := fun s => (s, inr (f s)).

Notation "'do' x <- m ; k" := (bind m (fun x => k))
  (at level 10, x name, m at level 100, k at level 200,
   format "'[v' 'do'  x  <-  m ; '/' k ']'").
Notation "'run' m ; k" := (bind m (fun _ => k))
  (at level 10, m at level 100, k at level 200,
   format "'[v' 'run'  m ; '/' k ']'").

(** [for (const x of xs) { body x }] *)
Fixpoint forEach {S A} (body : A -> M S unit) (xs : list A) : M S unit :=
  match xs with
  | [] => ret tt
  | x :: rest => run body x; forEach body rest
  end.

(** The switch statements compare strings with [===]. *)
Definition same (a b : string) : bool := String.eqb a b.

(** ** The [WebCrawler] object of the runner

    [browser], [currentSuiteRun] and [testRuns] are the private fields of
    the class; [world] is the state of everything outside it, and [trace]
    lists the calls made on it, oldest first. *)
Record State (W : Type) := mkState {
  browser : option Browser;
  currentSuiteRun : option TestSuiteRun;
  testRuns : gmap string TestRun;
  world : W;
  trace : list AnyCall
}.
Arguments mkState {W} _ _ _ _ _.
Arguments browser {W} _.
Arguments currentSuiteRun {W} _.
Arguments testRuns {W} _.
Arguments world {W} _.
Arguments trace {W} _.

Section Object.
Context {W : Type}.

Definition setBrowser (b : option Browser) (s : State W) : State W :=
  mkState b (currentSuiteRun s) (testRuns s) (world s) (trace s).

Definition setCurrentSuiteRun (r : option TestSuiteRun) (s : State W) : State W :=
  mkState (browser s) r (testRuns s) (world s) (trace s).

Definition setTestRuns (m : gmap string TestRun) (s : State W) : State W :=
  mkState (browser s) (currentSuiteRun s) m (world s) (trace s).

(** One awaited call: the driver answers, the call is traced. *)
Definition call (D : Driver W) {A} (c : Call A) : M (State W) A :=
  fun s =>
    let '(w', r) := drv D c (world s) in
    (mkState (browser s) (currentSuiteRun s) (testRuns s) w' (trace s ++ [any c]), r).

(** A method body with a local [testRun] object that it mutates. *)
Definition Frame : Type := TestRun * State W.

Definition liftS {A} (m : M (State W) A) : M Frame A :=
  fun f => let '(s', r) := m (snd f) in ((fst f, s'), r).

Definition modRun (g : TestRun -> TestRun) : M Frame unit :=
  fun f => ((g (fst f), snd f), inr tt).

Definition liftR {S A} (r : JsError + A) : M S A := fun s => (s, r).
End Object.

(** Field updates of the local [testRun]. *)
Definition setStatus (st : TestStatus) (r : TestRun) : TestRun :=
  mkTestRun (run_testCaseId r) st (run_errorMessage r) (run_screenshot r) (run_logs r).

Definition setErrorMessage (m : option string) (r : TestRun) : TestRun :=
  mkTestRun (run_testCaseId r) (run_status r) m (run_screenshot r) (run_logs r).

Definition setScreenshot (sh : option string) (r : TestRun) : TestRun :=
  mkTestRun (run_testCaseId r) (run_status r) (run_errorMessage r) sh (run_logs r).

Definition pushStepLog (e : StepLog) (r : TestRun) : TestRun :=
  mkTestRun (run_testCaseId r) (run_status r) (run_errorMessage r) (run_screenshot r)
    (mkLogs (logs_steps (run_logs r) ++ [e]) (logs_assertions (run_logs r))
            (logs_message (run_logs r))).

Definition pushAssertionLog (e : AssertionLog) (r : TestRun) : TestRun :=
  mkTestRun (run_testCaseId r) (run_status r) (run_errorMessage r) (run_screenshot r)
    (mkLogs (logs_steps (run_logs r)) (logs_assertions (run_logs r) ++ [e])
            (logs_message (run_logs r))).

(** [this.currentSuiteRun.passedTests++] and its three siblings. *)
Definition bump (st : TestStatus) (r : TestSuiteRun) : TestSuiteRun :=
  match st with
  | PASSED =>
      mkTestSuiteRun (tsr_testSuiteId r) (tsr_status r) (tsr_totalTests r)
        (S (tsr_passedTests r)) (tsr_failedTests r) (tsr_skippedTests r)
        (tsr_blockedTests r) (tsr_testRuns r)
  | FAILED =>
      mkTestSuiteRun (tsr_testSuiteId r) (tsr_status r) (tsr_totalTests r)
        (tsr_passedTests r) (S (tsr_failedTests r)) (tsr_skippedTests r)
        (tsr_blockedTests r) (tsr_testRuns r)
  | SKIPPED =>
      mkTestSuiteRun (tsr_testSuiteId r) (tsr_status r) (tsr_totalTests r)
        (tsr_passedTests r) (tsr_failedTests r) (S (tsr_skippedTests r))
        (tsr_blockedTests r) (tsr_testRuns r)
  | BLOCKED =>
      mkTestSuiteRun (tsr_testSuiteId r) (tsr_status r) (tsr_totalTests r)
        (tsr_passedTests r) (tsr_failedTests r) (tsr_skippedTests r)
        (S (tsr_blockedTests r)) (tsr_testRuns r)
  | NOT_RUN | RUNNING => r
  end.

Definition pushTestRun (t : TestRun) (r : TestSuiteRun) : TestSuiteRun :=
  mkTestSuiteRun (tsr_testSuiteId r) (tsr_status r) (tsr_totalTests r)
    (tsr_passedTests r) (tsr_failedTests r) (tsr_skippedTests r)
    (tsr_blockedTests r) (tsr_testRuns r ++ [t]).

Definition setSuiteStatus (st : TestStatus) (r : TestSuiteRun) : TestSuiteRun :=
  mkTestSuiteRun (tsr_testSuiteId r) st (tsr_totalTests r)
    (tsr_passedTests r) (tsr_failedTests r) (tsr_skippedTests r)
    (tsr_blockedTests r) (tsr_testRuns r).

(** What [x.f] throws when [x] is [null] or [undefined]. *)
Definition TypeError (what field : string) : JsError :=
  mkError ("Cannot read properties of " +:+ what +:+ " (reading '" +:+ field +:+ "')").

(** ** The parts of the runner that its revisions share

    [canRunTest] (runTScrawler.ts, lines 102-112), [updateSuiteRunStats]
    (259-276), [determineTestSuiteStatus] (278-285) and
    [recordBlockedTest] (300-320) read the same in every revision of the
    class. *)
Section Shared.
Context {W : Type}.

(** The loop of [canRunTest], with its early [return false]. *)
Fixpoint depsPassed (runs : gmap string TestRun) (deps : list string) : bool :=
  match deps with
  | [] => true
  | dependencyId :: rest =>
      match runs !! dependencyId with
      | None => false
      | Some dependencyRun =>
          if decide (run_status dependencyRun = PASSED)
          then depsPassed runs rest
          else false
      end
  end.

Definition canRunTest (testCase : TestCase) : M (State W) bool :=
  fun s =>
    match tc_dependsOn testCase with
    | None | Some [] => (s, inr true)
    | Some deps => (s, inr (depsPassed (testRuns s) deps))
    end.

Definition updateSuiteRunStats (status : TestStatus) : M (State W) unit :=
  fun s =>
    match currentSuiteRun s with
    | None => (s, inr tt)
    | Some r => (setCurrentSuiteRun (Some (bump status r)) s, inr tt)
    end.

Definition determineTestSuiteStatus (s : State W) : TestStatus :=
  match currentSuiteRun s with
  | None => NOT_RUN
  | Some r =>
      if (0 <? tsr_failedTests r)%nat then FAILED
      else if (tsr_passedTests r =? tsr_totalTests r)%nat then PASSED
      else if (0 <? tsr_blockedTests r)%nat then BLOCKED
      else FAILED
  end.

(** [this.currentSuiteRun!.testRuns.push(testRun)] *)
Definition pushToSuiteRun (testRun : TestRun) : M (State W) unit :=
  fun s =>
    match currentSuiteRun s with
    | None => (s, inl (TypeError "null" "testRuns"))
    | Some r => (setCurrentSuiteRun (Some (pushTestRun testRun r)) s, inr tt)
    end.

Definition blockedRun (testCase : TestCase) : TestRun :=
  mkTestRun (tc_id testCase) BLOCKED None None
    (mkLogs [] [] (Some "Test blocked due to failed dependencies")).

Definition recordBlockedTest (testCase : TestCase) : M (State W) unit :=
  let testRun := blockedRun testCase in
  run modify (fun s => setTestRuns (<[tc_id testCase := testRun]> (testRuns s)) s);
  run pushToSuiteRun testRun;
  updateSuiteRunStats BLOCKED.

(** The run record that [runTestSuite] starts from. *)
Definition freshSuiteRun (testSuite : TestSuite) : TestSuiteRun :=
  mkTestSuiteRun (suite_id testSuite) RUNNING (length (suite_testCases testSuite))
    0 0 0 0 [].

(** The [finally] block of [runTestSuite] (lines 81-94); [completedAt] and
    [duration] are not modelled. *)
Definition finishSuiteRun : M (State W) unit :=
  fun s =>
    match currentSuiteRun s with
    | None => (s, inr tt)
    | Some r =>
        (setCurrentSuiteRun (Some (setSuiteStatus (determineTestSuiteStatus s) r)) s,
         inr tt)
    end.
End Shared.

(** ** src/services/runTScrawler.ts *)
Module RunTS.
Section Run.
Context {W : Type} (D : Driver W).

(** Lines 242-253.  [selector.type] on an absent selector is a
    [TypeError]. *)
Definition buildSelector (selector : option Selector) : JsError + string :=
  match selector with
  | None => inl (TypeError "undefined" "type")
  | Some sel =>
      inr (match sel_type sel with
           | Some t =>
               if same t "id" then "#" +:+ sel_value sel
               else if same t "css" then sel_value sel
               else if same t "xpath" then "xpath=" +:+ sel_value sel
               else sel_value sel
           | None => sel_value sel
           end)
  end.

(** Lines 38-48; the logger is not modelled. *)
Definition initialize : M (State W) unit :=
  try_catch
    (do b <- call D Launch;
     modify (setBrowser (Some b)))
    (fun error => throw error).

(** [step.timeout || 5000] *)
Definition timeoutOr (d : N) (t : option N) : N :=
  match t with
  | Some n => if N.eqb n 0 then d else n
  | None => d
  end.

(** Lines 200-219. *)
Definition executeStep (page : Page) (step : Step) : M (State W) unit :=
  do selector <- liftR (buildSelector (step_selector step));
  let action := step_action step in
  if same action "navigate" then call D (Goto page (step_value step))
  else if same action "click" then call D (Click page selector)
  else if same action "type" then call D (Fill page selector (step_value step))
  else if same action "wait"
       then call D (WaitForTimeout page (timeoutOr 5000 (step_timeout step)))
  else throw (mkError ("Unsupported action: " +:+ action)).

(** [content !== assertion.expectedValue], for [content : string | null]
    and [expectedValue : string | undefined]. *)
Definition strictEq (content expected : option string) : bool :=
  match content, expected with
  | Some c, Some e => String.eqb c e
  | _, _ => false
  end.

(** Lines 221-240: every check is inside [if (assertion.selector)], and
    the [switch] has no [default]. *)
Definition executeAssertion (page : Page) (assertion : Assertion) : M (State W) unit :=
  match assertion_selector assertion with
  | None => ret tt
  | Some sel =>
      do selector <- liftR (buildSelector (Some sel));
      let ty := assertion_type assertion in
      if same ty "elementExists" then call D (WaitForSelector page selector None)
      else if same ty "elementVisible"
           then call D (WaitForSelector page selector (Some "visible"))
      else if same ty "textEquals"
           then do content <- call D (TextContent page selector);
                if strictEq content (assertion_expectedValue assertion) then ret tt
                else throw (mkError ("Text mismatch. Expected: "
                              +:+ show_undef (assertion_expectedValue assertion)
                              +:+ ", Found: " +:+ show_null content))
      else ret tt
  end.

(** Lines 294-298; [Screenshot] resolves to the image in base64. *)
Definition captureScreenshot (page : Page) : M (State W) string :=
  do screenshot <- call D (Screenshot page);
  ret ("data:image/png;base64," +:+ screenshot).

Definition stepPassed (step : Step) : StepLog :=
  mkStepLog (step_id step) true None.

Definition stepFailed (step : Step) (error : JsError) : StepLog :=
  mkStepLog (step_id step) false (Some (err_message error)).

Definition assertionPassed (a : Assertion) : AssertionLog :=
  mkAssertionLog (assertion_id a) true None.

Definition assertionFailed (a : Assertion) (error : JsError) : AssertionLog :=
  mkAssertionLog (assertion_id a) false (Some (err_message error)).

(** The body of the loop over [testCase.steps] (lines 140-158). *)
Definition runStep (page : Page) (step : Step) : M (@Frame W) unit :=
  try_catch
    (run liftS (executeStep page step);
     modRun (pushStepLog (stepPassed step)))
    (fun error =>
       do screenshot <- liftS (captureScreenshot page);
       run modRun (setScreenshot (Some screenshot));
       run modRun (pushStepLog (stepFailed step error));
       throw error).

(** The loop over [testCase.assertions] (lines 161-179); the accumulator
    is the local [assertionsFailed]. *)
Fixpoint runAssertions (page : Page) (assertions : list Assertion)
    (assertionsFailed : bool) : M (@Frame W) bool :=
  match assertions with
  | [] => ret assertionsFailed
  | assertion :: rest =>
      do failed <-
        try_catch
          (run liftS (executeAssertion page assertion);
           run modRun (pushAssertionLog (assertionPassed assertion));
           ret assertionsFailed)
          (fun error =>
             run modRun (pushAssertionLog (assertionFailed assertion error));
             ret true);
      runAssertions page rest failed
  end.

(** [this.browser!.newPage()] *)
Definition newPage : M (State W) Page :=
  fun s =>
    match browser s with
    | None => (s, inl (TypeError "null" "newPage"))
    | Some b => call D (NewPage b) s
    end.

Definition startedRun (testCase : TestCase) : TestRun :=
  mkTestRun (tc_id testCase) RUNNING None None (mkLogs [] [] None).

(** The [try] / [catch] of [runTestCase] (lines 136-190), over the local
    [testRun]. *)
Definition runTestCaseBody (testCase : TestCase) : M (@Frame W) unit :=
  try_catch
    (do page <- liftS newPage;
     run forEach (runStep page) (tc_steps testCase);
     do assertionsFailed <- runAssertions page (tc_assertions testCase) false;
     run liftS (call D (PageClose page));
     let status := if assertionsFailed then FAILED else PASSED in
     run modRun (setStatus status);
     liftS (updateSuiteRunStats status))
    (fun error =>
       run modRun (setStatus FAILED);
       run modRun (setErrorMessage (Some (err_message error)));
       liftS (updateSuiteRunStats FAILED)).

(** Lines 114-198; the [finally] only stamps the time. *)
Definition runTestCase (testCase : TestCase) : M (State W) unit :=
  fun s =>
    match runTestCaseBody testCase (startedRun testCase, s) with
    | ((_, s'), inl error) => (s', inl error)
    | ((testRun, s'), inr _) =>
        (run modify (fun s => setTestRuns (<[tc_id testCase := testRun]> (testRuns s)) s);
         pushToSuiteRun testRun) s'
    end.

(** The body of the loop over [testSuite.testCases] (lines 74-80). *)
Definition runOne (testCase : TestCase) : M (State W) unit :=
  do ok <- canRunTest testCase;
  if ok then runTestCase testCase else recordBlockedTest testCase.

Definition ensureBrowser : M (State W) unit :=
  fun s => match browser s with
           | None => initialize s
           | Some _ => (s, inr tt)
           end.

(** Lines 50-100. *)
Definition runTestSuite (testSuite : TestSuite) : M (State W) TestSuiteRun :=
  run modify (setCurrentSuiteRun (Some (freshSuiteRun testSuite)));
  run try_finally
        (run ensureBrowser;
         forEach runOne (suite_testCases testSuite))
        finishSuiteRun;
  fun s => match currentSuiteRun s with
           | None => (s, inl (mkError "TestSuiteRun is null"))
           | Some r => (s, inr r)
           end.
End Run.

Section Suites.
Context {W : Type} (C : Chromium W).

(** [await this.browser.close()]; the trace keeps to the calls of [Call]. *)
Definition closeBrowser (b : Browser) : M (State W) unit :=
  fun s =>
    let '(w', r) := browser_close C b (world s) in
    (mkState (browser s) (currentSuiteRun s) (testRuns s) w' (trace s), r).

(** Lines 287-292. *)
Definition cleanup : M (State W) unit :=
  fun s =>
    match browser s with
    | Some b => (run closeBrowser b; modify (setBrowser None)) s
    | None => (s, inr tt)
    end.

(** The loop of [runAllTestSuites] (lines 331-335), with the local
    [suiteRuns] as accumulator. *)
Fixpoint runSuites (testSuites : list TestSuite) (suiteRuns : list TestSuiteRun) :
    M (State W) (list TestSuiteRun) :=
  match testSuites with
  | [] => ret suiteRuns
  | suite :: rest =>
      do suiteRun <- runTestSuite (pages C) suite;
      runSuites rest (suiteRuns ++ [suiteRun])
  end.

(** Lines 323-349; the summary is only logged. *)
Definition runAllTestSuites (testSuites : list TestSuite) :
    M (State W) (list TestSuiteRun) :=
  try_finally
    (try_catch
       (run ensureBrowser (pages C);
        do suiteRuns <- runSuites testSuites [];
        ret suiteRuns)
       (fun error => throw error))
    cleanup.

(** Lines 352-372: [testSuites.find(s => s.id === suiteId)] is the first
    suite with that id. *)
Definition runTestSuiteById (testSuites : list TestSuite) (suiteId : string) :
    M (State W) TestSuiteRun :=
  try_catch
    (match List.find (fun s => same (suite_id s) suiteId) testSuites with
     | None => throw (mkError ("Test suite with ID " +:+ suiteId +:+ " not found"))
     | Some suite =>
         do suiteRun <- runTestSuite (pages C) suite;
         ret suiteRun
     end)
    (fun error => throw error).
End Suites.

(** The object that [getAllSuitesSummary] returns; [totalDuration] is not
    modelled. *)
Record SuitesSummary := mkSuitesSummary {
  totalSuites : nat;
  passedSuites : nat;
  failedSuites : nat;
  totalTests : nat;
  passedTests : nat;
  failedTests : nat;
  blockedTests : nat;
  skippedTests : nat
}.

(** Lines 387-399. *)
Definition getAllSuitesSummary (suiteRuns : list TestSuiteRun) : SuitesSummary :=
  mkSuitesSummary
    (length suiteRuns)
    (length (filter (fun s => tsr_status s = PASSED) suiteRuns))
    (length (filter (fun s => tsr_status s = FAILED) suiteRuns))
    (foldl (fun sum suite => sum + tsr_totalTests suite) 0 suiteRuns)
    (foldl (fun sum suite => sum + tsr_passedTests suite) 0 suiteRuns)
    (foldl (fun sum suite => sum + tsr_failedTests suite) 0 suiteRuns)
    (foldl (fun sum suite => sum + tsr_blockedTests suite) 0 suiteRuns)
    (foldl (fun sum suite => sum + tsr_skippedTests suite) 0 suiteRuns).

(** The object that [getSuiteSummary] returns; [duration] is not
    modelled. *)
Record SuiteSummary := mkSuiteSummary {
  sum_suiteId : string;
  sum_status : TestStatus;
  sum_totalTests : nat;
  sum_passed : nat;
  sum_failed : nat;
  sum_blocked : nat;
  sum_skipped : nat
}.

(** Lines 374-385. *)
Definition getSuiteSummary (suiteRun : TestSuiteRun) : SuiteSummary :=
  mkSuiteSummary (tsr_testSuiteId suiteRun) (tsr_status suiteRun)
    (tsr_totalTests suiteRun) (tsr_passedTests suiteRun) (tsr_failedTests suiteRun)
    (tsr_blockedTests suiteRun) (tsr_skippedTests suiteRun).
End RunTS.

(** ** src/routes/runTsRoutes.ts

    The two handlers of the test-runner router, over the one [WebCrawler]
    that the module creates (line 95).  [res.json] and
    [res.status(...).json] append a reply and do not fail. *)
Module Routes.

(** [req.body.testSuites] as [POST /run-all] tells it apart: an array of
    suites, or anything else. *)
Inductive Field :=
| notAnArray
| array (testSuites : list TestSuite).

Inductive Payload :=
| errorBody (error : string)
| runAllBody (suiteRuns : list TestSuiteRun) (summary : RunTS.SuitesSummary)
| runSuiteBody (suiteRun : TestSuiteRun) (summary : RunTS.SuiteSummary).

Record Reply := mkReply {
  code : nat;
  payload : Payload
}.

(** The crawler of the module and the replies sent, oldest first. *)
Record Server (W : Type) := mkServer {
  crawler : State W;
  sent : list Reply
}.
Arguments mkServer {W} _ _.
Arguments crawler {W} _.
Arguments sent {W} _.

Section Handlers.
Context {W : Type} (C : Chromium W).

(** A method call on [crawler]. *)
Definition onCrawler {A} (m : M (State W) A) : M (Server W) A :=
  fun v => let '(s', r) := m (crawler v) in (mkServer s' (sent v), r).

Definition send (r : Reply) : M (Server W) unit :=
  modify (fun v => mkServer (crawler v) (sent v ++ [r])).

(** Lines 163-184. *)
Definition runAll (testSuites : Field) : M (Server W) unit :=
  try_catch
    (match testSuites with
     | notAnArray =>
         send (mkReply 400 (errorBody "Invalid request body. Expected testSuites array"))
     | array testSuites =>
         do suiteRuns <- onCrawler (RunTS.runAllTestSuites C testSuites);
         send (mkReply 200
                 (runAllBody suiteRuns (RunTS.getAllSuitesSummary suiteRuns)))
     end)
    (fun error => send (mkReply 500 (errorBody (err_message error)))).

(** Lines 228-244; the body is cast to [{ testSuites: TestSuite[] }]
    (line 231). *)
Definition runSuite (suiteId : string) (testSuites : list TestSuite) : M (Server W) unit :=
  try_catch
    (do suiteRun <- onCrawler (RunTS.runTestSuiteById C testSuites suiteId);
     send (mkReply 200 (runSuiteBody suiteRun (RunTS.getSuiteSummary suiteRun))))
    (fun error => send (mkReply 500 (errorBody (err_message error)))).
End Handlers.
End Routes.

(** ** The later revision of the runner

    The same class after fixture lookup, on-disk screenshots and per-run log
    files were added (src/routes/crawler.ts, lines 402-969; line numbers
    below are those of that file).  File names carry a time stamp in the
    source; here a file is named by the test case alone, [ReadFile]
    resolves to the content in base64, and [WriteLog] stands for
    [fs.writeFile] of the JSON of the run. *)
Module RunTSFull.
Section Run.
Context {W : Type} (D : Driver W).

Definition screenshotDir : string := "testResults/screenshots".
Definition logsDir : string := "testResults/logs".

(** Lines 742-766. *)
Definition buildSelector (selector : option Selector) : string :=
  match selector with
  | None => ""
  | Some sel =>
      match sel_type sel with
      | Some t =>
          if same t "id" then "#" +:+ sel_value sel
          else if same t "name" then "[name=" +:+ dquote +:+ sel_value sel +:+ dquote +:+ "]"
          else if same t "css" then sel_value sel
          else if same t "xpath" then "xpath=" +:+ sel_value sel
          else if same t "linkText" then "text=" +:+ sel_value sel
          else if same t "className" then "." +:+ sel_value sel
          else if same t "tagName" then sel_value sel
          else sel_value sel
      | None => sel_value sel
      end
  end.

Definition ensureDirectoriesExist : M (State W) unit :=
  run call D (Mkdir screenshotDir);
  call D (Mkdir logsDir).

(** Lines 808-830. *)
Definition captureScreenshot (page : Page) (testCaseId : string) : M (State W) string :=
  try_catch
    (run ensureDirectoriesExist;
     run call D (ScreenshotFile page testCaseId);
     do base64Screenshot <- call D (ReadFile testCaseId);
     ret ("data:image/png;base64," +:+ base64Screenshot))
    (fun error => throw error).

(** Lines 832-857. *)
Definition saveTestLogs (testRun : TestRun) : M (State W) unit :=
  try_catch
    (run ensureDirectoriesExist;
     call D (WriteLog (run_testCaseId testRun) testRun))
    (fun error => throw error).

(** [obj[step.value!]]: an absent key reads the property "undefined". *)
Definition fixtureKey (step : Step) : string := default "undefined" (step_value step).

Definition fixture (m : option (gmap string string)) (key : string) : option string :=
  match m with
  | None => None
  | Some tbl => match tbl !! key with
                | Some v => if truthy (Some v) then Some v else None
                | None => None
                end
  end.

(** Lines 723-740; [null] is [None]. *)
Definition getValueFromTestData (step : Step) : option string :=
  match step_testData step with
  | None => None
  | Some testData =>
      if step_useValidData step
      then fixture (td_valid testData) (fixtureKey step)
      else fixture (td_invalid testData) (fixtureKey step)
  end.

(** [step.value || this.getValueFromTestData(step)] *)
Definition resolveValue (step : Step) : option string :=
  if truthy (step_value step) then step_value step else getValueFromTestData step.

Definition timeoutOr (d : N) (t : option N) : N :=
  match t with
  | Some n => if N.eqb n 0 then d else n
  | None => d
  end.

Definition missingValue (action : string) (step : Step) : JsError :=
  mkError ("No value provided for " +:+ action +:+ " action in step " +:+ step_id step).

(** Lines 608-661; the [testData] argument is not used by the source and
    is left out, as is the [console.log]. *)
Definition executeStep (page : Page) (step : Step) : M (State W) unit :=
  let selector := match step_selector step with
                  | Some sel => buildSelector (Some sel)
                  | None => ""
                  end in
  let value := resolveValue step in
  let action := step_action step in
  run (if same action "navigate"
       then do current <- gets (fun s => page_url D page (world s));
            let url := if truthy value then default "" value else current in
            call D (Goto page (Some url))
       else if same action "click" then call D (Click page selector)
       else if same action "type"
            then if truthy value then call D (Fill page selector value)
                 else throw (missingValue "type" step)
       else if same action "select"
            then if truthy value then call D (SelectOption page selector (default "" value))
                 else throw (missingValue "select" step)
       else if same action "wait"
            then call D (WaitForTimeout page (timeoutOr 5000 (step_timeout step)))
       else throw (mkError ("Unsupported action: " +:+ action)));
  if step_waitForNavigation step
  then call D (WaitForLoadState page "networkidle")
  else ret tt.

(** Lines 663-721. *)
Definition executeAssertion (page : Page) (assertion : Assertion) : M (State W) unit :=
  let selector := match assertion_selector assertion with
                  | Some sel => buildSelector (Some sel)
                  | None => ""
                  end in
  let ty := assertion_type assertion in
  let expected := assertion_expectedValue assertion in
  if same ty "elementExists"
  then call D (WaitForSelector page selector (Some "attached"))
  else if same ty "elementVisible"
  then run call D (WaitForSelector page selector (Some "visible"));
       do element <- call D (Query page selector);
       match element with
       | None => throw (mkError ("Element not found: " +:+ selector))
       | Some el =>
           if truthy expected
           then do text <- call D (ElemTextContent el);
                match text with
                | Some t =>
                    if String.eqb (trim t) (trim (default "" expected)) then ret tt
                    else throw (mkError ("Text mismatch. Expected: " +:+ dquote
                           +:+ default "" expected +:+ dquote +:+ ", Found: "
                           +:+ dquote +:+ t +:+ dquote))
                | None =>
                    throw (mkError ("Text mismatch. Expected: " +:+ dquote
                           +:+ default "" expected +:+ dquote +:+ ", Found: "
                           +:+ dquote +:+ "null" +:+ dquote))
                end
           else ret tt
       end
  else if same ty "urlEquals"
  then do currentUrl <- gets (fun s => page_url D page (world s));
       match expected with
       | Some e =>
           if String.eqb currentUrl e then ret tt
           else throw (mkError ("URL mismatch. Expected: " +:+ e +:+ ", Found: "
                                +:+ currentUrl))
       | None =>
           throw (mkError ("URL mismatch. Expected: undefined, Found: " +:+ currentUrl))
       end
  else if same ty "textContains"
  then if truthy expected
       then do content <- call D (TextContent page selector);
            match content with
            | Some c =>
                if includes c (default "" expected) then ret tt
                else throw (mkError ("Text does not contain " +:+ dquote
                       +:+ default "" expected +:+ dquote +:+ ". Found: "
                       +:+ dquote +:+ c +:+ dquote))
            | None =>
                throw (mkError ("Text does not contain " +:+ dquote
                       +:+ default "" expected +:+ dquote +:+ ". Found: "
                       +:+ dquote +:+ "null" +:+ dquote))
            end
       else throw (mkError "Expected value not provided for textContains assertion")
  else throw (mkError ("Unsupported assertion type: " +:+ ty)).

Definition stepPassed (step : Step) : StepLog :=
  mkStepLog (step_id step) true None.

Definition stepFailed (step : Step) (error : JsError) : StepLog :=
  mkStepLog (step_id step) false (Some (err_message error)).

Definition assertionPassed (a : Assertion) : AssertionLog :=
  mkAssertionLog (assertion_id a) true None.

Definition assertionFailed (a : Assertion) (error : JsError) : AssertionLog :=
  mkAssertionLog (assertion_id a) false (Some (err_message error)).

Definition runStep (testCaseId : string) (page : Page) (step : Step) : M (@Frame W) unit :=
  try_catch
    (run liftS (executeStep page step);
     modRun (pushStepLog (stepPassed step)))
    (fun error =>
       do screenshot <- liftS (captureScreenshot page testCaseId);
       run modRun (setScreenshot (Some screenshot));
       run modRun (pushStepLog (stepFailed step error));
       throw error).

Fixpoint runAssertions (page : Page) (assertions : list Assertion)
    (assertionsFailed : bool) : M (@Frame W) bool :=
  match assertions with
  | [] => ret assertionsFailed
  | assertion :: rest =>
      do failed <-
        try_catch
          (run liftS (executeAssertion page assertion);
           run modRun (pushAssertionLog (assertionPassed assertion));
           ret assertionsFailed)
          (fun error =>
             run modRun (pushAssertionLog (assertionFailed assertion error));
             ret true);
      runAssertions page rest failed
  end.

Definition newPage : M (State W) Page :=
  fun s =>
    match browser s with
    | None => (s, inl (TypeError "null" "newPage"))
    | Some b => call D (NewPage b) s
    end.

Definition startedRun (testCase : TestCase) : TestRun :=
  mkTestRun (tc_id testCase) RUNNING None None (mkLogs [] [] None).

(** [await this.saveTestLogs(testRun)] on the local [testRun]. *)
Definition saveLocalLogs : M (@Frame W) unit :=
  fun f => liftS (saveTestLogs (fst f)) f.

(** The [try] / [catch] / [finally] of [runTestCase] (lines 539-602). *)
Definition runTestCaseBody (testCase : TestCase) (page : Page) : M (@Frame W) unit :=
  try_finally
    (try_catch
       (run forEach (runStep (tc_id testCase) page) (tc_steps testCase);
        do assertionsFailed <- runAssertions page (tc_assertions testCase) false;
        run liftS (call D (PageClose page));
        let status := if assertionsFailed then FAILED else PASSED in
        run modRun (setStatus status);
        liftS (updateSuiteRunStats status))
       (fun error =>
          run modRun (setStatus FAILED);
          run modRun (setErrorMessage (Some (err_message error)));
          do screenshot <- liftS (captureScreenshot page (tc_id testCase));
          run modRun (setScreenshot (Some screenshot));
          run saveLocalLogs;
          liftS (updateSuiteRunStats FAILED)))
    saveLocalLogs.

(** Lines 506-606: the page is opened before the [try]. *)
Definition runTestCase (testCase : TestCase) : M (State W) unit :=
  do page <- newPage;
  fun s =>
    match runTestCaseBody testCase page (startedRun testCase, s) with
    | ((_, s'), inl error) => (s', inl error)
          | ((testRun, s'), inr _) =>
          (run modify (fun s => setTestRuns (<[tc_id testCase := testRun]> (testRuns s)) s);
           pushToSuiteRun testRun) s'
      end.

(** The body of the loop over [testSuite.testCases] (lines 466-472). *)
Definition runOne (testCase : TestCase) : M (State W) unit :=
  do ok <- canRunTest testCase;
  if ok then runTestCase testCase else recordBlockedTest testCase.

(** Lines 430-440. *)
Definition initialize : M (State W) unit :=
  try_catch
    (do b <- call D Launch;
     modify (setBrowser (Some b)))
    (fun error => throw error).

Definition ensureBrowser : M (State W) unit :=
  fun s => match browser s with
           | None => initialize s
           | Some _ => (s, inr tt)
           end.

(** Lines 442-492. *)
Definition runTestSuite (testSuite : TestSuite) : M (State W) TestSuiteRun :=
  run modify (setCurrentSuiteRun (Some (freshSuiteRun testSuite)));
  run try_finally
        (run ensureBrowser;
         forEach runOne (suite_testCases testSuite))
        finishSuiteRun;
  fun s => match currentSuiteRun s with
           | None => (s, inl (mkError "TestSuiteRun is null"))
           | Some r => (s, inr r)
           end.
End Run.
End RunTSFull.

(** ** The response cache of the last revision of the runner

    [getResponseDetails] of the third [WebCrawler] class of
    src/routes/crawler.ts (lines 1682-1699), over the one field that it
    uses.  Its argument is typed [any]: nothing is known of it but what
    happens when its members are called. *)
Module Responses.

(** A JavaScript value, as far as the keys of a [Map] tell values apart: a
    string, or some other value, named by a number. *)
Inductive Value :=
| VString (s : string)
| VOther (other : nat).

#[global] Instance Value_eq_dec : EqDecision Value.
Proof. solve_decision. Defined.

#[global] Instance Value_countable : Countable Value.
Proof.
  refine (inj_countable'
            (fun v => match v with VString s => inl s | VOther n => inr n end)
            (fun x => match x with inl s => VString s | inr n => VOther n end) _).
  by intros [].
Defined.

(** A member [response.m] that the code calls.  It is a function, which
    answers from the world or throws, or it is anything else ([undefined],
    a string, ...), and then the call throws a [TypeError]. *)
Inductive Member (W A : Type) :=
| notCallable
| callable (call : W -> W * (JsError + A)).
Arguments notCallable {W A}.
Arguments callable {W A} _.

(** What [response.text()] returned, once [.catch(...)] is called on it
    and awaited: a value on which that call throws (it has no [catch]
    method, say), or a promise that was fulfilled or rejected. *)
Inductive Settled :=
| catchThrows (error : JsError)
| resolved (v : Value)
| rejected (e : JsError).

(** The members that the method calls. *)
Record Response (W : Type) := mkResponse {
  resp_url : Member W Value;
  resp_status : Member W Value;
  resp_statusText : Member W Value;
  resp_headers : Member W Value;
  resp_text : Member W Settled;
  resp_timing : Member W Value
}.
Arguments mkResponse {W} _ _ _ _ _ _.
Arguments resp_url {W} _.
Arguments resp_status {W} _.
Arguments resp_statusText {W} _.
Arguments resp_headers {W} _.
Arguments resp_text {W} _.
Arguments resp_timing {W} _.

(** The argument: [undefined], [null], or a value with members. *)
Inductive Argument (W : Type) :=
| isUndefined
| isNull
| object (response : Response W).
Arguments isUndefined {W}.
Arguments isNull {W}.
Arguments object {W} _.

Record Details := mkDetails {
  status : Value;
  statusText : Value;
  url : Value;
  headers : Value;
  body : Value;
  timing : Value
}.

(** [this.responseCache] and the world. *)
Record RState (W : Type) := mkRState {
  responseCache : gmap Value Details;
  rworld : W
}.
Arguments mkRState {W} _ _.
Arguments responseCache {W} _.
Arguments rworld {W} _.

Section Cache.
Context {W : Type}.

(** [response.name()] *)
Definition invoke {A} (name : string) (member : Member W A) : M (RState W) A :=
  match member with
  | notCallable => throw (mkError ("response." +:+ name +:+ " is not a function"))
  | callable call =>
      fun s =>
        let '(w', r) := call (rworld s) in
        (mkRState (responseCache s) w', r)
  end.

(** [await response.text().catch(() => 'Unable to get response body')] *)
Definition readBody (response : Response W) : M (RState W) Value :=
  do answer <- invoke "text" (resp_text response);
  match answer with
  | catchThrows error => throw error
  | resolved v => ret v
  | rejected _ => ret (VString "Unable to get response body")
  end.

(** Lines 1682-1699; the members of the object literal are evaluated in
    the order in which they are written. *)
Definition getResponseDetails (response : Argument W) : M (RState W) Details :=
  match response with
  | isUndefined =>
      throw (mkError "Cannot read properties of undefined (reading 'url')")
  | isNull =>
      throw (mkError "Cannot read properties of null (reading 'url')")
  | object response =>
      do url <- invoke "url" (resp_url response);
      do cached <- gets (fun s => responseCache s !! url);
      match cached with
      | Some details => ret details
      | None =>
          do status <- invoke "status" (resp_status response);
          do statusText <- invoke "statusText" (resp_statusText response);
          do headers <- invoke "headers" (resp_headers response);
          do body <- readBody response;
          do timing <- invoke "timing" (resp_timing response);
          let details := mkDetails status statusText url headers body timing in
          run modify (fun s => mkRState (<[url := details]> (responseCache s)) (rworld s));
          ret details
      end
  end.
End Cache.
End Responses.

(** ** src/services/crawler.ts *)
Module Crawler.

Definition MAX_RETRY_ATTEMPTS : nat := 3.
Definition RECOVERY_DELAY : N := 1000%N.

(** [el.className] is a string on HTML elements and an object on SVG
    elements. *)
Inductive ClassName := ClassString (s : string) | ClassObject.

Local Set Warnings "-register-all".

(** What the page-side callbacks read of an element: its own properties,
    the tag names of its previous element siblings (nearest first),
    whether it is [document.body], and its parent element. *)
Inductive Node := mkNode {
  node_id : string;
  node_tagName : string;
  node_attributes : list (string * string);
  node_className : ClassName;
  node_previousSiblings : list string;
  node_isBody : bool;
  node_parentElement : option Node
}.

Definition Handle := nat.

Inductive Event :=
| Evaluated (h : Handle)
| Attempted
| Slept (ms : N).

(** [stats.errorCount], the world, and what was done to it. *)
Record CState (W : Type) := mkCState {
  errorCount : nat;
  cworld : W;
  events : list Event
}.
Arguments mkCState {W} _ _ _.
Arguments errorCount {W} _.
Arguments cworld {W} _.
Arguments events {W} _.

(** [element.evaluate] either fails or runs its callback on the node the
    handle stands for. *)
Record Dom (W : Type) := mkDom {
  resolve : Handle -> W -> W * (JsError + Node)
}.
Arguments resolve {W} _ _ _.

(** [el.getAttribute(name)] *)
Fixpoint getAttribute (attrs : list (string * string)) (name : string) : option string :=
  match attrs with
  | [] => None
  | (n, v) :: rest => if String.eqb n name then Some v else getAttribute rest name
  end.

(** The inner [while] of the path loop: [index] starts at 1 and counts the
    previous siblings with the tag of [current]. *)
Definition nthOfType (tagName : string) (previous : list string) : nat :=
  foldl (fun index sibling => if String.eqb sibling tagName then S index else index)
        1 previous.

Definition segment (tagName : string) (index : nat) (path : string) : string :=
  toLowerCase tagName +:+ ":nth-of-type(" +:+ pretty index +:+ ")"
    +:+ (if truthy (Some path) then " > " +:+ path else "").

(** The outer [while (current !== document.body && current.parentElement)]. *)
Fixpoint positionalPath (current : Node) (path : string) : string :=
  match current with
  | mkNode _ tagName _ _ previous isBody parent =>
      if isBody then path
      else match parent with
           | None => path
           | Some parentElement =>
               positionalPath parentElement
                 (segment tagName (nthOfType tagName previous) path)
           end
  end.

(** The callback of [generateUniqueSelector] (lines 299-332). *)
Definition uniqueSelector (el : Node) : string :=
  if truthy (Some (node_id el)) then "#" +:+ node_id el
  else
    let tag := toLowerCase (node_tagName el) in
    let name := getAttribute (node_attributes el) "name" in
    if truthy name
    then tag +:+ "[name=" +:+ dquote +:+ default "" name +:+ dquote +:+ "]"
    else
      let positional :=
        let path := positionalPath el "" in
        if truthy (Some path) then "body > " +:+ path else tag in
      match node_className el with
      | ClassString className =>
          if truthy (Some className)
          then let classes := splitSpaces (trim className) "" false in
               if (0 <? length classes)%nat
               then tag +:+ "." +:+ join "." classes
               else positional
          else positional
      | ClassObject => positional
      end.

(** [o[key] = value] on an object literal, for a string [value].  The
    name [__proto__] reaches the setter that the object inherits from
    [Object.prototype]; it ignores a value that is neither an object nor
    [null], so no property is created.  Every other name becomes an own
    property. *)
Definition assign (key value : string) (o : gmap string string) : gmap string string :=
  if String.eqb key "__proto__" then o else <[key := value]> o.

(** The callback of [extractAttributes] (lines 287-293). *)
Definition collectAttributes (el : Node) : gmap string string :=
  foldl (fun attributes attr => assign attr.1 attr.2 attributes) ∅ (node_attributes el).

(** Lines 276-284; every value is a string here. *)
Definition validateAttributes (attributes : gmap string string) : gmap string string :=
  foldl (fun validAttributes entry =>
           if (String.length entry.2 <? 1000)%nat
           then assign entry.1 entry.2 validAttributes
           else validAttributes)
        ∅ (map_to_list attributes).

(** [{ type: 'id' | 'class', value }] *)
Inductive IdentifierType := id | class.

Record Identifier := mkIdentifier {
  ident_type : IdentifierType;
  ident_value : string
}.

(** The callback of [generateElementIdentifier] (lines 341-363). *)
Definition elementIdentifier (el : Node) : Identifier :=
  if truthy (Some (node_id el)) then mkIdentifier id (node_id el)
  else
    match node_className el with
    | ClassString className =>
        if truthy (Some className)
        then let classes := splitSpaces (trim className) "" false in
             if (0 <? length classes)%nat
             then mkIdentifier class (join " " classes)
             else mkIdentifier class ""
        else mkIdentifier class ""
    | ClassObject => mkIdentifier class ""
    end.

(** [selector.startsWith('#')] *)
Definition startsWithHash (selector : string) : bool :=
  match selector with
  | String c _ => Ascii.eqb c "#"
  | EmptyString => false
  end.

(** [selector.replace(/^[#\.]/, '')] *)
Definition stripMark (selector : string) : string :=
  match selector with
  | String c rest => if Ascii.eqb c "#" || Ascii.eqb c "." then rest else selector
  | EmptyString => EmptyString
  end.

(** The [identifier] that [findForms], [findNavigationLinks] and
    [findInputFields] derive from the unique selector of an element
    (lines 188-191, 238-241 and 263-266). *)
Definition identifierOfSelector (selector : string) : Identifier :=
  mkIdentifier (if startsWithHash selector then id else class) (stripMark selector).

Section Crawl.
Context {W : Type} (D : Dom W).

Definition evaluate {A} (element : Handle) (callback : Node -> A) : M (CState W) A :=
  fun s =>
    let '(w', r) := resolve D element (cworld s) in
    (mkCState (errorCount s) w' (events s ++ [Evaluated element]),
     match r with
     | inl e => inl e
     | inr el => inr (callback el)
     end).

(** Lines 286-295. *)
Definition extractAttributes (element : Handle) : M (CState W) (gmap string string) :=
  do attributes <- evaluate element collectAttributes;
  ret (validateAttributes attributes).

(** Lines 297-338: the [catch] evaluates the tag name on the same
    handle. *)
Definition generateUniqueSelector (element : Handle) : M (CState W) string :=
  try_catch
    (evaluate element uniqueSelector)
    (fun error => evaluate element (fun el => toLowerCase (node_tagName el))).

(** Lines 340-364. *)
Definition generateElementIdentifier (element : Handle) : M (CState W) Identifier :=
  evaluate element elementIdentifier.

(** One run of [operation], which acts on the world only. *)
Definition attempt {T} (operation : W -> W * (JsError + T)) : M (CState W) T :=
  fun s =>
    let '(w', r) := operation (cworld s) in
    (mkCState (errorCount s) w' (events s ++ [Attempted]), r).

Definition failed (s : CState W) : CState W :=
  mkCState (S (errorCount s)) (cworld s) (events s).

(** [await new Promise(resolve => setTimeout(resolve, ms))] *)
Definition sleep (ms : N) (s : CState W) : CState W :=
  mkCState (errorCount s) (cworld s) (events s ++ [Slept ms]).

(** Lines 401-420; [retryCount] defaults to 0. *)
Equations? retryOperation {T} (operation : W -> W * (JsError + T))
    (retryCount : nat) (s : CState W) : CState W * (JsError + T)
    by wf (MAX_RETRY_ATTEMPTS - retryCount) lt :=
  retryOperation operation retryCount s with attempt operation s := {
    | (s1, inr value) => (s1, inr value)
    | (s1, inl error) with decide (MAX_RETRY_ATTEMPTS <= retryCount) := {
        | left _ => (failed s1, inl error)
        | right _ =>
            retryOperation operation (retryCount + 1)
              (sleep (RECOVERY_DELAY * N.of_nat (retryCount + 1))%N (failed s1)) } }.
Proof. unfold MAX_RETRY_ATTEMPTS in *. lia. Defined.
End Crawl.

(** [TestableElement] (lines 5-21); [location] is what [boundingBox]
    resolved to, which the code passes on unread. *)
Record TestableElement (Box : Type) := mkTestableElement {
  te_type : string;
  te_identifier : Identifier;
  te_attributes : gmap string string;
  te_innerText : option string;
  te_location : Box
}.
Arguments mkTestableElement {Box} _ _ _ _ _.
Arguments te_type {Box} _.
Arguments te_identifier {Box} _.
Arguments te_attributes {Box} _.
Arguments te_innerText {Box} _.
Arguments te_location {Box} _.

(** The calls on a page and on its element handles other than
    [evaluate]: [page.$$], [isVisible], [boundingBox] and [innerText]. *)
Record Handles (W Box : Type) := mkHandles {
  queryAll : string -> W -> W * (JsError + list Handle);
  isVisible : Handle -> W -> W * (JsError + bool);
  boundingBox : Handle -> W -> W * (JsError + option Box);
  innerText : Handle -> W -> W * (JsError + string)
}.
Arguments queryAll {W Box} _ _ _.
Arguments isVisible {W Box} _ _ _.
Arguments boundingBox {W Box} _ _ _.
Arguments innerText {W Box} _ _ _.

(** [for (const x of xs) { ... }] around a local array that the body may
    push to. *)
Fixpoint forEachInto {S A B} (body : A -> list B -> M S (list B)) (xs : list A)
    (found : list B) : M S (list B) :=
  match xs with
  | [] => ret found
  | x :: rest => do found' <- body x found; forEachInto body rest found'
  end.

Section Finders.
Context {W Box : Type} (D : Dom W) (H : Handles W Box).

(** A call on the page or on a handle; [events] keeps to the evaluations. *)
Definition asking {A} (op : W -> W * (JsError + A)) : M (CState W) A :=
  fun s =>
    let '(w', r) := op (cworld s) in
    (mkCState (errorCount s) w' (events s), r).

(** Lines 366-375. *)
Definition validateElement (element : Handle) : M (CState W) bool :=
  try_catch
    (do visible <- asking (isVisible H element);
     do box <- asking (boundingBox H element);
     ret (visible && match box with Some _ => true | None => false end))
    (fun error => ret false).

Definition buttonSelector : string :=
  "button, input[type=" +:+ dquote +:+ "button" +:+ dquote +:+ "], input[type="
    +:+ dquote +:+ "submit" +:+ dquote +:+ "], a.btn, .button, [role=" +:+ dquote
    +:+ "button" +:+ dquote +:+ "]".

(** Lines 202-224. *)
Definition findButtons : M (CState W) (list (TestableElement Box)) :=
  do buttons <- asking (queryAll H buttonSelector);
  forEachInto
    (fun button buttonElements =>
       do valid <- validateElement button;
       if valid
       then do box <- asking (boundingBox H button);
            do text <- asking (innerText H button);
            match box with
            | Some location =>
                do identifier <- generateElementIdentifier D button;
                do attributes <- extractAttributes D button;
                ret (buttonElements ++
                       [mkTestableElement "button" identifier attributes (Some text)
                          location])%list
            | None => ret buttonElements
            end
       else ret buttonElements)
    buttons [].

Definition navigationSelector : string :=
  "nav a, header a, .navigation a, .menu a, .nav-item a".

(** Lines 226-250. *)
Definition findNavigationLinks : M (CState W) (list (TestableElement Box)) :=
  do navLinks <- asking (queryAll H navigationSelector);
  forEachInto
    (fun link navElements =>
       do selector <- generateUniqueSelector D link;
       do box <- asking (boundingBox H link);
       do text <- asking (innerText H link);
       match box with
       | Some location =>
           do attributes <- extractAttributes D link;
           ret (navElements ++
                  [mkTestableElement "navigationLink" (identifierOfSelector selector)
                     attributes (Some text) location])%list
       | None => ret navElements
       end)
    navLinks [].

Definition inputSelector : string :=
  "input:not([type=" +:+ dquote +:+ "submit" +:+ dquote +:+ "]):not([type=" +:+ dquote
    +:+ "button" +:+ dquote +:+ "]), textarea, select".

(** Lines 252-274. *)
Definition findInputFields : M (CState W) (list (TestableElement Box)) :=
  do inputs <- asking (queryAll H inputSelector);
  forEachInto
    (fun input inputElements =>
       do selector <- generateUniqueSelector D input;
       do box <- asking (boundingBox H input);
       match box with
       | Some location =>
           do attributes <- extractAttributes D input;
           ret (inputElements ++
                  [mkTestableElement "input" (identifierOfSelector selector)
                     attributes None location])%list
       | None => ret inputElements
       end)
    inputs [].
End Finders.
End Crawler.

(** ** src/api/crawler.ts

    The handler of [POST /analyzewebsite].  Selenium is outside the
    program; [res.json] and [res.status(500).json] append a reply and do
    not fail. *)
Module Analyze.

(** What the script that runs in the page reads of an element. *)
Record Element := mkElement {
  el_tagName : string;
  el_attributes : list (string * string);
  el_textContent : option string
}.

Record Described := mkDescribed {
  tag : string;
  attributes : list (string * string);
  text : string
}.

(** [el.textContent?.trim().slice(0, 100) || ""] *)
Definition elementText (textContent : option string) : string :=
  match textContent with
  | None => ""
  | Some t =>
      let cut := substring 0 100 (trim t) in
      if truthy (Some cut) then cut else ""
  end.

(** The callback of [elements.map] (lines 34-41). *)
Definition describe (el : Element) : Described :=
  mkDescribed (el_tagName el) (el_attributes el) (elementText (el_textContent el)).

(** [CrawlerResponse] *)
Record CrawlerResponse := mkCrawlerResponse {
  success : bool;
  elementCount : nat;
  elements : list Described;
  error : option string
}.

Record Reply := mkReply {
  reply_status : nat;
  reply_body : CrawlerResponse
}.

Definition WebDriver := nat.

(** The calls on Selenium; [allElements] answers
    [document.querySelectorAll("*")] inside [executeScript]. *)
Record Selenium (W : Type) := mkSelenium {
  build : W -> W * (JsError + WebDriver);
  get : WebDriver -> option string -> W -> W * (JsError + unit);
  allElements : WebDriver -> W -> W * (JsError + list Element);
  quit : WebDriver -> W -> W * (JsError + unit)
}.
Arguments build {W} _ _.
Arguments get {W} _ _ _ _.
Arguments allElements {W} _ _ _.
Arguments quit {W} _ _ _.

Inductive Did :=
| DidBuild
| DidGet (websiteUrl : option string)
| DidScript
| DidReply (r : Reply)
| DidQuit.

(** The replies sent on [res], the world, and what was done, oldest
    first. *)
Record Exchange (W : Type) := mkExchange {
  replies : list Reply;
  sworld : W;
  did : list Did
}.
Arguments mkExchange {W} _ _ _.
Arguments replies {W} _.
Arguments sworld {W} _.
Arguments did {W} _.

Section Handler.
Context {W : Type} (S : Selenium W).

Definition calling {A} (op : W -> W * (JsError + A)) (what : Did) : M (Exchange W) A :=
  fun s =>
    let '(w', r) := op (sworld s) in
    (mkExchange (replies s) w' (did s ++ [what]), r).

Definition reply (r : Reply) : M (Exchange W) unit :=
  modify (fun s => mkExchange (replies s ++ [r]) (sworld s) (did s ++ [DidReply r])).

(** [driver.executeScript] with the script of lines 32-42. *)
Definition executeScript (driver : WebDriver) : M (Exchange W) (list Described) :=
  do elements <- calling (allElements S driver) DidScript;
  ret (map describe elements).

(** Lines 18-65; [websiteUrl] is [req.body.websiteUrl]. *)
Definition analyzewebsite (websiteUrl : option string) : M (Exchange W) unit :=
  do driver <- calling (build S) DidBuild;
  try_finally
    (try_catch
       (run calling (get S driver websiteUrl) (DidGet websiteUrl);
        do allElements <- executeScript driver;
        reply (mkReply 200
                 (mkCrawlerResponse true (length allElements) allElements None)))
       (fun error =>
          reply (mkReply 500
                   (mkCrawlerResponse false 0 []
                      (Some "There was an error running our analysis")))))
    (calling (quit S driver) DidQuit).
End Handler.
End Analyze.


(** * Vocabulary of the statements *)

Local Open Scope list_scope.

Section Vocabulary.
Context {W : Type}.

(** The fields of the object are as they were: at most the outside world
    and the trace differ. *)
Definition sameObject (s s' : State W) : Prop :=
  browser s' = browser s /\
  currentSuiteRun s' = currentSuiteRun s /\
  testRuns s' = testRuns s.

(** A computation that leaves the fields of the object alone. *)
Definition keeps {A} (m : M (State W) A) : Prop :=
  forall s, sameObject s (m s).1.

Definition keepsF {A} (m : M (@Frame W) A) : Prop :=
  forall f, sameObject f.2 (m f).1.2.

(** [InOrder exec xs s s']: each element of [xs] was executed with success,
    one after the other in list order, taking the state from [s] to [s']. *)
Inductive InOrder {X} (exec : X -> M (State W) unit) : list X -> State W -> State W -> Prop :=
| InOrder_nil s : InOrder exec [] s s
| InOrder_cons x rest s s1 s2 :
    exec x s = (s1, inr tt) ->
    InOrder exec rest s1 s2 ->
    InOrder exec (x :: rest) s s2.

(** The outcome of one evaluation: the error thrown, if any. *)
Definition thrown {A} (r : JsError + A) : option JsError :=
  match r with
  | inl e => Some e
  | inr _ => None
  end.

(** [Evaluated exec xs s s' outs]: every element of [xs] was executed, in
    list order and whatever the outcome of the earlier ones; [outs] lists
    the outcomes. *)
Inductive Evaluated {X} (exec : X -> M (State W) unit) :
    list X -> State W -> State W -> list (option JsError) -> Prop :=
| Evaluated_nil s : Evaluated exec [] s s []
| Evaluated_cons x rest s s1 r s2 outs :
    exec x s = (s1, r) ->
    Evaluated exec rest s1 s2 outs ->
    Evaluated exec (x :: rest) s s2 (thrown r :: outs).

(** The log entry of an assertion with a given outcome. *)
Definition assertionEntry (a : Assertion) (out : option JsError) : AssertionLog :=
  match out with
  | None => RunTS.assertionPassed a
  | Some e => RunTS.assertionFailed a e
  end.

Definition anyThrown (outs : list (option JsError)) : bool :=
  existsb (fun o => match o with Some _ => true | None => false end) outs.

Definition addStepLogs (es : list StepLog) (r : TestRun) : TestRun :=
  mkTestRun (run_testCaseId r) (run_status r) (run_errorMessage r) (run_screenshot r)
    (mkLogs (logs_steps (run_logs r) ++ es) (logs_assertions (run_logs r))
            (logs_message (run_logs r))).

Definition addAssertionLogs (es : list AssertionLog) (r : TestRun) : TestRun :=
  mkTestRun (run_testCaseId r) (run_status r) (run_errorMessage r) (run_screenshot r)
    (mkLogs (logs_steps (run_logs r)) (logs_assertions (run_logs r) ++ es)
            (logs_message (run_logs r))).

(** Two test runs that differ in their assertion log at most. *)
Definition sameButAssertionLog (tr tr' : TestRun) : Prop :=
  logs_steps (run_logs tr') = logs_steps (run_logs tr) /\
  logs_message (run_logs tr') = logs_message (run_logs tr) /\
  run_testCaseId tr' = run_testCaseId tr /\
  run_status tr' = run_status tr /\
  run_errorMessage tr' = run_errorMessage tr /\
  run_screenshot tr' = run_screenshot tr.

(** The status that [determineTestSuiteStatus] derives from the counters. *)
Definition derivedStatus (r : TestSuiteRun) : TestStatus :=
  if (0 <? tsr_failedTests r)%nat then FAILED
  else if (tsr_passedTests r =? tsr_totalTests r)%nat then PASSED
  else if (0 <? tsr_blockedTests r)%nat then BLOCKED
  else FAILED.

(** Every dependency has a recorded run with status PASSED. *)
Definition dependenciesPassed (testCase : TestCase) (s : State W) : Prop :=
  forall d, d ∈ default [] (tc_dependsOn testCase) ->
    exists r, testRuns s !! d = Some r /\ run_status r = PASSED.
End Vocabulary.

(** * Concrete worlds

    Drivers over a world with no state of its own, used to run the code on
    explicit inputs.  A driver answers every call with a fixed value,
    except the calls picked out by [fails], which throw. *)

Definition okValue {A} (c : Call A) : A :=
  match c in Call T return T with
  | Launch => 1
  | NewPage _ => 7
  | Goto _ _ => tt
  | Click _ _ => tt
  | Fill _ _ _ => tt
  | SelectOption _ _ _ => tt
  | WaitForTimeout _ _ => tt
  | WaitForLoadState _ _ => tt
  | WaitForSelector _ _ _ => tt
  | TextContent _ _ => Some "hello"
  | Query _ _ => Some 3
  | ElemTextContent _ => Some "hello"
  | PageClose _ => tt
  | Screenshot _ => "iVBORw0KGgo="
  | ScreenshotFile _ _ => tt
  | Mkdir _ => tt
  | ReadFile _ => "iVBORw0KGgo="
  | WriteLog _ _ => tt
  end.

Definition scripted (fails : AnyCall -> bool) : Driver unit :=
  mkDriver unit
    (fun A c w => if fails (any c) then (w, inl (mkError "driver failure"))
                  else (w, inr (okValue c)))
    (fun _ _ => "https://example.test/").

Definition isLaunch (c : AnyCall) : bool :=
  match c with any Launch => true | _ => false end.


Definition isScreenshot (c : AnyCall) : bool :=
  match c with
  | any (Screenshot _) => true
  | any (ScreenshotFile _ _) => true
  | _ => false
  end.


Definition isNewPage (c : AnyCall) : bool :=
  match c with any (NewPage _) => true | _ => false end.

(** No page can be opened. *)
Definition noPages : Driver unit := scripted isNewPage.

(** Every call succeeds. *)
Definition healthy : Driver unit := scripted (fun _ => false).

(** The browser cannot be launched. *)
Definition noBrowser : Driver unit := scripted isLaunch.



(** Only screenshots fail. *)
Definition noScreenshots : Driver unit := scripted isScreenshot.


(** A new [WebCrawler], before [initialize]. *)
Definition newCrawler : State unit := mkState None None ∅ tt [].

(** A [WebCrawler] in the middle of a suite run of one case. *)
Definition midRun : State unit :=
  mkState (Some 1) (Some (mkTestSuiteRun "suite" RUNNING 1 0 0 0 0 [])) ∅ tt [].

Definition clickStep : Step :=
  mkStep "s1" "click" (Some (mkSelector (Some "id") "go")) None None false None false.

Definition typeStepNoValue : Step :=
  mkStep "s2" "type" (Some (mkSelector (Some "id") "user")) None None false None false.

Definition urlAssertion : Assertion :=
  mkAssertion "a1" "urlEquals" None (Some "https://other.test/").

Definition existsAssertion : Assertion :=
  mkAssertion "a2" "elementExists" (Some (mkSelector (Some "css") "h1")) None.

Definition caseA : TestCase := mkTestCase "A" [clickStep] [existsAssertion] (Some []).

Definition caseB : TestCase := mkTestCase "B" [] [urlAssertion] (Some ["A"]).

Definition caseC : TestCase := mkTestCase "C" [typeStepNoValue] [] None.

Definition suiteAB : TestSuite := mkTestSuite "suite" [caseA; caseB].

Definition suiteA : TestSuite := mkTestSuite "suite" [caseA].


Definition recordedFull {W} (D : Driver W) (testCase : TestCase) (s : State W) :
    option TestRun :=
  testRuns (RunTSFull.runTestCase D testCase s).1 !! tc_id testCase.

(** [midRun] once the page of a case is open. *)
Definition pageOpen : State unit :=
  mkState (Some 1) (Some (mkTestSuiteRun "suite" RUNNING 1 0 0 0 0 [])) ∅ tt
    [any (NewPage 1)].

(** The file system and the screenshot capability never fail: what the
    artifacts of the later revision rest on. *)
Definition ArtifactsWork {W} (D : Driver W) : Prop :=
  forall w : W,
    (forall dir, exists w', drv D (Mkdir dir) w = (w', inr tt)) /\
    (forall p name, exists w', drv D (ScreenshotFile p name) w = (w', inr tt)) /\
    (forall name, exists w' data, drv D (ReadFile name) w = (w', inr data)) /\
    (forall name body, exists w', drv D (WriteLog name body) w = (w', inr tt)).

Definition caseBlockedC : TestCase :=
  mkTestCase "C" [typeStepNoValue] [] (Some ["A"]).

(** ** Vocabulary for the crawler *)

(** How often the operation was run, and the delays slept, oldest first. *)
Fixpoint attempts (es : list Crawler.Event) : nat :=
  match es with
  | [] => 0
  | Crawler.Attempted :: rest => S (attempts rest)
  | _ :: rest => attempts rest
  end.

Fixpoint delays (es : list Crawler.Event) : list N :=
  match es with
  | [] => []
  | Crawler.Slept ms :: rest => ms :: delays rest
  | _ :: rest => delays rest
  end.

(** The world after [k] runs of the operation, one after the other, that
    all failed; [None] when one of them succeeded. *)
Fixpoint afterFailures {W T} (operation : W -> W * (JsError + T)) (k : nat) (w : W)
    : option W :=
  match k with
  | 0 => Some w
  | S k' =>
      match operation w with
      | (w', inl _) => afterFailures operation k' w'
      | (_, inr _) => None
      end
  end.

(** A run followed by [k] retries, the first of them numbered
    [retryCount + 1]: before retry [n] the delay is [RECOVERY_DELAY * n]. *)
Definition retrySchedule (retryCount k : nat) : list Crawler.Event :=
  Crawler.Attempted ::
  flat_map (fun n => [Crawler.Slept (Crawler.RECOVERY_DELAY * N.of_nat n)%N;
                      Crawler.Attempted])
           (seq (retryCount + 1) k).

(** An operation that fails every time; the world counts its runs, and the
    error says which run it was. *)
Definition alwaysFails (n : nat) : nat * (JsError + unit) :=
  (S n, inl (mkError ("failure " +:+ pretty n))).

(** An operation that succeeds on its [k]-th run (counting from 0). *)
Definition succeedsAt (k : nat) (n : nat) : nat * (JsError + nat) :=
  (S n, if (n =? k)%nat then inr n else inl (mkError ("failure " +:+ pretty n))).

Fixpoint repeatChar (n : nat) (c : ascii) : string :=
  match n with
  | 0 => EmptyString
  | S n' => String c (repeatChar n' c)
  end.

(** The elements that the path loop of [generateUniqueSelector] visits,
    from the element itself upwards: it stops at [document.body] and at an
    element with no parent. *)
Fixpoint climb (current : Crawler.Node) : list Crawler.Node :=
  match current with
  | Crawler.mkNode _ _ _ _ _ isBody parent =>
      if isBody then []
      else match parent with
           | None => []
           | Some parentElement => current :: climb parentElement
           end
  end.

(** The path segment of one element: [tag:nth-of-type(index)]. *)
Definition segmentOf (n : Crawler.Node) : string :=
  toLowerCase (Crawler.node_tagName n) +:+ ":nth-of-type("
    +:+ pretty (Crawler.nthOfType (Crawler.node_tagName n) (Crawler.node_previousSiblings n))
    +:+ ")".

(** Induction from an element up to the root. *)
Fixpoint Node_up (P : Crawler.Node -> Prop)
    (Hroot : forall i t a c p b, P (Crawler.mkNode i t a c p b None))
    (Hstep : forall i t a c p b parent,
        P parent -> P (Crawler.mkNode i t a c p b (Some parent)))
    (n : Crawler.Node) : P n :=
  match n with
  | Crawler.mkNode i t a c p b None => Hroot i t a c p b
  | Crawler.mkNode i t a c p b (Some parent) =>
      Hstep i t a c p b parent (Node_up P Hroot Hstep parent)
  end.

(** A page that answers every evaluation with the same element. *)
Definition staticDom (n : Crawler.Node) : Crawler.Dom unit :=
  Crawler.mkDom unit (fun _ w => (w, inr n)).

(** A page on which every evaluation fails (the handle is stale). *)
Definition staleDom : Crawler.Dom unit :=
  Crawler.mkDom unit
    (fun _ w => (w, inl (mkError "Execution context was destroyed"))).

(** A page on which the first evaluation fails and the later ones work. *)
Definition flakyDom (n : Crawler.Node) : Crawler.Dom nat :=
  Crawler.mkDom nat
    (fun _ w => (S w, match w with
                      | 0 => inl (mkError "Execution context was destroyed")
                      | _ => inr n
                      end)).

Definition bodyNode : Crawler.Node :=
  Crawler.mkNode "" "BODY" [] (Crawler.ClassString "") [] true None.

(** [<form>] second child of body, with id, name and classes. *)
Definition loginForm : Crawler.Node :=
  Crawler.mkNode "login" "FORM" [("id", "login"); ("name", "f"); ("class", "wide dark")]
    (Crawler.ClassString "wide dark") ["DIV"] false (Some bodyNode).

(** [<input name="user" class="field  big">] inside the form. *)
Definition userInput : Crawler.Node :=
  Crawler.mkNode "" "INPUT" [("name", "user"); ("class", "field  big")]
    (Crawler.ClassString "field  big") [] false (Some loginForm).

(** [<input name="" class="field">]: the name attribute is there, empty. *)
Definition namelessInput : Crawler.Node :=
  Crawler.mkNode "" "INPUT" [("name", ""); ("class", "field")]
    (Crawler.ClassString "field") ["INPUT"] false (Some loginForm).

(** A bare [<input>], third input of the form, after a label. *)
Definition bareInput : Crawler.Node :=
  Crawler.mkNode "" "INPUT" [] (Crawler.ClassString "") ["LABEL"; "INPUT"; "INPUT"]
    false (Some loginForm).

(** [<div class=" card   wide ">] below the form's parent. *)
Definition cardDiv : Crawler.Node :=
  Crawler.mkNode "" "DIV" [("class", " card   wide ")]
    (Crawler.ClassString " card   wide ") [] false (Some bodyNode).

(** A [<div>] that a script has removed from the document. *)
Definition detachedDiv : Crawler.Node :=
  Crawler.mkNode "" "DIV" [] (Crawler.ClassString "") [] false None.

(** An element with one attribute of exactly 1000 characters and one of 999. *)
Definition longAttributes : Crawler.Node :=
  Crawler.mkNode "" "DIV"
    [("data-a", repeatChar 1000 "a"); ("data-b", repeatChar 999 "b");
     ("data-c", repeatChar 1001 "c")]
    (Crawler.ClassString "") [] false (Some bodyNode).

(** An element with an attribute named [__proto__]. *)
Definition protoAttribute : Crawler.Node :=
  Crawler.mkNode "" "DIV" [("__proto__", "x"); ("title", "t")]
    (Crawler.ClassString "") [] false (Some bodyNode).

Definition freshCrawl : Crawler.CState unit := Crawler.mkCState 0 tt [].

(** * Vocabulary for the suites *)

Section SuiteVocabulary.
Context {W : Type}.

(** The browser is there, or it can be launched. *)
Definition browserAvailable (D : Driver W) (s : State W) : Prop :=
  match browser s with
  | Some _ => True
  | None => exists w' b, drv D Launch (world s) = (w', inr b)
  end.

(** A suite run after the runs [ts] were appended to it, each counted
    under its status. *)
Definition recordAll (ts : list TestRun) (r : TestSuiteRun) : TestSuiteRun :=
  foldl (fun r t => pushTestRun t (bump (run_status t) r)) r ts.

(** The map of runs after the runs [ts] were stored under their case ids,
    in list order. *)
Definition storeAll (ts : list TestRun) (m : gmap string TestRun) : gmap string TestRun :=
  foldl (fun m t => <[run_testCaseId t := t]> m) m ts.

(** How many of the runs have the status [st]. *)
Definition withStatus (st : TestStatus) (ts : list TestRun) : nat :=
  length (filter (fun t => run_status t = st) ts).

(** The statuses that a recorded run can have. *)
Definition settled (t : TestRun) : Prop :=
  run_status t = PASSED \/ run_status t = FAILED \/ run_status t = BLOCKED.

(** The local [testRun] keeps its [testCaseId]. *)
Definition keepsId {A} (m : M (@Frame W) A) : Prop :=
  forall f, run_testCaseId (m f).1.1 = run_testCaseId f.1.

(** The local [testRun] keeps its [status]. *)
Definition keepsStatus {A} (m : M (@Frame W) A) : Prop :=
  forall f, run_status (m f).1.1 = run_status f.1.
End SuiteVocabulary.

(** [r] is a complete run of [suite]: it carries the id of the suite, lists
    a run for each case in order, has counted every case, and has a
    terminal status. *)
Definition runOf (suite : TestSuite) (r : TestSuiteRun) : Prop :=
  tsr_testSuiteId r = suite_id suite /\
  map run_testCaseId (tsr_testRuns r) = map tc_id (suite_testCases suite) /\
  tsr_totalTests r = length (suite_testCases suite) /\
  counted r = tsr_totalTests r /\
  terminal (tsr_status r) = true.

(** Every dependency of the case has a PASSED run in the map [runs]. *)
Definition eligibleIn (runs : gmap string TestRun) (testCase : TestCase) : Prop :=
  forall d, d ∈ default [] (tc_dependsOn testCase) ->
    exists r, runs !! d = Some r /\ run_status r = PASSED.

(** A page can always be opened. *)
Definition PagesOpen {W} (D : Driver W) : Prop :=
  forall b w, exists w' page, drv D (NewPage b) w = (w', inr page).

(** [browser.close()] never fails. *)
Definition closes {W} (C : Chromium W) : Prop :=
  forall b w, exists w', browser_close C b w = (w', inr tt).

(** * More concrete inputs *)

Definition caseZ : TestCase := mkTestCase "Z" [] [] (Some ["Y"]).

(** A new crawler, except that it holds the run of a case Z. *)
Definition earlierZ : State unit :=
  mkState None None {[ "Z" := blockedRun caseZ ]} tt [].

(** A Chromium over a driver, whose browser closes without error. *)
Definition closing (D : Driver unit) : Chromium unit :=
  mkChromium unit D (fun _ w => (w, inr tt)).

(** A Chromium whose browser cannot be closed. *)
Definition unclosable (D : Driver unit) : Chromium unit :=
  mkChromium unit D (fun _ w => (w, inl (mkError "Target closed"))).

Definition suiteZ : TestSuite := mkTestSuite "later" [caseZ].

(** The step of the API documentation: [navigate] with a URL and no
    selector. *)
Definition navigateStep : Step :=
  mkStep "step-1" "navigate" None (Some "https://www.saucedemo.com/") None false None
    false.

Definition caseN : TestCase := mkTestCase "N" [navigateStep] [] None.

Definition suiteN : TestSuite := mkTestSuite "docs" [caseN; caseA].

(** * Vocabulary for the crawler's identifiers *)

(** [A]-[Z] or [a]-[z]. *)
Definition isLetter (c : ascii) : bool :=
  let n := nat_of_ascii c in
  (((65 <=? n) && (n <=? 90)) || ((97 <=? n) && (n <=? 122)))%nat.

(** The string starts with a letter, as the tag name of an element does. *)
Definition startsWithLetter (s : string) : bool :=
  match s with
  | String c _ => isLetter c
  | EmptyString => false
  end.

(** No character of the string is white space. *)
Fixpoint noSpace (s : string) : bool :=
  match s with
  | EmptyString => true
  | String c rest => negb (isSpace c) && noSpace rest
  end.

Definition startsWithSpace (s : string) : bool :=
  match s with
  | String c _ => isSpace c
  | EmptyString => false
  end.

Fixpoint endsWithSpace (s : string) : bool :=
  match s with
  | EmptyString => false
  | String c EmptyString => isSpace c
  | String _ rest => endsWithSpace rest
  end.

(** A class name as it stands in a class list: not empty, no white
    space. *)
Definition className (p : string) : Prop := p <> "" /\ noSpace p = true.

(** * Concrete worlds for the analysis handler and the response cache *)

(** A Selenium whose page has two elements; [fails] tells which of the
    four calls throw (build, get, script, quit). *)
Definition seleniumWith (fails : Analyze.Did -> bool) : Analyze.Selenium unit :=
  Analyze.mkSelenium unit
    (fun w => if fails Analyze.DidBuild then (w, inl (mkError "no chrome")) else (w, inr 1))
    (fun _ websiteUrl w =>
       if fails (Analyze.DidGet websiteUrl) then (w, inl (mkError "net::ERR")) else (w, inr tt))
    (fun _ w =>
       if fails Analyze.DidScript then (w, inl (mkError "script timeout"))
       else (w, inr [Analyze.mkElement "HTML" [] (Some "  Hello  ");
                     Analyze.mkElement "IMG" [("src", "a.png")] None]))
    (fun _ w => if fails Analyze.DidQuit then (w, inl (mkError "quit")) else (w, inr tt)).

Definition isGet (d : Analyze.Did) : bool :=
  match d with Analyze.DidGet _ => true | _ => false end.

Definition newExchange : Analyze.Exchange unit := Analyze.mkExchange [] tt [].

(** The fixed reply of the analysis when the page or the script failed. *)
Definition analysisFailed : Analyze.Reply :=
  Analyze.mkReply 500
    (Analyze.mkCrawlerResponse false 0 []
       (Some "There was an error running our analysis")).

(** [d] describes the element [el]: its tag name, its attributes, and the
    first 100 characters of its trimmed text, or no text. *)
Definition describes (el : Analyze.Element) (d : Analyze.Described) : Prop :=
  Analyze.tag d = Analyze.el_tagName el /\
  Analyze.attributes d = Analyze.el_attributes el /\
  Analyze.text d = match Analyze.el_textContent el with
                   | None => ""
                   | Some t => substring 0 100 (trim t)
                   end.

(** The details of a response that was not in the cache: what its
    members answered, called in the order status, statusText, headers,
    text, timing from the world [w1], which they leave as [w']; the body
    is what the promise of the text was fulfilled with, or the fixed text
    when it was rejected. *)
Definition builtFrom {W} (r : Responses.Response W) (w1 : W) (u : Responses.Value)
    (details : Responses.Details) (w' : W) : Prop :=
  exists c1 c2 c3 c4 c5 w2 w3 w4 w5 v1 v2 v3 answer v5,
    Responses.resp_status r = Responses.callable c1 /\ c1 w1 = (w2, inr v1) /\
    Responses.resp_statusText r = Responses.callable c2 /\ c2 w2 = (w3, inr v2) /\
    Responses.resp_headers r = Responses.callable c3 /\ c3 w3 = (w4, inr v3) /\
    Responses.resp_text r = Responses.callable c4 /\ c4 w4 = (w5, inr answer) /\
    Responses.resp_timing r = Responses.callable c5 /\ c5 w5 = (w', inr v5) /\
    (forall error, answer <> Responses.catchThrows error) /\
    details =
      Responses.mkDetails v1 v2 u v3
        (match answer with
         | Responses.resolved v => v
         | _ => Responses.VString "Unable to get response body"
         end)
        v5.

(** One of the five members that are called after a miss is no
    function. *)
Definition lacksAMethod {W} (r : Responses.Response W) : Prop :=
  Responses.resp_status r = Responses.notCallable \/
  Responses.resp_statusText r = Responses.notCallable \/
  Responses.resp_headers r = Responses.notCallable \/
  Responses.resp_text r = Responses.notCallable \/
  Responses.resp_timing r = Responses.notCallable.

(** A method that answers [v]; the world lists the calls made. *)
Definition answers {A} (name : string) (v : A) : Responses.Member (list string) A :=
  Responses.callable (fun w => ((w ++ [name])%list, inr v)).

(** An object with the six methods. *)
Definition okResponse : Responses.Response (list string) :=
  Responses.mkResponse
    (answers "url" (Responses.VString "https://example.test/api"))
    (answers "status" (Responses.VOther 200))
    (answers "statusText" (Responses.VString "OK"))
    (answers "headers" (Responses.VOther 1))
    (answers "text" (Responses.resolved (Responses.VString "<html></html>")))
    (answers "timing" (Responses.VOther 2)).

(** A later response to the same URL, with another status. *)
Definition laterResponse : Responses.Response (list string) :=
  Responses.mkResponse
    (answers "url" (Responses.VString "https://example.test/api"))
    (answers "status" (Responses.VOther 500))
    (answers "statusText" (Responses.VString "Internal Server Error"))
    (answers "headers" (Responses.VOther 3))
    (answers "text" (Responses.rejected (mkError "Response body is unavailable")))
    (answers "timing" (Responses.VOther 4)).

(** A Playwright [Response]: it has the first five methods and no
    [timing]. *)
Definition playwrightResponse : Responses.Response (list string) :=
  Responses.mkResponse
    (answers "url" (Responses.VString "https://example.test/api"))
    (answers "status" (Responses.VOther 200))
    (answers "statusText" (Responses.VString "OK"))
    (answers "headers" (Responses.VOther 1))
    (answers "text" (Responses.resolved (Responses.VString "<html></html>")))
    Responses.notCallable.

(** A details object of the cache, passed as the argument: its members
    are values, not functions. *)
Definition detailsObject : Responses.Response (list string) :=
  Responses.mkResponse Responses.notCallable Responses.notCallable Responses.notCallable
    Responses.notCallable Responses.notCallable Responses.notCallable.

(** The suite of B and then A: B depends on A, which comes after it. *)
Definition suiteBA : TestSuite := mkTestSuite "reversed" [caseB; caseA].

(** A [textContains] assertion that the page does not satisfy. *)
Definition containsAssertion : Assertion :=
  mkAssertion "a3" "textContains" (Some (mkSelector (Some "css") "h1")) (Some "Goodbye").

(** No attribute of the element has a value of 1000 characters or more. *)
Definition slim {Box} (el : Crawler.TestableElement Box) : Prop :=
  forall k v, Crawler.te_attributes el !! k = Some v -> String.length v < 1000.

(** A page of two handles: the element of handle 0 has a bounding box, the
    element of handle 1 has none. *)
Definition twoHandles : Crawler.Handles unit (nat * nat) :=
  Crawler.mkHandles unit (nat * nat)
    (fun _ w => (w, inr [0; 1]))
    (fun _ w => (w, inr true))
    (fun h w => (w, inr (match h with 0 => Some (10, 20) | _ => None end)))
    (fun _ w => (w, inr "Sign in")).


(** * Properties of the runner *)

Section MonadFacts.
Context {W : Type}.
Implicit Types (s : State W).

Lemma sameObject_refl s : sameObject s s.
Proof. by repeat split. Qed.

Lemma sameObject_trans s1 s2 s3 :
  sameObject s1 s2 -> sameObject s2 s3 -> sameObject s1 s3.
Proof.
  intros (?&?&?) (?&?&?). repeat split; congruence.
Qed.

Lemma keeps_ret {A} (a : A) : keeps (W:=W) (ret a).
Proof. intros s. apply sameObject_refl. Qed.

Lemma keeps_throw {A} e : keeps (W:=W) (A:=A) (throw e).
Proof. intros s. apply sameObject_refl. Qed.

Lemma keeps_liftR {A} (r : JsError + A) : keeps (W:=W) (liftR r).
Proof. intros s. apply sameObject_refl. Qed.

Lemma keeps_gets {A} (g : State W -> A) : keeps (gets g).
Proof. intros s. apply sameObject_refl. Qed.

Lemma keeps_bind {A B} (m : M (State W) A) (k : A -> M (State W) B) :
  keeps m -> (forall a, keeps (k a)) -> keeps (bind m k).
Proof.
  intros Hm Hk s. unfold bind. specialize (Hm s).
  destruct (m s) as [s1 [e|a]]; simpl in *; [done|].
  eapply sameObject_trans; [exact Hm|apply Hk].
Qed.

Lemma keeps_try_catch {A} (m : M (State W) A) h :
  keeps m -> (forall e, keeps (h e)) -> keeps (try_catch m h).
Proof.
  intros Hm Hh s. unfold try_catch. specialize (Hm s).
  destruct (m s) as [s1 [e|a]]; simpl in *; [|done].
  eapply sameObject_trans; [exact Hm|apply Hh].
Qed.

Lemma keeps_call (D : Driver W) {A} (c : Call A) : keeps (call D c).
Proof.
  intros s. unfold call. destruct (drv D c (world s)); simpl. by repeat split.
Qed.

Lemma call_trace (D : Driver W) {A} (c : Call A) s :
  trace (call D c s).1 = trace s ++ [any c].
Proof. unfold call. by destruct (drv D c (world s)). Qed.

Lemma keepsF_ret {A} (a : A) : keepsF (W:=W) (ret a).
Proof. intros f. apply sameObject_refl. Qed.

Lemma keepsF_throw {A} e : keepsF (W:=W) (A:=A) (throw e).
Proof. intros f. apply sameObject_refl. Qed.

Lemma keepsF_modRun g : keepsF (W:=W) (modRun g).
Proof. intros f. apply sameObject_refl. Qed.

Lemma keepsF_liftS {A} (m : M (State W) A) : keeps m -> keepsF (liftS m).
Proof.
  intros Hm [tr s]. unfold liftS. simpl. specialize (Hm s).
  by destruct (m s).
Qed.

Lemma keepsF_bind {A B} (m : M (@Frame W) A) (k : A -> M (@Frame W) B) :
  keepsF m -> (forall a, keepsF (k a)) -> keepsF (bind m k).
Proof.
  intros Hm Hk f. unfold bind. specialize (Hm f).
  destruct (m f) as [f1 [e|a]]; simpl in *; [done|].
  eapply sameObject_trans; [exact Hm|apply Hk].
Qed.

Lemma keepsF_try_catch {A} (m : M (@Frame W) A) h :
  keepsF m -> (forall e, keepsF (h e)) -> keepsF (try_catch m h).
Proof.
  intros Hm Hh f. unfold try_catch. specialize (Hm f).
  destruct (m f) as [f1 [e|a]]; simpl in *; [|done].
  eapply sameObject_trans; [exact Hm|apply Hh].
Qed.

Lemma keepsF_forEach {A} (body : A -> M (@Frame W) unit) xs :
  (forall x, keepsF (body x)) -> keepsF (forEach body xs).
Proof.
  intros Hb. induction xs as [|x xs IH]; simpl.
  - apply keepsF_ret.
  - apply keepsF_bind; [apply Hb|done].
Qed.

Lemma bind_inl {S A B} (m : M S A) (k : A -> M S B) (s s1 : S) e :
  m s = (s1, inl e) -> bind m k s = (s1, inl e).
Proof. intros E. unfold bind. by rewrite E. Qed.

Lemma bind_inr {S A B} (m : M S A) (k : A -> M S B) (s s1 : S) a :
  m s = (s1, inr a) -> bind m k s = k a s1.
Proof. intros E. unfold bind. by rewrite E. Qed.

Lemma try_catch_inl {S A} (m : M S A) h (s s1 : S) e :
  m s = (s1, inl e) -> try_catch m h s = h e s1.
Proof. intros E. unfold try_catch. by rewrite E. Qed.

Lemma try_catch_inr {S A} (m : M S A) h (s s1 : S) a :
  m s = (s1, inr a) -> try_catch m h s = (s1, inr a).
Proof. intros E. unfold try_catch. by rewrite E. Qed.

Lemma liftS_eq {A} (m : M (State W) A) tr (s s1 : State W) r :
  m s = (s1, r) -> liftS m (tr, s) = ((tr, s1), r).
Proof. intros E. unfold liftS. simpl. by rewrite E. Qed.
End MonadFacts.

Create HintDb keeps.

#[local] Hint Resolve keeps_ret keeps_throw keeps_liftR keeps_gets keeps_call
  keepsF_ret keepsF_throw keepsF_modRun keepsF_liftS : keeps.

(** Case analysis on the first computation of a sequence. *)
Tactic Notation "bind_case" "as" simple_intropattern(p) "eqn" ":" ident(E) :=
  match goal with
  | |- context [bind ?m ?k ?s] =>
      destruct (m s) as p eqn:E;
      [ rewrite !(bind_inl m k s _ _ E)
      | rewrite !(bind_inr m k s _ _ E); cbv beta ]
  end.

(** Splits a [keeps] goal along the structure of the computation. *)
Ltac keeps_tac :=
  repeat first
    [ progress intros
    | apply keeps_bind | apply keeps_try_catch
    | apply keepsF_bind | apply keepsF_try_catch
    | apply keepsF_forEach
    | match goal with
      | |- keeps (if ?b then _ else _) => destruct b
      | |- keepsF (if ?b then _ else _) => destruct b
      | |- keeps (match ?x with _ => _ end) => destruct x
      | |- keepsF (match ?x with _ => _ end) => destruct x
      end
    | solve [eauto with keeps] ].

Section RunTSFacts.
Context {W : Type} (D : Driver W).
Implicit Types (s : State W) (f : @Frame W).

Lemma keeps_executeStep page step : keeps (RunTS.executeStep D page step).
Proof. unfold RunTS.executeStep. keeps_tac. Qed.

Lemma keeps_executeAssertion page a : keeps (RunTS.executeAssertion D page a).
Proof. unfold RunTS.executeAssertion. keeps_tac. Qed.

Lemma keeps_captureScreenshot page : keeps (RunTS.captureScreenshot D page).
Proof. unfold RunTS.captureScreenshot. keeps_tac. Qed.

Lemma keeps_newPage : keeps (RunTS.newPage D).
Proof.
  intros s. unfold RunTS.newPage. destruct (browser s).
  - apply keeps_call.
  - apply sameObject_refl.
Qed.

Lemma keepsF_runStep page step : keepsF (RunTS.runStep D page step).
Proof.
  unfold RunTS.runStep.
  pose proof (keeps_executeStep page step).
  pose proof (keeps_captureScreenshot page).
  keeps_tac.
Qed.

Lemma keepsF_runAssertions page assertions failed :
  keepsF (RunTS.runAssertions D page assertions failed).
Proof.
  revert failed. induction assertions as [|a rest IH]; intros failed; simpl.
  - apply keepsF_ret.
  - pose proof (keeps_executeAssertion page a). keeps_tac.
Qed.

Lemma updateSuiteRunStats_some st s r :
  currentSuiteRun s = Some r ->
  updateSuiteRunStats st s = (setCurrentSuiteRun (Some (bump st r)) s, inr tt).
Proof. intros H. unfold updateSuiteRunStats. by rewrite H. Qed.

Lemma counted_bump st r :
  st = PASSED \/ st = FAILED \/ st = BLOCKED \/ st = SKIPPED ->
  counted (bump st r) = S (counted r) /\
  tsr_totalTests (bump st r) = tsr_totalTests r /\
  tsr_status (bump st r) = tsr_status r /\
  tsr_testRuns (bump st r) = tsr_testRuns r.
Proof.
  unfold counted. intros [ -> | [ -> | [ -> | -> ] ] ]; simpl; repeat split; lia.
Qed.

(** The [try] / [catch] of [runTestCase] always completes, and counts the
    case once, as passed or as failed. *)
Lemma runTestCaseBody_counts testCase tr s r :
  currentSuiteRun s = Some r ->
  exists tr' s' st,
    RunTS.runTestCaseBody D testCase (tr, s) = ((tr', s'), inr tt) /\
    (st = PASSED \/ st = FAILED) /\
    run_status tr' = st /\
    currentSuiteRun s' = Some (bump st r) /\
    browser s' = browser s /\
    testRuns s' = testRuns s.
Proof.
  intros Hr. unfold RunTS.runTestCaseBody.
  match goal with |- context [try_catch ?m ?h (tr, s)] =>
    assert (Hin : (exists f1 e, m (tr, s) = (f1, inl e) /\ sameObject s f1.2) \/
                  (exists tr1 s1 st, m (tr, s) = ((tr1, s1), inr tt) /\
                     (st = PASSED \/ st = FAILED) /\ run_status tr1 = st /\
                     currentSuiteRun s1 = Some (bump st r) /\
                     browser s1 = browser s /\ testRuns s1 = testRuns s));
    [|destruct Hin as [(f1 & e & E & Hb & Hc & Ht)|(tr1 & s1 & st & E & ?)];
      [rewrite (try_catch_inl m h _ _ _ E)|rewrite (try_catch_inr m h _ _ _ E)]]
  end.
  { pose proof (keepsF_liftS _ keeps_newPage (tr, s)) as H1.
    bind_case as [f1 [e|page]] eqn:E1; simpl in H1.
    { left. by exists f1, e. }
    pose proof (keepsF_forEach _ (tc_steps testCase) (keepsF_runStep page) f1) as H2.
    bind_case as [f2 [e|[]]] eqn:E2; simpl in H2.
    { left. exists f2, e. split; [done|]. by eapply sameObject_trans. }
    pose proof (keepsF_runAssertions page (tc_assertions testCase) false f2) as H3.
    bind_case as [f3 [e|failed]] eqn:E3; simpl in H3.
    { left. exists f3, e. split; [done|].
      eapply sameObject_trans; [|exact H3]. by eapply sameObject_trans. }
    pose proof (keepsF_liftS _ (keeps_call D (PageClose page)) f3) as H4.
    assert (H5 : sameObject s (liftS (call D (PageClose page)) f3).1.2).
    { eapply sameObject_trans; [|exact H4].
      eapply sameObject_trans; [|exact H3]. by eapply sameObject_trans. }
    clear H1 H2 H3 H4.
    bind_case as [[tr4 s4] [e|[]]] eqn:E4; simpl in H5.
    { left. by exists (tr4, s4), e. }
    right. destruct H5 as (Hb & Hc & Ht).
    unfold bind, modRun, liftS. cbn [fst snd].
    rewrite (updateSuiteRunStats_some _ s4 r) by congruence.
    eexists _, _, (if failed then FAILED else PASSED).
    split; [reflexivity|]. simpl.
    repeat split; try done. destruct failed; auto. }
  - destruct f1 as [tr1 s1]. unfold bind, modRun, liftS. cbn [fst snd] in *.
    rewrite (updateSuiteRunStats_some _ s1 r) by congruence.
    eexists _, _, FAILED. split; [reflexivity|]. simpl. repeat split; auto.
  - by exists tr1, s1, st.
Qed.

Lemma runTestCase_counts testCase s r :
  currentSuiteRun s = Some r ->
  exists s' st tr,
    RunTS.runTestCase D testCase s = (s', inr tt) /\
    (st = PASSED \/ st = FAILED) /\
    run_status tr = st /\
    currentSuiteRun s' = Some (pushTestRun tr (bump st r)) /\
    testRuns s' = <[tc_id testCase := tr]> (testRuns s) /\
    browser s' = browser s.
Proof.
  intros Hr. unfold RunTS.runTestCase.
  destruct (runTestCaseBody_counts testCase (RunTS.startedRun testCase) s r Hr)
    as (tr' & s' & st & -> & Hst & Hrun & Hc & Hb & Ht).
  unfold bind, modify, pushToSuiteRun. simpl. rewrite Hc. simpl.
  eexists _, st, tr'. split; [reflexivity|]. simpl.
  repeat split; auto. by rewrite Ht.
Qed.

Lemma recordBlockedTest_some testCase s r :
  currentSuiteRun s = Some r ->
  recordBlockedTest testCase s =
    (mkState (browser s)
       (Some (bump BLOCKED (pushTestRun (blockedRun testCase) r)))
       (<[tc_id testCase := blockedRun testCase]> (testRuns s))
       (world s) (trace s), inr tt).
Proof.
  intros Hr. unfold recordBlockedTest, bind, modify, pushToSuiteRun, updateSuiteRunStats.
  simpl. rewrite Hr. simpl. reflexivity.
Qed.

(** One turn of the loop of [runTestSuite] counts one more case. *)
Lemma runOne_counts testCase s r :
  currentSuiteRun s = Some r ->
  exists s' r',
    RunTS.runOne D testCase s = (s', inr tt) /\
    currentSuiteRun s' = Some r' /\
    counted r' = S (counted r) /\
    tsr_totalTests r' = tsr_totalTests r /\
    tsr_status r' = tsr_status r /\
    browser s' = browser s.
Proof.
  intros Hr. unfold RunTS.runOne, bind.
  assert (Hcan : exists b, canRunTest testCase s = (s, inr b)).
  { unfold canRunTest. destruct (tc_dependsOn testCase) as [[|]|]; eauto. }
  destruct Hcan as [[] ->].
  - destruct (runTestCase_counts testCase s r Hr)
      as (s' & st & tr & -> & Hst & _ & Hc & _ & Hb).
    eexists s', _. split; [done|]. split; [exact Hc|].
    destruct (counted_bump st r) as (? & ? & ? & ?); [tauto|].
    unfold counted in *. simpl. repeat split; auto.
  - rewrite (recordBlockedTest_some _ _ r Hr).
    eexists _, _. split; [done|]. simpl. split; [done|].
    unfold counted. simpl. repeat split; lia.
Qed.

Lemma forEach_runOne_counts cases s r :
  currentSuiteRun s = Some r ->
  exists s' r',
    forEach (RunTS.runOne D) cases s = (s', inr tt) /\
    currentSuiteRun s' = Some r' /\
    counted r' = counted r + length cases /\
    tsr_totalTests r' = tsr_totalTests r /\
    tsr_status r' = tsr_status r /\
    browser s' = browser s.
Proof.
  revert s r. induction cases as [|tc cases IH]; intros s r Hr; simpl.
  - exists s, r. repeat split; auto.
  - destruct (runOne_counts tc s r Hr) as (s1 & r1 & E1 & Hr1 & Hc1 & Ht1 & Hs1 & Hb1).
    destruct (IH s1 r1 Hr1) as (s2 & r2 & E2 & Hr2 & Hc2 & Ht2 & Hs2 & Hb2).
    exists s2, r2. unfold bind. rewrite E1, E2.
    repeat split; auto; try congruence. lia.
Qed.
End RunTSFacts.

Section RunTSClaims.
Context {W : Type} (D : Driver W).
Implicit Types (s : State W) (f : @Frame W).

Lemma depsPassed_spec (runs : gmap string TestRun) (deps : list string) :
  depsPassed runs deps = true <->
  forall d, d ∈ deps -> exists r, runs !! d = Some r /\ run_status r = PASSED.
Proof.
  induction deps as [|d deps IH]; simpl.
  - split; [|done]. intros _ d Hd. by apply not_elem_of_nil in Hd.
  - destruct (runs !! d) as [r|] eqn:E.
    + destruct (decide (run_status r = PASSED)) as [Hp|Hp].
      * rewrite IH. split.
        -- intros H d' [->|Hd']%elem_of_cons; eauto.
        -- intros H d' Hd'. apply H. by right.
      * split; [done|]. intros H.
        destruct (H d) as (r' & Hr' & Hs); [by left|]. congruence.
    + split; [done|]. intros H.
      destruct (H d) as (r' & Hr' & Hs); [by left|]. congruence.
Qed.

Lemma canRunTest_spec testCase s :
  exists eligible,
    canRunTest testCase s = (s, inr eligible) /\
    (eligible = true <-> dependenciesPassed testCase s).
Proof.
  unfold canRunTest, dependenciesPassed.
  destruct (tc_dependsOn testCase) as [[|d deps]|]; simpl.
  - exists true. split; [done|]. split; [|done].
    intros _ d Hd. by apply not_elem_of_nil in Hd.
  - eexists. split; [reflexivity|]. apply (depsPassed_spec _ (d :: deps)).
  - exists true. split; [done|]. split; [|done].
    intros _ d Hd. by apply not_elem_of_nil in Hd.
Qed.

Lemma ensureBrowser_current s :
  currentSuiteRun (RunTS.ensureBrowser D s).1 = currentSuiteRun s.
Proof.
  unfold RunTS.ensureBrowser. destruct (browser s); [done|].
  unfold RunTS.initialize, try_catch, bind, call, modify, throw.
  destruct (drv D Launch (world s)) as [w [e|b]]; reflexivity.
Qed.

(** What [runTestSuite] does, by whether the browser is there. *)
Lemma runTestSuite_spec testSuite s :
  let n := length (suite_testCases testSuite) in
  let fresh := freshSuiteRun testSuite in
  let s0 := setCurrentSuiteRun (Some fresh) s in
  match RunTS.ensureBrowser D s0 with
  | (s1, inl e) =>
      RunTS.runTestSuite D testSuite s =
        (setCurrentSuiteRun (Some (setSuiteStatus (derivedStatus fresh) fresh)) s1, inl e)
  | (s1, inr _) =>
      exists s2 r2,
        forEach (RunTS.runOne D) (suite_testCases testSuite) s1 = (s2, inr tt) /\
        currentSuiteRun s2 = Some r2 /\
        counted r2 = n /\ tsr_totalTests r2 = n /\
        RunTS.runTestSuite D testSuite s =
          (setCurrentSuiteRun (Some (setSuiteStatus (derivedStatus r2) r2)) s2,
           inr (setSuiteStatus (derivedStatus r2) r2))
  end.
Proof.
  intros n fresh s0.
  pose proof (ensureBrowser_current s0) as Hcur.
  unfold RunTS.runTestSuite.
  rewrite (bind_inr (modify _) _ s s0 tt) by reflexivity.
  destruct (RunTS.ensureBrowser D s0) as [s1 [e|[]]] eqn:E0; simpl in Hcur.
  - unfold bind at 1. unfold try_finally.
    rewrite (bind_inl _ _ s0 s1 e E0).
    unfold finishSuiteRun, determineTestSuiteStatus. rewrite Hcur. reflexivity.
  - destruct (forEach_runOne_counts D (suite_testCases testSuite) s1 fresh Hcur)
      as (s2 & r2 & E2 & Hr2 & Hc2 & Ht2 & _ & _).
    exists s2, r2. split; [done|]. split; [done|].
    split; [rewrite Hc2; reflexivity|]. split; [rewrite Ht2; reflexivity|].
    unfold bind at 1. unfold try_finally.
    rewrite (bind_inr _ _ s0 s1 tt E0). rewrite E2.
    unfold finishSuiteRun, determineTestSuiteStatus. rewrite Hr2. reflexivity.
Qed.

(** C1.  Whatever the suite, the driver and the state of the crawler, the
    suite run that [runTestSuite] leaves behind (and returns, when it
    returns) has the status derived from its counters: FAILED if
    [failedTests > 0], else PASSED if [passedTests = totalTests], else
    BLOCKED if [blockedTests > 0], else FAILED.  A PASSED suite run has
    [passedTests = totalTests] and [failedTests = 0]. *)
Theorem suite_status_derivation (testSuite : TestSuite) (s : State W) :
  exists r,
    currentSuiteRun (RunTS.runTestSuite D testSuite s).1 = Some r /\
    determineTestSuiteStatus (RunTS.runTestSuite D testSuite s).1 = tsr_status r /\
    tsr_status r =
      (if (0 <? tsr_failedTests r)%nat then FAILED
       else if (tsr_passedTests r =? tsr_totalTests r)%nat then PASSED
       else if (0 <? tsr_blockedTests r)%nat then BLOCKED
       else FAILED) /\
    (tsr_status r = PASSED ->
       tsr_passedTests r = tsr_totalTests r /\ tsr_failedTests r = 0) /\
    (forall r', (RunTS.runTestSuite D testSuite s).2 = inr r' -> r' = r).
Proof.
  assert (Hd : forall r0 : TestSuiteRun,
             let r := setSuiteStatus (derivedStatus r0) r0 in
             tsr_status r =
               (if (0 <? tsr_failedTests r)%nat then FAILED
                else if (tsr_passedTests r =? tsr_totalTests r)%nat then PASSED
                else if (0 <? tsr_blockedTests r)%nat then BLOCKED
                else FAILED) /\
             (tsr_status r = PASSED ->
                tsr_passedTests r = tsr_totalTests r /\ tsr_failedTests r = 0)).
  { intros r0. simpl. unfold derivedStatus. split; [done|].
    destruct (0 <? tsr_failedTests r0)%nat eqn:Ef; [done|].
    destruct (tsr_passedTests r0 =? tsr_totalTests r0)%nat eqn:Ep.
    - intros _. apply Nat.eqb_eq in Ep. apply Nat.ltb_ge in Ef. lia.
    - by destruct (0 <? tsr_blockedTests r0)%nat. }
  pose proof (runTestSuite_spec testSuite s) as H. simpl in H.
  destruct (RunTS.ensureBrowser D _) as [s1 [e|[]]].
  - rewrite H. simpl. eexists. split; [reflexivity|].
    destruct (Hd (freshSuiteRun testSuite)) as [H1 H2].
    split; [|split; [exact H1|split; [exact H2|done]]].
    unfold determineTestSuiteStatus. simpl. symmetry. exact H1.
  - destruct H as (s2 & r2 & _ & _ & _ & _ & ->). simpl.
    eexists. split; [reflexivity|].
    destruct (Hd r2) as [H1 H2].
    split; [|split; [exact H1|split; [exact H2|congruence]]].
    unfold determineTestSuiteStatus. simpl. symmetry. exact H1.
Qed.
Lemma terminal_derivedStatus r : terminal (derivedStatus r) = true.
Proof.
  unfold derivedStatus.
  destruct (0 <? tsr_failedTests r)%nat; [done|].
  destruct (tsr_passedTests r =? tsr_totalTests r)%nat; [done|].
  by destruct (0 <? tsr_blockedTests r)%nat.
Qed.

(** C4, as the code has it.  [totalTests] is the number of cases of the
    suite.  After each turn of the loop over the cases the four counters
    add up to the number of cases handled so far, hence to at most
    [totalTests]; every suite run that [runTestSuite] returns has a
    terminal status and counters that add up to [totalTests], and
    [runTestSuite] returns whenever the browser is there or can be
    launched.  When the browser cannot be launched the run is still given
    a terminal status, with no case counted, and the error is rethrown. *)
Theorem suite_counters (testSuite : TestSuite) (s : State W) :
  let cases := suite_testCases testSuite in
  let s0 := setCurrentSuiteRun (Some (freshSuiteRun testSuite)) s in
  (forall k, k <= length cases ->
     exists sk rk,
       forEach (RunTS.runOne D) (take k cases) (RunTS.ensureBrowser D s0).1
         = (sk, inr tt) /\
       currentSuiteRun sk = Some rk /\
       tsr_totalTests rk = length cases /\
       counted rk = k /\ counted rk <= tsr_totalTests rk) /\
  (forall s' r, RunTS.runTestSuite D testSuite s = (s', inr r) ->
     currentSuiteRun s' = Some r /\
     terminal (tsr_status r) = true /\
     tsr_totalTests r = length cases /\
     counted r = tsr_totalTests r) /\
  (forall s1, RunTS.ensureBrowser D s0 = (s1, inr tt) ->
     exists s' r, RunTS.runTestSuite D testSuite s = (s', inr r)) /\
  (forall s1 e, RunTS.ensureBrowser D s0 = (s1, inl e) ->
     exists s' r,
       RunTS.runTestSuite D testSuite s = (s', inl e) /\
       currentSuiteRun s' = Some r /\
       terminal (tsr_status r) = true /\
       tsr_totalTests r = length cases /\
       counted r = 0).
Proof.
  intros cases s0.
  pose proof (runTestSuite_spec testSuite s) as H. simpl in H. fold s0 in H.
  pose proof (ensureBrowser_current s0) as Hcur.
  split; [|split; [|split]].
  - intros k Hk.
    destruct (forEach_runOne_counts D (take k cases) _ _ Hcur)
      as (sk & rk & E & Hr & Hc & Ht & _ & _).
    exists sk, rk. rewrite length_take in Hc.
    unfold counted in *. simpl in *.
    repeat split; auto; try lia. rewrite Ht. simpl. fold cases. lia.
  - intros s' r E. destruct (RunTS.ensureBrowser D s0) as [s1 [e|[]]].
    + rewrite H in E. discriminate.
    + destruct H as (s2 & r2 & _ & _ & Hc & Ht & E2).
      rewrite E2 in E. injection E as <- <-. simpl.
      split; [done|]. split; [apply terminal_derivedStatus|].
      unfold counted in *. simpl. split; [done|]. lia.
  - intros s1 E. rewrite E in H.
    destruct H as (s2 & r2 & _ & _ & _ & _ & ->). eauto.
  - intros s1 e E. rewrite E in H. rewrite H.
    eexists _, _. split; [reflexivity|]. simpl. split; [reflexivity|].
    split; [apply terminal_derivedStatus|]. done.
Qed.

(** C2.  A case is eligible exactly when every id of its [dependsOn] has a
    recorded run with status PASSED (no or empty [dependsOn]: always).  An
    eligible case goes to [runTestCase]; an ineligible one only to
    [recordBlockedTest]: its run is recorded BLOCKED with empty step and
    assertion logs and the fixed message, is appended to the suite run and
    counted as blocked, while the world and the trace of driver calls stay
    as they were (no page opened, no step or assertion executed).  The
    record is created BLOCKED: [runTestCase], which alone creates RUNNING
    records, is not entered. *)
Theorem dependency_gate (testCase : TestCase) (s : State W) :
  (exists eligible,
     canRunTest testCase s = (s, inr eligible) /\
     (eligible = true <-> dependenciesPassed testCase s)) /\
  (dependenciesPassed testCase s ->
     RunTS.runOne D testCase s = RunTS.runTestCase D testCase s) /\
  (~ dependenciesPassed testCase s ->
     RunTS.runOne D testCase s = recordBlockedTest testCase s /\
     forall r, currentSuiteRun s = Some r ->
       exists s' r' t,
         RunTS.runOne D testCase s = (s', inr tt) /\
         testRuns s' !! tc_id testCase = Some t /\
         run_status t = BLOCKED /\
         logs_steps (run_logs t) = [] /\
         logs_assertions (run_logs t) = [] /\
         logs_message (run_logs t) = Some "Test blocked due to failed dependencies" /\
         currentSuiteRun s' = Some r' /\
         tsr_testRuns r' = tsr_testRuns r ++ [t] /\
         tsr_blockedTests r' = S (tsr_blockedTests r) /\
         world s' = world s /\
         trace s' = trace s).
Proof.
  destruct (canRunTest_spec testCase s) as (eligible & E & Hiff).
  split; [by exists eligible|]. split.
  - intros Hp. apply Hiff in Hp as ->.
    unfold RunTS.runOne. by rewrite (bind_inr _ _ _ _ _ E).
  - intros Hn. assert (eligible = false) as ->.
    { destruct eligible; [|done]. exfalso. apply Hn. by apply Hiff. }
    assert (Hone : RunTS.runOne D testCase s = recordBlockedTest testCase s).
    { unfold RunTS.runOne. by rewrite (bind_inr _ _ _ _ _ E). }
    split; [exact Hone|]. intros r Hr.
    rewrite Hone, (recordBlockedTest_some _ _ r Hr).
    eexists _, _, _. split; [reflexivity|]. simpl.
    rewrite lookup_insert_eq. repeat split; reflexivity.
Qed.

(** Assertions that return at once and leave the state alone are logged
    as passed, one entry each, and the loop goes on with the flag
    [assertionsFailed] as it was. *)
Lemma runAssertions_unchecked (page : Page) (unchecked rest : list Assertion)
    (failed : bool) (tr : TestRun) (s : State W) :
  (forall a, a ∈ unchecked -> RunTS.executeAssertion D page a s = (s, inr tt)) ->
  exists tr',
    RunTS.runAssertions D page (unchecked ++ rest) failed (tr, s) =
      RunTS.runAssertions D page rest failed (tr', s) /\
    logs_assertions (run_logs tr') =
      logs_assertions (run_logs tr) ++
      map (fun a => mkAssertionLog (assertion_id a) true None) unchecked /\
    sameButAssertionLog tr tr'.
Proof.
  revert tr. induction unchecked as [|a unchecked IH]; intros tr Hall.
  - exists tr. cbn [app map]. rewrite app_nil_r. by repeat split.
  - destruct (IH (pushAssertionLog (RunTS.assertionPassed a) tr))
      as (tr' & Hrun & Hlog & Hsame).
    { intros a' Ha'. apply Hall. by right. }
    exists tr'. split; [|split].
    + cbn [app RunTS.runAssertions].
      rewrite (bind_inr _ _ (tr, s)
                 (pushAssertionLog (RunTS.assertionPassed a) tr, s) failed).
      2:{ apply try_catch_inr.
          assert (E : RunTS.executeAssertion D page a s = (s, inr tt))
            by (apply Hall; by left).
          by rewrite (bind_inr _ _ (tr, s) (tr, s) tt (liftS_eq _ _ _ _ _ E)). }
      exact Hrun.
    + rewrite Hlog. cbn [pushAssertionLog run_logs logs_assertions map].
      by rewrite <- app_assoc.
    + exact Hsame.
Qed.

(** C10.  In this revision an assertion without a selector is not checked:
    [executeAssertion] returns at once, with no driver call, whatever the
    assertion type and the expected value.  The loop of [runTestCase]
    adds one entry to [logs.assertions] for each such assertion, with its
    id and [success: true], changes nothing else of the test run, and
    leaves [assertionsFailed] as it was.  A [urlEquals] assertion succeeds
    with or without a selector, so it can never fail. *)
Theorem selectorless_assertion_passes (page : Page) (unchecked rest : list Assertion)
    (failed : bool) (tr : TestRun) (s : State W) :
  Forall (fun a => assertion_selector a = None) unchecked ->
  (forall a, a ∈ unchecked -> RunTS.executeAssertion D page a s = (s, inr tt)) /\
  (exists tr',
     RunTS.runAssertions D page (unchecked ++ rest) failed (tr, s) =
       RunTS.runAssertions D page rest failed (tr', s) /\
     logs_assertions (run_logs tr') =
       logs_assertions (run_logs tr) ++
       map (fun a => mkAssertionLog (assertion_id a) true None) unchecked /\
     sameButAssertionLog tr tr') /\
  (exists tr',
     RunTS.runAssertions D page unchecked failed (tr, s) = ((tr', s), inr failed) /\
     logs_assertions (run_logs tr') =
       logs_assertions (run_logs tr) ++
       map (fun a => mkAssertionLog (assertion_id a) true None) unchecked /\
     sameButAssertionLog tr tr') /\
  (forall u : Assertion, assertion_type u = "urlEquals" ->
     RunTS.executeAssertion D page u s = (s, inr tt)).
Proof.
  intros Hsel.
  assert (H1 : forall a, a ∈ unchecked ->
                 RunTS.executeAssertion D page a s = (s, inr tt)).
  { intros a Ha. rewrite Forall_forall in Hsel.
    unfold RunTS.executeAssertion. by rewrite (Hsel a Ha). }
  split; [exact H1|]. split; [|split].
  - by apply runAssertions_unchecked.
  - destruct (runAssertions_unchecked page unchecked [] failed tr s H1)
      as (tr' & Hrun & Hlog & Hsame).
    rewrite app_nil_r in Hrun. by exists tr'.
  - intros u Hu. unfold RunTS.executeAssertion.
    destruct (assertion_selector u) as [sel|]; [|done].
    rewrite Hu. reflexivity.
Qed.
End RunTSClaims.

(** C4 as stated fails: when the browser cannot be launched, the suite run
    of a one-case suite ends FAILED (a terminal status) with
    [totalTests = 1] and no case counted. *)
Lemma launch_failure_counts_nothing :
  (RunTS.runTestSuite noBrowser suiteA newCrawler).2 = inl (mkError "driver failure") /\
  exists r,
    currentSuiteRun (RunTS.runTestSuite noBrowser suiteA newCrawler).1 = Some r /\
    tsr_status r = FAILED /\ terminal (tsr_status r) = true /\
    tsr_totalTests r = 1 /\ counted r = 0 /\
    counted r <> tsr_totalTests r.
Proof. split; [reflexivity|]. eexists. split; [reflexivity|]. by repeat split. Qed.

(** On a healthy browser the suite of cases A and B (B depends on A) is
    returned with both cases counted. *)
Lemma suite_counters_witness :
  exists s' r,
    RunTS.runTestSuite healthy suiteAB newCrawler = (s', inr r) /\
    tsr_totalTests r = 2 /\ counted r = 2 /\ tsr_status r = PASSED.
Proof.
  destruct (suite_counters healthy suiteAB newCrawler) as (_ & Hret & Hok & _).
  destruct (Hok (setBrowser (Some 1)
                   (mkState None (Some (freshSuiteRun suiteAB)) ∅ tt [any Launch])))
    as (s' & r & E); [reflexivity|].
  exists s', r. split; [exact E|].
  destruct (Hret s' r E) as (_ & _ & Ht & Hc).
  split; [exact Ht|]. split; [by rewrite Hc|].
  revert E. vm_compute. intros E. by injection E as <- <-.
Defined.

(** Case B depends on A, which has no recorded run: B is only recorded as
    blocked, and no call is made. *)
Lemma dependency_gate_witness :
  RunTS.runOne healthy caseB midRun = recordBlockedTest caseB midRun /\
  trace (RunTS.runOne healthy caseB midRun).1 = [].
Proof.
  destruct (dependency_gate healthy caseB midRun) as (_ & _ & Hb).
  destruct Hb as [Hone Hrec].
  - intros Hp. destruct (Hp "A") as (r & Hr & _); [by left|]. discriminate.
  - split; [exact Hone|].
    destruct (Hrec _ eq_refl) as (s' & r' & t & E & _ & _ & _ & _ & _ & _ & _ & _ & _ & Ht).
    rewrite E. exact Ht.
Defined.

(** A [urlEquals] assertion without selector, expecting another URL than
    the page has, is logged as passed. *)
Lemma selectorless_assertion_passes_witness :
  RunTS.executeAssertion healthy 7 urlAssertion midRun = (midRun, inr tt) /\
  exists tr',
    RunTS.runAssertions healthy 7 [urlAssertion] false (RunTS.startedRun caseB, midRun) =
      ((tr', midRun), inr false) /\
    logs_assertions (run_logs tr') = [mkAssertionLog "a1" true None].
Proof.
  destruct (selectorless_assertion_passes healthy 7 [urlAssertion] [] false
              (RunTS.startedRun caseB) midRun)
    as (Hexec & _ & (tr' & E & Hlog & _) & _).
  - by repeat constructor.
  - split; [apply Hexec; by left|].
    exists tr'. split; [exact E|exact Hlog].
Defined.

Section TestCaseRunner.
Context {W : Type} (D : Driver W).
Implicit Types (s : State W) (tr : TestRun).

Lemma addStepLogs_nil tr : addStepLogs [] tr = tr.
Proof. destruct tr as [? ? ? ? []]. unfold addStepLogs. simpl. by rewrite app_nil_r. Qed.

Lemma addStepLogs_cons e es tr :
  addStepLogs (e :: es) tr = addStepLogs es (pushStepLog e tr).
Proof. unfold addStepLogs, pushStepLog. simpl. by rewrite <- app_assoc. Qed.

Lemma addAssertionLogs_nil tr : addAssertionLogs [] tr = tr.
Proof. destruct tr as [? ? ? ? []]. unfold addAssertionLogs. simpl. by rewrite app_nil_r. Qed.

Lemma addAssertionLogs_cons e es tr :
  addAssertionLogs (e :: es) tr = addAssertionLogs es (pushAssertionLog e tr).
Proof. unfold addAssertionLogs, pushAssertionLog. simpl. by rewrite <- app_assoc. Qed.

(** One turn of the loop over the steps. *)
Lemma runStep_passed page step tr s s1 :
  RunTS.executeStep D page step s = (s1, inr tt) ->
  RunTS.runStep D page step (tr, s) =
    ((pushStepLog (RunTS.stepPassed step) tr, s1), inr tt).
Proof.
  intros E. unfold RunTS.runStep.
  apply try_catch_inr.
  by rewrite (bind_inr _ _ (tr, s) (tr, s1) tt (liftS_eq _ _ _ _ _ E)).
Qed.

Lemma runStep_failed page step tr s s1 e s2 shot :
  RunTS.executeStep D page step s = (s1, inl e) ->
  RunTS.captureScreenshot D page s1 = (s2, inr shot) ->
  RunTS.runStep D page step (tr, s) =
    ((pushStepLog (RunTS.stepFailed step e) (setScreenshot (Some shot) tr), s2), inl e).
Proof.
  intros E Es. unfold RunTS.runStep.
  rewrite (try_catch_inl _ _ (tr, s) (tr, s1) e)
    by (by rewrite (bind_inl _ _ (tr, s) (tr, s1) e (liftS_eq _ _ _ _ _ E))).
  by rewrite (bind_inr _ _ (tr, s1) (tr, s2) shot (liftS_eq _ _ _ _ _ Es)).
Qed.

Lemma runStep_failed_unseen page step tr s s1 e s2 e' :
  RunTS.executeStep D page step s = (s1, inl e) ->
  RunTS.captureScreenshot D page s1 = (s2, inl e') ->
  RunTS.runStep D page step (tr, s) = ((tr, s2), inl e').
Proof.
  intros E Es. unfold RunTS.runStep.
  rewrite (try_catch_inl _ _ (tr, s) (tr, s1) e)
    by (by rewrite (bind_inl _ _ (tr, s) (tr, s1) e (liftS_eq _ _ _ _ _ E))).
  by rewrite (bind_inl _ _ (tr, s1) (tr, s2) e' (liftS_eq _ _ _ _ _ Es)).
Qed.

(** The loop over the steps: either all of them ran, or it stopped at the
    first one that failed, after asking for a screenshot. *)
Lemma runSteps_spec page steps tr s :
  (exists s',
     InOrder (RunTS.executeStep D page) steps s s' /\
     forEach (RunTS.runStep D page) steps (tr, s) =
       ((addStepLogs (map RunTS.stepPassed steps) tr, s'), inr tt)) \/
  (exists done step rest sa sb e sc r,
     steps = done ++ step :: rest /\
     InOrder (RunTS.executeStep D page) done s sa /\
     RunTS.executeStep D page step sa = (sb, inl e) /\
     RunTS.captureScreenshot D page sb = (sc, r) /\
     forEach (RunTS.runStep D page) steps (tr, s) =
       match r with
       | inr shot =>
           ((pushStepLog (RunTS.stepFailed step e)
               (setScreenshot (Some shot)
                  (addStepLogs (map RunTS.stepPassed done) tr)), sc), inl e)
       | inl e' => ((addStepLogs (map RunTS.stepPassed done) tr, sc), inl e')
       end).
Proof.
  revert tr s. induction steps as [|step steps IH]; intros tr s.
  - left. exists s. split; [constructor|]. simpl. by rewrite addStepLogs_nil.
  - destruct (RunTS.executeStep D page step s) as [s1 [e|[]]] eqn:E.
    + right.
      destruct (RunTS.captureScreenshot D page s1) as [sc r] eqn:Es.
      exists [], step, steps, s, s1, e, sc, r.
      split; [done|]. split; [constructor|]. split; [done|]. split; [done|].
      simpl. rewrite addStepLogs_nil. destruct r as [e'|shot].
      * erewrite bind_inl; [reflexivity|]. by eapply runStep_failed_unseen.
      * erewrite bind_inl; [reflexivity|]. by eapply runStep_failed.
    + simpl. erewrite bind_inr; [|by eapply runStep_passed].
      destruct (IH (pushStepLog (RunTS.stepPassed step) tr) s1)
        as [(s' & Hin & ->)|(done & st & rest & sa & sb & e & sc & r & -> & Hin & Ef & Es & ->)].
      * left. exists s'. split; [by econstructor|].
        by rewrite addStepLogs_cons.
      * right. exists (step :: done), st, rest, sa, sb, e, sc, r.
        split; [done|]. split; [by econstructor|]. split; [done|]. split; [done|].
        simpl. by rewrite addStepLogs_cons.
Qed.

Lemma Evaluated_length {X} (exec : X -> M (State W) unit) xs s s' outs :
  Evaluated exec xs s s' outs -> length outs = length xs.
Proof. induction 1; simpl; auto. Qed.

(** The loop over the assertions evaluates every one of them. *)
Lemma runAssertions_spec page assertions failed tr s :
  exists s' outs,
    Evaluated (RunTS.executeAssertion D page) assertions s s' outs /\
    RunTS.runAssertions D page assertions failed (tr, s) =
      ((addAssertionLogs (zip_with assertionEntry assertions outs) tr, s'),
       inr (failed || anyThrown outs)).
Proof.
  revert failed tr s. induction assertions as [|a rest IH]; intros failed tr s.
  - exists s, []. split; [constructor|]. simpl.
    by rewrite addAssertionLogs_nil, orb_false_r.
  - destruct (RunTS.executeAssertion D page a s) as [s1 [e|[]]] eqn:E.
    + destruct (IH true (pushAssertionLog (RunTS.assertionFailed a e) tr) s1)
        as (s' & outs & Hev & Hrun).
      exists s', (thrown (inl e : JsError + unit) :: outs).
      split; [by econstructor|].
      simpl.
      rewrite (bind_inr _ _ (tr, s)
                 (pushAssertionLog (RunTS.assertionFailed a e) tr, s1) true).
      2:{ rewrite (try_catch_inl _ _ (tr, s) (tr, s1) e); [reflexivity|].
          by rewrite (bind_inl _ _ (tr, s) (tr, s1) e (liftS_eq _ _ _ _ _ E)). }
      rewrite Hrun, addAssertionLogs_cons. simpl. by rewrite orb_true_r.
    + destruct (IH failed (pushAssertionLog (RunTS.assertionPassed a) tr) s1)
        as (s' & outs & Hev & Hrun).
      exists s', (thrown (inr tt : JsError + unit) :: outs).
      split; [by econstructor|].
      simpl.
      rewrite (bind_inr _ _ (tr, s)
                 (pushAssertionLog (RunTS.assertionPassed a) tr, s1) failed).
      2:{ apply try_catch_inr.
          by rewrite (bind_inr _ _ (tr, s) (tr, s1) tt (liftS_eq _ _ _ _ _ E)). }
      by rewrite Hrun, addAssertionLogs_cons.
Qed.

Lemma keeps_InOrder {X} (exec : X -> M (State W) unit) xs s s' :
  (forall x, keeps (exec x)) -> InOrder exec xs s s' -> sameObject s s'.
Proof.
  intros Hk. induction 1 as [|x rest s s1 s2 E _ IH].
  - apply sameObject_refl.
  - eapply sameObject_trans; [|exact IH].
    specialize (Hk x s). by rewrite E in Hk.
Qed.

Lemma keeps_Evaluated {X} (exec : X -> M (State W) unit) xs s s' outs :
  (forall x, keeps (exec x)) -> Evaluated exec xs s s' outs -> sameObject s s'.
Proof.
  intros Hk. induction 1 as [|x rest s s1 r s2 outs E _ IH].
  - apply sameObject_refl.
  - eapply sameObject_trans; [|exact IH].
    specialize (Hk x s). by rewrite E in Hk.
Qed.
Lemma captureScreenshot_trace page s s' r :
  RunTS.captureScreenshot D page s = (s', r) ->
  trace s' = trace s ++ [any (Screenshot page)].
Proof.
  unfold RunTS.captureScreenshot, bind, ret. intros E.
  pose proof (call_trace D (Screenshot page) s) as Ht.
  destruct (call D (Screenshot page) s) as [s2 [e|shot]];
    injection E as <- _; exact Ht.
Qed.

(** How the [catch] of [runTestCase] turns a failure of the [try] block
    into a FAILED run. *)
Lemma catch_block tr s r e :
  currentSuiteRun s = Some r ->
  (run modRun (setStatus FAILED);
   run modRun (setErrorMessage (Some (err_message e)));
   liftS (updateSuiteRunStats FAILED)) (tr, s) =
  ((setErrorMessage (Some (err_message e)) (setStatus FAILED tr),
    setCurrentSuiteRun (Some (bump FAILED r)) s), inr tt).
Proof.
  intros Hr. unfold bind, modRun, liftS. cbn [fst snd].
  by rewrite (updateSuiteRunStats_some _ s r Hr).
Qed.

Lemma runTestCase_from_body testCase s tr' s' r' :
  RunTS.runTestCaseBody D testCase (RunTS.startedRun testCase, s) = ((tr', s'), inr tt) ->
  currentSuiteRun s' = Some r' ->
  RunTS.runTestCase D testCase s =
    (mkState (browser s') (Some (pushTestRun tr' r'))
       (<[tc_id testCase := tr']> (testRuns s')) (world s') (trace s'), inr tt).
Proof.
  intros E Hr. unfold RunTS.runTestCase. rewrite E.
  unfold bind, modify, pushToSuiteRun. simpl. by rewrite Hr.
Qed.

(** The protocol of [runTestCase] once the page of the case is open:
    either some step is the first to fail, or all steps and then all
    assertions run. *)
Lemma runTestCase_page_open (testCase : TestCase) (s s1 : State W)
    (r : TestSuiteRun) (b : Browser) (page : Page) :
  currentSuiteRun s = Some r ->
  browser s = Some b ->
  call D (NewPage b) s = (s1, inr page) ->
  (exists done step rest sa sb e sc shot s' t,
     tc_steps testCase = done ++ step :: rest /\
     InOrder (RunTS.executeStep D page) done s1 sa /\
     RunTS.executeStep D page step sa = (sb, inl e) /\
     RunTS.captureScreenshot D page sb = (sc, shot) /\
     RunTS.runTestCase D testCase s = (s', inr tt) /\
     testRuns s' !! tc_id testCase = Some t /\
     run_status t = FAILED /\
     logs_assertions (run_logs t) = [] /\
     world s' = world sc /\
     trace s' = trace sb ++ [any (Screenshot page)] /\
     match shot with
     | inr data =>
         run_screenshot t = Some data /\
         logs_steps (run_logs t) =
           map RunTS.stepPassed done ++ [RunTS.stepFailed step e] /\
         run_errorMessage t = Some (err_message e)
     | inl e' =>
         run_screenshot t = None /\
         logs_steps (run_logs t) = map RunTS.stepPassed done /\
         run_errorMessage t = Some (err_message e')
     end) \/
  (exists sa sb outs sc closed s' t,
     InOrder (RunTS.executeStep D page) (tc_steps testCase) s1 sa /\
     Evaluated (RunTS.executeAssertion D page) (tc_assertions testCase) sa sb outs /\
     length outs = length (tc_assertions testCase) /\
     call D (PageClose page) sb = (sc, closed) /\
     RunTS.runTestCase D testCase s = (s', inr tt) /\
     testRuns s' !! tc_id testCase = Some t /\
     logs_steps (run_logs t) = map RunTS.stepPassed (tc_steps testCase) /\
     logs_assertions (run_logs t) =
       zip_with assertionEntry (tc_assertions testCase) outs /\
     run_screenshot t = None /\
     match closed with
     | inr _ =>
         run_status t = (if anyThrown outs then FAILED else PASSED) /\
         run_errorMessage t = None
     | inl e =>
         run_status t = FAILED /\ run_errorMessage t = Some (err_message e)
     end).
Proof.
  intros Hr Hb Hpage.
  assert (Hnew : liftS (RunTS.newPage D) (RunTS.startedRun testCase, s)
                 = ((RunTS.startedRun testCase, s1), inr page)).
  { apply liftS_eq. unfold RunTS.newPage. by rewrite Hb. }
  assert (H1 : sameObject s s1).
  { pose proof (keeps_call D (NewPage b) s) as H. by rewrite Hpage in H. }
  destruct (runSteps_spec page (tc_steps testCase) (RunTS.startedRun testCase) s1)
    as [(sa & Hin & Esteps)
       |(done & step & rest & sa & sb & e & sc & shot & Hsplit & Hin & Ef & Es & Esteps)].
  - right.
    destruct (runAssertions_spec page (tc_assertions testCase) false
                (addStepLogs (map RunTS.stepPassed (tc_steps testCase))
                   (RunTS.startedRun testCase)) sa)
      as (sb & outs & Hev & Eas).
    destruct (call D (PageClose page) sb) as [sc closed] eqn:Ec.
    assert (H2 : sameObject s sc).
    { eapply sameObject_trans; [exact H1|].
      eapply sameObject_trans; [eapply keeps_InOrder, Hin; apply keeps_executeStep|].
      eapply sameObject_trans;
        [eapply keeps_Evaluated, Hev; apply keeps_executeAssertion|].
      pose proof (keeps_call D (PageClose page) sb) as H. by rewrite Ec in H. }
    destruct H2 as (_ & Hc & _). rewrite Hr in Hc.
    match type of Eas with _ = ((?t, _), _) => set (tr3 := t) in * end.
    assert (Ebody : exists tr',
      RunTS.runTestCaseBody D testCase (RunTS.startedRun testCase, s)
        = ((tr', setCurrentSuiteRun
                   (Some (bump (run_status tr') r)) sc), inr tt) /\
      logs_steps (run_logs tr') = map RunTS.stepPassed (tc_steps testCase) /\
      logs_assertions (run_logs tr') =
        zip_with assertionEntry (tc_assertions testCase) outs /\
      run_screenshot tr' = None /\
      match closed with
      | inr _ =>
          run_status tr' = (if anyThrown outs then FAILED else PASSED) /\
          run_errorMessage tr' = None
      | inl e =>
          run_status tr' = FAILED /\ run_errorMessage tr' = Some (err_message e)
      end).
    { unfold RunTS.runTestCaseBody. destruct closed as [e|[]].
      - exists (setErrorMessage (Some (err_message e)) (setStatus FAILED tr3)).
        split; [|by simpl].
        rewrite (try_catch_inl _ _ _ (tr3, sc) e).
        + by apply catch_block.
        + rewrite (bind_inr _ _ _ _ _ Hnew). cbv beta.
          rewrite (bind_inr _ _ _ _ _ Esteps). cbv beta.
          rewrite (bind_inr _ _ _ _ _ Eas). cbv beta.
          by rewrite (bind_inl _ _ _ _ _ (liftS_eq _ tr3 _ _ _ Ec)).
      - exists (setStatus (if anyThrown outs then FAILED else PASSED) tr3).
        split; [|by simpl].
        apply try_catch_inr.
        rewrite (bind_inr _ _ _ _ _ Hnew). cbv beta.
        rewrite (bind_inr _ _ _ _ _ Esteps). cbv beta.
        rewrite (bind_inr _ _ _ _ _ Eas). cbv beta.
        rewrite (bind_inr _ _ _ _ _ (liftS_eq _ tr3 _ _ _ Ec)). cbv beta.
        unfold bind, modRun, liftS. cbn [fst snd orb].
        by rewrite (updateSuiteRunStats_some _ sc r Hc). }
    destruct Ebody as (tr' & Ebody & Hl1 & Hl2 & Hl3 & Hl4).
    eexists sa, sb, outs, sc, closed, _, tr'.
    split; [exact Hin|]. split; [exact Hev|].
    split; [by eapply Evaluated_length|]. split; [done|].
    split; [by eapply runTestCase_from_body|].
    simpl. rewrite lookup_insert_eq. done.
  - left.
    assert (H2 : sameObject s sc).
    { eapply sameObject_trans; [exact H1|].
      eapply sameObject_trans; [eapply keeps_InOrder, Hin; apply keeps_executeStep|].
      pose proof (keeps_executeStep D page step sa) as H3. rewrite Ef in H3.
      pose proof (keeps_captureScreenshot D page sb) as H4. rewrite Es in H4.
      by eapply sameObject_trans. }
    destruct H2 as (_ & Hc & _). rewrite Hr in Hc.
    pose proof (captureScreenshot_trace _ _ _ _ Es) as Htr.
    assert (Ebody : exists tr',
      RunTS.runTestCaseBody D testCase (RunTS.startedRun testCase, s)
        = ((tr', setCurrentSuiteRun (Some (bump FAILED r)) sc), inr tt) /\
      run_status tr' = FAILED /\
      logs_assertions (run_logs tr') = [] /\
      match shot with
      | inr data =>
          run_screenshot tr' = Some data /\
          logs_steps (run_logs tr') =
            map RunTS.stepPassed done ++ [RunTS.stepFailed step e] /\
          run_errorMessage tr' = Some (err_message e)
      | inl e' =>
          run_screenshot tr' = None /\
          logs_steps (run_logs tr') = map RunTS.stepPassed done /\
          run_errorMessage tr' = Some (err_message e')
      end).
    { unfold RunTS.runTestCaseBody.
      set (tr2 := addStepLogs (map RunTS.stepPassed done) (RunTS.startedRun testCase))
        in *.
      destruct shot as [e'|data].
      - exists (setErrorMessage (Some (err_message e')) (setStatus FAILED tr2)).
        split; [|by simpl].
        rewrite (try_catch_inl _ _ _ (tr2, sc) e').
        + by apply catch_block.
        + rewrite (bind_inr _ _ _ _ _ Hnew). cbv beta.
          by rewrite (bind_inl _ _ _ _ _ Esteps).
      - exists (setErrorMessage (Some (err_message e))
                  (setStatus FAILED
                     (pushStepLog (RunTS.stepFailed step e)
                        (setScreenshot (Some data) tr2)))).
        split; [|by simpl].
        rewrite (try_catch_inl _ _ _
                   (pushStepLog (RunTS.stepFailed step e)
                      (setScreenshot (Some data) tr2), sc) e).
        + by apply catch_block.
        + rewrite (bind_inr _ _ _ _ _ Hnew). cbv beta.
          by rewrite (bind_inl _ _ _ _ _ Esteps). }
    destruct Ebody as (tr' & Ebody & Hl1 & Hl2 & Hl3).
    eexists done, step, rest, sa, sb, e, sc, shot, _, tr'.
    split; [exact Hsplit|]. split; [exact Hin|]. split; [exact Ef|].
    split; [exact Es|].
    split; [by eapply runTestCase_from_body|].
    simpl. rewrite lookup_insert_eq. done.
Qed.
End TestCaseRunner.



(** * The selector resolver *)

(** C5 fails on src/services/runTScrawler.ts: its [buildSelector] knows
    [id], [css] and [xpath] only, so a [name], [linkText] or [className]
    selector resolves to its raw value, and an absent selector throws.  The
    later revision of the same method gives what the claim says. *)
Lemma buildSelector_minimal_falls_back :
  RunTS.buildSelector (Some (mkSelector (Some "name") "q")) = inr "q" /\
  RunTS.buildSelector (Some (mkSelector (Some "linkText") "Home")) = inr "Home" /\
  RunTS.buildSelector (Some (mkSelector (Some "className") "btn")) = inr "btn" /\
  RunTS.buildSelector None = inl (TypeError "undefined" "type") /\
  RunTSFull.buildSelector (Some (mkSelector (Some "name") "q"))
    = "[name=" +:+ dquote +:+ "q" +:+ dquote +:+ "]" /\
  RunTSFull.buildSelector (Some (mkSelector (Some "linkText") "Home")) = "text=Home" /\
  RunTSFull.buildSelector (Some (mkSelector (Some "className") "btn")) = ".btn" /\
  RunTSFull.buildSelector None = "".
Proof. repeat split. Qed.

(** In the later revision selector resolution is a total function with the
    mapping of the specification: [id], [name], [css], [xpath],
    [linkText], [className] and [tagName] as listed, any other or missing
    type gives the raw value, an absent selector the empty string. *)
Lemma buildSelector_full_total (selector : option Selector) :
  match selector with
  | None => RunTSFull.buildSelector selector = ""
  | Some sel =>
      let v := sel_value sel in
      (sel_type sel = Some "id" -> RunTSFull.buildSelector selector = "#" +:+ v) /\
      (sel_type sel = Some "name" ->
         RunTSFull.buildSelector selector = "[name=" +:+ dquote +:+ v +:+ dquote +:+ "]") /\
      (sel_type sel = Some "css" -> RunTSFull.buildSelector selector = v) /\
      (sel_type sel = Some "xpath" -> RunTSFull.buildSelector selector = "xpath=" +:+ v) /\
      (sel_type sel = Some "linkText" -> RunTSFull.buildSelector selector = "text=" +:+ v) /\
      (sel_type sel = Some "className" -> RunTSFull.buildSelector selector = "." +:+ v) /\
      (sel_type sel = Some "tagName" -> RunTSFull.buildSelector selector = v) /\
      (sel_type sel ∉ [Some "id"; Some "name"; Some "xpath"; Some "linkText";
                        Some "className"] ->
         RunTSFull.buildSelector selector = v)
  end.
Proof.
  destruct selector as [[ty v]|]; [|done]. simpl.
  repeat split; try (intros ->; reflexivity).
  intros Hnot. destruct ty as [t|]; [|done].
  unfold same.
  repeat match goal with
  | |- context [String.eqb t ?c] =>
      destruct (String.eqb_spec t c) as [->|?];
        [try reflexivity; exfalso; apply Hnot; set_solver|]
  end.
  reflexivity.
Qed.

(** * The step executor of the later revision *)

Section RunTSFullFacts.
Context {W : Type} (D : Driver W).
Implicit Types (s : State W) (tr : TestRun).

Lemma keepsFull_captureScreenshot page name :
  keeps (RunTSFull.captureScreenshot D page name).
Proof. unfold RunTSFull.captureScreenshot, RunTSFull.ensureDirectoriesExist. keeps_tac. Qed.

Lemma keepsFull_executeStep page step : keeps (RunTSFull.executeStep D page step).
Proof. unfold RunTSFull.executeStep. keeps_tac. Qed.

Lemma keepsFFull_runStep name page step : keepsF (RunTSFull.runStep D name page step).
Proof.
  unfold RunTSFull.runStep.
  pose proof (keepsFull_executeStep page step).
  pose proof (keepsFull_captureScreenshot page name).
  keeps_tac.
Qed.

Lemma call_works {A} (c : Call A) s w' (a : A) :
  drv D c (world s) = (w', inr a) ->
  call D c s =
    (mkState (browser s) (currentSuiteRun s) (testRuns s) w' (trace s ++ [any c]), inr a).
Proof. intros E. unfold call. by rewrite E. Qed.

Lemma ensureDirectoriesExist_works s :
  ArtifactsWork D ->
  exists s',
    RunTSFull.ensureDirectoriesExist D s = (s', inr tt) /\
    sameObject s s' /\
    trace s' = trace s ++ [any (Mkdir RunTSFull.screenshotDir); any (Mkdir RunTSFull.logsDir)].
Proof.
  intros HA. unfold RunTSFull.ensureDirectoriesExist.
  destruct (HA (world s)) as ([w1 E1]%(fun H => H RunTSFull.screenshotDir) & _).
  rewrite (bind_inr _ _ _ _ _ (call_works _ _ _ _ E1)).
  destruct (HA w1) as ([w2 E2]%(fun H => H RunTSFull.logsDir) & _).
  eexists. split; [by apply call_works|]. simpl.
  split; [by repeat split|]. by rewrite <- app_assoc.
Qed.

Lemma captureScreenshot_works page name s :
  ArtifactsWork D ->
  exists s' data,
    RunTSFull.captureScreenshot D page name s
      = (s', inr ("data:image/png;base64," +:+ data)) /\
    sameObject s s' /\
    trace s' = trace s ++ [any (Mkdir RunTSFull.screenshotDir);
                           any (Mkdir RunTSFull.logsDir);
                           any (ScreenshotFile page name);
                           any (ReadFile name)].
Proof.
  intros HA. unfold RunTSFull.captureScreenshot.
  destruct (ensureDirectoriesExist_works s HA) as (s1 & E1 & (Hb1 & Hc1 & Ht1) & Htr1).
  destruct (HA (world s1)) as (_ & [w2 E2]%(fun H => H page name) & _).
  destruct (HA w2) as (_ & _ & (w3 & data & E3)%(fun H => H name) & _).
  eexists _, data. split.
  - apply try_catch_inr.
    rewrite (bind_inr _ _ _ _ _ E1).
    rewrite (bind_inr _ _ _ _ _ (call_works _ _ _ _ E2)).
    erewrite bind_inr; [reflexivity|]. by apply call_works.
  - simpl. split; [by repeat split|]. rewrite Htr1. by rewrite <- !app_assoc.
Qed.

Lemma saveTestLogs_works tr s :
  ArtifactsWork D ->
  exists s',
    RunTSFull.saveTestLogs D tr s = (s', inr tt) /\
    sameObject s s' /\
    exists t, trace s' = trace s ++ t.
Proof.
  intros HA. unfold RunTSFull.saveTestLogs.
  destruct (ensureDirectoriesExist_works s HA) as (s1 & E1 & (Hb1 & Hc1 & Ht1) & Htr1).
  destruct (HA (world s1)) as (_ & _ & _ & [w2 E2]%(fun H => H (run_testCaseId tr) tr)).
  eexists. split.
  - apply try_catch_inr.
    rewrite (bind_inr _ _ _ _ _ E1). by apply call_works.
  - simpl. split; [by repeat split|]. rewrite Htr1. rewrite <- app_assoc. eauto.
Qed.

(** A [type] or [select] step with no value to use throws before any call
    is made. *)
Lemma missing_value_throws page step s :
  step_action step = "type" \/ step_action step = "select" ->
  RunTSFull.resolveValue step = None ->
  RunTSFull.executeStep D page step s
    = (s, inl (RunTSFull.missingValue (step_action step) step)).
Proof.
  intros Ha Hv. unfold RunTSFull.executeStep. rewrite Hv.
  destruct Ha as [-> | ->]; reflexivity.
Qed.

Lemma runStepFull_throws name page step tr s e :
  RunTSFull.executeStep D page step s = (s, inl e) ->
  exists f e', RunTSFull.runStep D name page step (tr, s) = (f, inl e').
Proof.
  intros E. unfold RunTSFull.runStep.
  rewrite (try_catch_inl _ _ (tr, s) (tr, s) e)
    by (by rewrite (bind_inl _ _ (tr, s) (tr, s) e (liftS_eq _ _ _ _ _ E))).
  destruct (RunTSFull.captureScreenshot D page name s) as [s2 [e2|shot]] eqn:Es.
  - rewrite (bind_inl _ _ (tr, s) (tr, s2) e2 (liftS_eq _ _ _ _ _ Es)). eauto.
  - rewrite (bind_inr _ _ (tr, s) (tr, s2) shot (liftS_eq _ _ _ _ _ Es)).
    unfold bind, modRun, throw. simpl. eauto.
Qed.

(** The loop over the steps cannot get past such a step. *)
Lemma runStepsFull_throw name page steps step tr s :
  step ∈ steps ->
  step_action step = "type" \/ step_action step = "select" ->
  RunTSFull.resolveValue step = None ->
  exists f e,
    forEach (RunTSFull.runStep D name page) steps (tr, s) = (f, inl e) /\
    sameObject s f.2.
Proof.
  intros Hin Ha Hv.
  assert (Hthrow : exists f e,
            forEach (RunTSFull.runStep D name page) steps (tr, s) = (f, inl e)).
  { revert tr s. induction steps as [|x steps IH]; intros tr s.
    { by apply not_elem_of_nil in Hin. }
    simpl. destruct (RunTSFull.runStep D name page x (tr, s)) as [f1 [e|[]]] eqn:E.
    - rewrite (bind_inl _ _ _ _ _ E). eauto.
    - rewrite (bind_inr _ _ _ _ _ E).
      apply elem_of_cons in Hin as [<-|Hin].
      + destruct (runStepFull_throws name page step tr s _
                    (missing_value_throws page step s Ha Hv)) as (f & e' & E').
        congruence.
      + destruct f1 as [tr1 s1]. by apply IH. }
  destruct Hthrow as (f & e & E). exists f, e. split; [done|].
  pose proof (keepsF_forEach _ steps (keepsFFull_runStep name page) (tr, s)) as H.
  by rewrite E in H.
Qed.
Lemma saveLocalLogs_works tr s :
  ArtifactsWork D ->
  exists s',
    RunTSFull.saveLocalLogs D (tr, s) = ((tr, s'), inr tt) /\
    sameObject s s' /\
    exists t, trace s' = trace s ++ t.
Proof.
  intros HA. destruct (saveTestLogs_works tr s HA) as (s' & E & Hs & Ht).
  exists s'. split; [|done]. unfold RunTSFull.saveLocalLogs. simpl.
  by apply liftS_eq.
Qed.

(** C6, as the code has it.  A [type] or [select] step whose value
    resolves to nothing makes the step executor throw the error that names
    the action and the step, and the state is as before: no driver call was
    made.  A case that contains such a step, once it runs (its page opens)
    and provided the screenshot and log files can be written, ends FAILED,
    is counted as failed, and carries the screenshot that was taken. *)
Theorem missing_value_fails_the_case (testCase : TestCase) (step : Step)
    (s s1 : State W) (r : TestSuiteRun) (b : Browser) (page : Page) :
  step_action step = "type" \/ step_action step = "select" ->
  RunTSFull.resolveValue step = None ->
  (forall p s0,
     RunTSFull.executeStep D p step s0 =
       (s0, inl (mkError ("No value provided for " +:+ step_action step
                          +:+ " action in step " +:+ step_id step)))) /\
  (step ∈ tc_steps testCase ->
   currentSuiteRun s = Some r ->
   browser s = Some b ->
   call D (NewPage b) s = (s1, inr page) ->
   ArtifactsWork D ->
   exists s' t data r',
     RunTSFull.runTestCase D testCase s = (s', inr tt) /\
     testRuns s' !! tc_id testCase = Some t /\
     run_status t = FAILED /\
     run_screenshot t = Some ("data:image/png;base64," +:+ data) /\
     any (ScreenshotFile page (tc_id testCase)) ∈ trace s' /\
     currentSuiteRun s' = Some r' /\
     tsr_failedTests r' = S (tsr_failedTests r)).
Proof.
  intros Ha Hv. split.
  { intros p s0. by apply missing_value_throws. }
  intros Hin Hr Hb Hpage HA.
  assert (H1 : sameObject s s1).
  { pose proof (keeps_call D (NewPage b) s) as H. by rewrite Hpage in H. }
  destruct (runStepsFull_throw (tc_id testCase) page (tc_steps testCase) step
              (RunTSFull.startedRun testCase) s1 Hin Ha Hv)
    as ([tr2 s2] & e & Esteps & H2).
  simpl in H2.
  destruct (captureScreenshot_works page (tc_id testCase) s2 HA)
    as (s3 & data & Ecap & H3 & Htr3).
  set (tr3 := setScreenshot (Some ("data:image/png;base64," +:+ data))
                (setErrorMessage (Some (err_message e)) (setStatus FAILED tr2))).
  destruct (saveLocalLogs_works tr3 s3 HA) as (s4 & Esave & H4 & (t4 & Htr4)).
  assert (Hc4 : currentSuiteRun s4 = Some r).
  { destruct H1 as (_ & Hc1 & _), H2 as (_ & Hc2 & _), H3 as (_ & Hc3 & _),
      H4 as (_ & Hc4 & _). congruence. }
  set (s5 := setCurrentSuiteRun (Some (bump FAILED r)) s4).
  destruct (saveLocalLogs_works tr3 s5 HA) as (s6 & Efin & H6 & (t6 & Htr6)).
  assert (Ebody : RunTSFull.runTestCaseBody D testCase page
                    (RunTSFull.startedRun testCase, s1) = ((tr3, s6), inr tt)).
  { unfold RunTSFull.runTestCaseBody, try_finally.
    rewrite (try_catch_inl _ _ _ (tr2, s2) e)
      by (by rewrite (bind_inl _ _ _ _ _ Esteps)).
    rewrite (bind_inr _ _ (tr2, s2) (setStatus FAILED tr2, s2) tt eq_refl).
    cbv beta.
    rewrite (bind_inr _ _ (setStatus FAILED tr2, s2)
               (setErrorMessage (Some (err_message e)) (setStatus FAILED tr2), s2)
               tt eq_refl).
    cbv beta.
    rewrite (bind_inr _ _ _ _ _ (liftS_eq _ _ _ _ _ Ecap)). cbv beta.
    rewrite (bind_inr _ _
               (setErrorMessage (Some (err_message e)) (setStatus FAILED tr2), s3)
               (tr3, s3) tt eq_refl).
    cbv beta.
    rewrite (bind_inr _ _ _ _ _ Esave). cbv beta.
    rewrite (liftS_eq _ tr3 _ _ _ (updateSuiteRunStats_some FAILED s4 r Hc4)).
    fold s5. by rewrite Efin. }
  assert (Hc6 : currentSuiteRun s6 = Some (bump FAILED r)).
  { destruct H6 as (_ & -> & _). reflexivity. }
  eexists _, tr3, data, _. split.
  { unfold RunTSFull.runTestCase.
    assert (Enew : RunTSFull.newPage D s = (s1, inr page)).
    { unfold RunTSFull.newPage. by rewrite Hb. }
    rewrite (bind_inr _ _ s s1 page Enew).
    rewrite Ebody. unfold bind, modify, pushToSuiteRun. simpl. rewrite Hc6.
    reflexivity. }
  simpl. rewrite lookup_insert_eq.
  repeat split; try reflexivity.
  rewrite Htr6. simpl. rewrite Htr4, Htr3.
  rewrite !elem_of_app. left. left. right. rewrite !elem_of_cons. auto.
Qed.
End RunTSFullFacts.

(** C6 as stated fails for a case that does not run, or whose screenshot
    cannot be taken.  A case with such a step and an unmet dependency is
    recorded BLOCKED, with no screenshot.  When screenshots fail, or when
    no page can be opened, the case is not recorded at all: [runTestCase]
    throws and no counter moves. *)
Lemma missing_value_without_failed_case :
  RunTSFull.resolveValue typeStepNoValue = None /\
  (RunTSFull.runOne healthy caseBlockedC midRun).1 =
    mkState (Some 1)
      (Some (mkTestSuiteRun "suite" RUNNING 1 0 0 0 1 [blockedRun caseBlockedC]))
      {[ "C" := blockedRun caseBlockedC ]} tt [] /\
  (RunTSFull.runTestCase noScreenshots caseC midRun).2 = inl (mkError "driver failure") /\
  recordedFull noScreenshots caseC midRun = None /\
  (RunTSFull.runTestCase noPages caseC midRun).2 = inl (mkError "driver failure") /\
  recordedFull noPages caseC midRun = None /\
  currentSuiteRun (RunTSFull.runTestCase noScreenshots caseC midRun).1 =
    Some (mkTestSuiteRun "suite" RUNNING 1 0 0 0 0 []).
Proof. repeat split; vm_compute; reflexivity. Qed.

Lemma healthy_ArtifactsWork : ArtifactsWork healthy.
Proof. intros []. repeat split; intros; eexists; try eexists; reflexivity. Qed.

(** On a healthy browser a case whose [type] step has no value is recorded
    FAILED with a screenshot. *)
Lemma missing_value_fails_the_case_witness :
  exists s' t data,
    RunTSFull.runTestCase healthy caseC midRun = (s', inr tt) /\
    testRuns s' !! "C" = Some t /\
    run_status t = FAILED /\
    run_screenshot t = Some ("data:image/png;base64," +:+ data).
Proof.
  destruct (missing_value_fails_the_case healthy caseC typeStepNoValue midRun pageOpen
              (mkTestSuiteRun "suite" RUNNING 1 0 0 0 0 []) 1 7
              (or_introl eq_refl) eq_refl) as [_ H].
  destruct H as (s' & t & data & r' & E & Hl & Hs & Hshot & _);
    [by left|reflexivity|reflexivity|reflexivity|apply healthy_ArtifactsWork|].
  exists s', t, data.
  split; [exact E|]. split; [exact Hl|]. split; [exact Hs|exact Hshot].
Defined.

(** * The crawler: retry *)

Section RetryFacts.
Context {W : Type}.
Implicit Types (s : Crawler.CState W).

Lemma attempts_app es1 es2 : attempts (es1 ++ es2) = attempts es1 + attempts es2.
Proof. induction es1 as [|[] es1 IH]; simpl; auto. Qed.

Lemma delays_app es1 es2 : delays (es1 ++ es2) = delays es1 ++ delays es2.
Proof. induction es1 as [|[] es1 IH]; simpl; auto. by f_equal. Qed.

(** Started with [retryCount], [retryOperation] runs the operation at most
    [MAX_RETRY_ATTEMPTS + 1 - retryCount] times, and exactly that often
    when it ends in a failure. *)
Lemma retryOperation_attempts {T} (operation : W -> W * (JsError + T)) retryCount s :
  retryCount <= Crawler.MAX_RETRY_ATTEMPTS ->
  1 <= attempts (Crawler.events (Crawler.retryOperation operation retryCount s).1)
       - attempts (Crawler.events s) /\
  attempts (Crawler.events (Crawler.retryOperation operation retryCount s).1) <=
    attempts (Crawler.events s) + (Crawler.MAX_RETRY_ATTEMPTS + 1 - retryCount) /\
  (forall e, (Crawler.retryOperation operation retryCount s).2 = inl e ->
     attempts (Crawler.events (Crawler.retryOperation operation retryCount s).1) =
       attempts (Crawler.events s) + (Crawler.MAX_RETRY_ATTEMPTS + 1 - retryCount) /\
     delays (Crawler.events (Crawler.retryOperation operation retryCount s).1) =
       delays (Crawler.events s) ++
       map (fun n => (Crawler.RECOVERY_DELAY * N.of_nat n)%N)
           (seq (retryCount + 1) (Crawler.MAX_RETRY_ATTEMPTS - retryCount))).
Proof.
  funelim (Crawler.retryOperation operation retryCount s); intros Hle;
    clear Heqcall; unfold Crawler.MAX_RETRY_ATTEMPTS in *.
  - unfold Crawler.attempt in Heq. destruct (operation (Crawler.cworld s)) as [w' r].
    injection Heq as <- ->. cbn [fst snd Crawler.events]. rewrite attempts_app.
    cbn [attempts]. split; [lia|]. split; [lia|]. done.
  - unfold Crawler.attempt in Heq0. destruct (operation (Crawler.cworld s)) as [w' r].
    injection Heq0 as <- ->.
    cbn [fst snd Crawler.events Crawler.failed]. rewrite attempts_app, delays_app.
    cbn [attempts delays].
    assert (retryCount = 3) as -> by lia.
    split; [lia|]. split; [lia|]. intros _ _. split; [lia|].
    cbn [Nat.sub seq map]. by rewrite !app_nil_r.
  - destruct H as (H1 & H2 & H3); [lia|].
    unfold Crawler.attempt in Heq0. destruct (operation (Crawler.cworld s)) as [w' r].
    injection Heq0 as <- ->.
    cbn [fst snd Crawler.events Crawler.failed Crawler.sleep] in *.
    rewrite !attempts_app in *. cbn [attempts] in *.
    split; [lia|]. split; [lia|]. intros e0 He0.
    destruct (H3 e0 He0) as [H4 H5]. split; [lia|].
    rewrite H5. repeat rewrite delays_app. cbn [delays].
    replace (3 - retryCount) with (S (3 - (retryCount + 1))) by lia.
    cbn [seq map]. rewrite app_nil_r, <- app_assoc. cbn [app].
    replace (S (retryCount + 1)) with (retryCount + 1 + 1) by lia.
    reflexivity.
Qed.

(** C7, as the code has it.  [retryOperation] runs the operation once and
    then retries it while it fails: [k] retries, where [k] is at most
    [MAX_RETRY_ATTEMPTS - retryCount], that is at most three for a call
    that starts at the default count 0, which makes four runs.  The first
    [k] runs failed, one after the other; before the [n]-th retry the delay
    is [RECOVERY_DELAY * n]; and what the call returns or throws is what
    the last run returned or threw.  It throws only when the retries are
    used up. *)
Theorem retry_schedule {T} (operation : W -> W * (JsError + T)) (retryCount : nat)
    (s : Crawler.CState W) :
  exists k w,
    k <= Crawler.MAX_RETRY_ATTEMPTS - retryCount /\
    afterFailures operation k (Crawler.cworld s) = Some w /\
    operation w = (Crawler.cworld (Crawler.retryOperation operation retryCount s).1,
                   (Crawler.retryOperation operation retryCount s).2) /\
    Crawler.events (Crawler.retryOperation operation retryCount s).1 =
      Crawler.events s ++ retrySchedule retryCount k /\
    (forall e, (Crawler.retryOperation operation retryCount s).2 = inl e ->
       Crawler.MAX_RETRY_ATTEMPTS <= retryCount + k).
Proof.
  funelim (Crawler.retryOperation operation retryCount s); clear Heqcall.
  - unfold Crawler.attempt in Heq.
    destruct (operation (Crawler.cworld s)) as [w' r] eqn:Eop.
    injection Heq as <- ->. exists 0, (Crawler.cworld s).
    cbn [fst snd Crawler.events Crawler.cworld afterFailures].
    split; [lia|]. split; [done|]. split; [done|]. split; [done|]. done.
  - unfold Crawler.attempt in Heq0.
    destruct (operation (Crawler.cworld s)) as [w' r] eqn:Eop.
    injection Heq0 as <- ->. exists 0, (Crawler.cworld s).
    cbn [fst snd Crawler.events Crawler.cworld Crawler.failed afterFailures].
    split; [lia|]. split; [done|]. split; [done|]. split; [done|].
    intros _ _. lia.
  - destruct H as (k & w & Hk & Hfail & Hlast & Hev & Hthrow).
    unfold Crawler.attempt in Heq0.
    destruct (operation (Crawler.cworld s)) as [w' r] eqn:Eop.
    injection Heq0 as <- ->.
    cbn [fst snd Crawler.events Crawler.cworld Crawler.failed Crawler.sleep] in *.
    exists (S k), w.
    split; [unfold Crawler.MAX_RETRY_ATTEMPTS in *; lia|].
    split; [cbn [afterFailures]; by rewrite Eop|].
    split; [exact Hlast|]. split.
    + rewrite Hev. unfold retrySchedule. cbn [seq flat_map].
      rewrite <- !app_assoc. cbn [app].
      by replace (S (retryCount + 1)) with (retryCount + 1 + 1) by lia.
    + intros e0 He0. specialize (Hthrow e0 He0). lia.
Qed.
End RetryFacts.

(** An operation that always fails is run four times. *)
Lemma retryOperation_attempts_witness :
  attempts (Crawler.events
              (Crawler.retryOperation alwaysFails 0 (Crawler.mkCState 0 0 [])).1) = 4.
Proof.
  destruct (retryOperation_attempts alwaysFails 0 (Crawler.mkCState 0 0 []))
    as (_ & _ & H).
  - unfold Crawler.MAX_RETRY_ATTEMPTS. lia.
  - destruct (H (mkError "failure 3")) as [H1 _]; [by vm_compute|].
    rewrite H1. reflexivity.
Defined.

(** C7 as stated fails: three is the number of retries, not of runs.  An
    operation that fails every time is run four times: once, and then once
    more after each of the delays of 1000, 2000 and 3000 ms.  The failure
    that is propagated is the last one, and [errorCount] counts all four;
    an operation that succeeds only on its fourth run succeeds. *)
Lemma retry_runs_four_times :
  Crawler.retryOperation alwaysFails 0 (Crawler.mkCState 0 0 []) =
    (Crawler.mkCState 4 4
       [Crawler.Attempted; Crawler.Slept 1000%N;
        Crawler.Attempted; Crawler.Slept 2000%N;
        Crawler.Attempted; Crawler.Slept 3000%N;
        Crawler.Attempted],
     inl (mkError "failure 3")) /\
  attempts (Crawler.events (Crawler.retryOperation alwaysFails 0 (Crawler.mkCState 0 0 [])).1) = 4 /\
  Crawler.retryOperation (succeedsAt 3) 0 (Crawler.mkCState 0 0 []) =
    (Crawler.mkCState 3 4
       [Crawler.Attempted; Crawler.Slept 1000%N;
        Crawler.Attempted; Crawler.Slept 2000%N;
        Crawler.Attempted; Crawler.Slept 3000%N;
        Crawler.Attempted],
     inr 3).
Proof. repeat split; vm_compute; reflexivity. Qed.

(** * The crawler: attributes *)

Section AttributeFacts.
Context {W : Type} (D : Crawler.Dom W).

Lemma conditional_fold (f : gmap string string -> string * string -> gmap string string)
    (keep : string -> string -> bool) :
  (forall acc e, f acc e = if keep e.1 e.2 then <[e.1 := e.2]> acc else acc) ->
  forall (l : list (string * string)) (acc : gmap string string) k v,
  NoDup l.*1 ->
  foldl f acc l !! k = Some v <->
  ((k, v) ∈ l /\ keep k v = true) \/
  (acc !! k = Some v /\ forall v', (k, v') ∈ l -> keep k v' = false).
Proof.
  intros Hf l. induction l as [|[k0 v0] l IH]; intros acc k v Hnd; simpl.
  - split; [intros H; right; split; [done|]|].
    + intros v' Hv'. by apply not_elem_of_nil in Hv'.
    + intros [[Hin _]|[H _]]; [by apply not_elem_of_nil in Hin|done].
  - apply NoDup_cons in Hnd as [Hk0 Hnd]. rewrite (IH _ _ _ Hnd). clear IH.
    assert (Hfresh : forall v', (k0, v') ∉ l).
    { intros v' Hin. apply Hk0. apply list_elem_of_fmap. by exists (k0, v'). }
    rewrite Hf. cbn [fst snd].
    destruct (keep k0 v0) eqn:Hs.
    + destruct (decide (k = k0)) as [->|Hne].
      * rewrite lookup_insert_eq. split.
        -- intros [[Hin _]|[[= <-] _]]; [by apply Hfresh in Hin|].
           left. split; [by left|done].
        -- intros [[[[= <-]|Hin]%elem_of_cons Hv]|[_ Hall]].
           ++ right. split; [done|]. intros v' Hin. by apply Hfresh in Hin.
           ++ by apply Hfresh in Hin.
           ++ exfalso. specialize (Hall v0). rewrite Hs in Hall.
              by discriminate Hall; left.
      * rewrite lookup_insert_ne by done. split.
        -- intros [[Hin Hv]|[Hacc Hall]].
           ++ left. split; [by right|done].
           ++ right. split; [done|].
              intros v' [[=]|Hin]%elem_of_cons; [done|by apply Hall].
        -- intros [[[[=]|Hin]%elem_of_cons Hv]|[Hacc Hall]]; [done| |].
           ++ left. by split.
           ++ right. split; [done|]. intros v' Hin. apply Hall. by right.
    + split.
      * intros [[Hin Hv]|[Hacc Hall]].
        -- left. split; [by right|done].
        -- right. split; [done|].
           intros v' [[= -> ->]|Hin]%elem_of_cons; [done|by apply Hall].
      * intros [[[[= -> ->]|Hin]%elem_of_cons Hv]|[Hacc Hall]]; [congruence| |].
        -- left. by split.
        -- right. split; [done|]. intros v' Hin. apply Hall. by right.
Qed.

Lemma assign_keep key value (o : gmap string string) :
  Crawler.assign key value o =
    if negb (String.eqb key "__proto__") then <[key := value]> o else o.
Proof. unfold Crawler.assign. by destruct (String.eqb key "__proto__"). Qed.

(** No property named [__proto__] is ever created by an assignment. *)
Lemma assign_proto key value (o : gmap string string) :
  o !! "__proto__" = None -> Crawler.assign key value o !! "__proto__" = None.
Proof.
  intros Ho. unfold Crawler.assign.
  destruct (String.eqb_spec key "__proto__") as [->|Hne]; [done|].
  by rewrite lookup_insert_ne.
Qed.

Lemma collectAttributes_proto (el : Crawler.Node) :
  Crawler.collectAttributes el !! "__proto__" = None.
Proof.
  unfold Crawler.collectAttributes.
  assert (H : forall l (acc : gmap string string),
            acc !! "__proto__" = None ->
            foldl (fun attributes attr => Crawler.assign attr.1 attr.2 attributes) acc l
              !! "__proto__" = None).
  { induction l as [|a l IH]; intros acc Hacc; [done|].
    cbn [foldl]. apply IH. by apply assign_proto. }
  by apply H.
Qed.

(** [validateAttributes] keeps the attributes whose value is shorter than
    1000 characters, and only those; it stores none under the name
    [__proto__]. *)
Lemma validateAttributes_lookup (attributes : gmap string string) k v :
  Crawler.validateAttributes attributes !! k = Some v <->
  attributes !! k = Some v /\ String.length v < 1000 /\ k <> "__proto__".
Proof.
  unfold Crawler.validateAttributes.
  rewrite (conditional_fold _
             (fun k v => (String.length v <? 1000)%nat && negb (String.eqb k "__proto__")))
    by (first [apply NoDup_fst_map_to_list
              |intros acc e; rewrite assign_keep;
               by destruct (String.length e.2 <? 1000)%nat]).
  rewrite elem_of_map_to_list, lookup_empty, andb_true_iff, negb_true_iff,
    Nat.ltb_lt, String.eqb_neq.
  split; [intros [?|[? _]]; done|intros ?; by left].
Qed.

Lemma collect_fold (l : list (string * string)) k v :
  NoDup l.*1 ->
  foldl (fun attributes attr => Crawler.assign attr.1 attr.2 attributes) ∅ l !! k = Some v <->
  (k, v) ∈ l /\ k <> "__proto__".
Proof.
  intros Hnd.
  rewrite (conditional_fold _ (fun k _ => negb (String.eqb k "__proto__")))
    by (first [exact Hnd|intros acc e; apply assign_keep]).
  rewrite lookup_empty, negb_true_iff, String.eqb_neq.
  split; [intros [?|[? _]]; done|intros ?; by left].
Qed.

(** C8, as the code has it.  When the attributes of an element can be
    read, [extractAttributes] returns exactly those of them whose value is
    shorter than 1000 characters and whose name is not [__proto__], each
    with its name and value unchanged; an attribute whose value has 1000
    characters or more is dropped, and so is an attribute named
    [__proto__], which the assignment in the page never stores. *)
Theorem attributes_below_limit (element : Crawler.Handle) (el : Crawler.Node)
    (s : Crawler.CState W) (w' : W) :
  Crawler.resolve D element (Crawler.cworld s) = (w', inr el) ->
  exists m s',
    Crawler.extractAttributes D element s = (s', inr m) /\
    (forall k v,
       m !! k = Some v <->
       Crawler.collectAttributes el !! k = Some v /\ String.length v < 1000) /\
    (NoDup (Crawler.node_attributes el).*1 ->
     forall k v,
       m !! k = Some v <->
       (k, v) ∈ Crawler.node_attributes el /\ String.length v < 1000 /\
       k <> "__proto__").
Proof.
  intros E. unfold Crawler.extractAttributes, bind, Crawler.evaluate. rewrite E.
  eexists _, _. split; [reflexivity|]. split.
  - intros k v. rewrite validateAttributes_lookup. split.
    + by intros (? & ? & ?).
    + intros [Hk Hv]. split; [done|]. split; [done|].
      intros ->. by rewrite collectAttributes_proto in Hk.
  - intros Hnd k v. rewrite validateAttributes_lookup.
    unfold Crawler.collectAttributes. rewrite (collect_fold _ _ _ Hnd).
    split; [by intros ([? ?] & ? & ?)|by intros (? & ? & ?)].
Qed.
End AttributeFacts.

(** C8 as stated fails at the limit: a value of exactly 1000 characters
    does not exceed 1000 characters, and is dropped; values of 999
    characters are kept and values of 1001 dropped. *)
Lemma attribute_of_1000_characters_dropped :
  String.length (repeatChar 1000 "a") = 1000 /\
  (N.of_nat (String.length (repeatChar 1000 "a")) <= 1000)%N /\
  exists m,
    (Crawler.extractAttributes (staticDom longAttributes) 0 freshCrawl).2 = inr m /\
    m !! "data-a" = None /\
    m !! "data-b" = Some (repeatChar 999 "b") /\
    m !! "data-c" = None.
Proof.
  split; [by vm_compute|]. split; [by vm_compute|].
  eexists. split; [reflexivity|].
  repeat split; vm_compute; reflexivity.
Qed.

(** The [name] attribute of the login form is kept. *)
Lemma attributes_below_limit_witness :
  exists m,
    (Crawler.extractAttributes (staticDom loginForm) 0 freshCrawl).2 = inr m /\
    m !! "name" = Some "f".
Proof.
  destruct (attributes_below_limit (staticDom loginForm) 0 loginForm freshCrawl tt eq_refl)
    as (m & s' & E & _ & H).
  exists m. split; [by rewrite E|].
  apply H.
  - apply (bool_decide_unpack _). by vm_compute.
  - split.
    + apply (bool_decide_unpack _). by vm_compute.
    + split; [apply Nat.ltb_lt; by vm_compute|discriminate].
Defined.

(** An attribute named [__proto__] is not reported, whatever its value;
    the other attributes of the element are. *)
Lemma proto_attribute_is_lost :
  exists m,
    (Crawler.extractAttributes (staticDom protoAttribute) 0 freshCrawl).2 = inr m /\
    m !! "__proto__" = None /\
    m !! "title" = Some "t".
Proof. eexists. split; [reflexivity|]. split; vm_compute; reflexivity. Qed.

(** * The crawler: unique selectors *)

Section SelectorFacts.
Context {W : Type} (D : Crawler.Dom W).

Lemma append_cons x (a b : string) : String x a +:+ b = String x (a +:+ b).
Proof. reflexivity. Qed.

Lemma append_assoc (a b c : string) : (a +:+ b) +:+ c = a +:+ (b +:+ c).
Proof. induction a as [|x a IH]; [done|]. by rewrite !append_cons, IH. Qed.

Lemma append_nil_r (a : string) : a +:+ "" = a.
Proof. induction a as [|x a IH]; [done|]. by rewrite append_cons, IH. Qed.

Lemma append_nonempty_r (a b : string) : b <> "" -> a +:+ b <> "".
Proof. intros Hb. destruct a; [done|]. by rewrite append_cons. Qed.

Lemma truthy_Some (v : string) : truthy (Some v) = true <-> v <> "".
Proof.
  unfold truthy. destruct (String.eqb_spec v ""); simpl; split; congruence.
Qed.

Lemma segmentOf_nonempty n : segmentOf n <> "".
Proof. unfold segmentOf. do 3 apply append_nonempty_r. discriminate. Qed.

Lemma join_cons sep x xs :
  join sep (x :: xs) = x +:+ (match xs with [] => "" | _ => sep +:+ join sep xs end).
Proof. destruct xs; simpl; [by rewrite append_nil_r|done]. Qed.

Lemma join_nonempty sep xs :
  xs <> [] -> Forall (fun x => x <> "") xs -> join sep xs <> "".
Proof.
  destruct xs as [|x xs]; [done|]. intros _ Hall. rewrite join_cons.
  apply Forall_cons in Hall as [Hx _]. destruct x; [done|]. by rewrite append_cons.
Qed.

(** One turn of the path loop puts the segment of the element in front of
    the path. *)
Lemma segment_join n acc :
  Forall (fun x => x <> "") acc ->
  Crawler.segment (Crawler.node_tagName n)
    (Crawler.nthOfType (Crawler.node_tagName n) (Crawler.node_previousSiblings n))
    (join " > " acc)
  = join " > " (segmentOf n :: acc).
Proof.
  intros Hall. unfold Crawler.segment. rewrite join_cons. unfold segmentOf.
  rewrite !append_assoc. do 3 f_equal.
  destruct acc as [|x acc]; [done|].
  assert (Ht : truthy (Some (join " > " (x :: acc))) = true).
  { apply truthy_Some. by apply join_nonempty. }
  by rewrite Ht.
Qed.

(** The path loop joins the segments of the elements it visits, the
    outermost first. *)
Lemma positionalPath_join current acc :
  Forall (fun x => x <> "") acc ->
  Crawler.positionalPath current (join " > " acc)
  = join " > " (map segmentOf (rev (climb current)) ++ acc).
Proof.
  revert acc. induction current as [i t a c p b|i t a c p b parent IH] using Node_up;
    intros acc Hall.
  - simpl. by destruct b.
  - simpl. destruct b; [done|].
    change (Crawler.segment t (Crawler.nthOfType t p) (join " > " acc))
      with (Crawler.segment
              (Crawler.node_tagName (Crawler.mkNode i t a c p false (Some parent)))
              (Crawler.nthOfType
                 (Crawler.node_tagName (Crawler.mkNode i t a c p false (Some parent)))
                 (Crawler.node_previousSiblings
                    (Crawler.mkNode i t a c p false (Some parent))))
              (join " > " acc)).
    rewrite (segment_join _ acc Hall).
    rewrite IH.
    + cbn [climb rev]. rewrite map_app. cbn [map]. by rewrite <- app_assoc.
    + apply Forall_cons. split; [apply segmentOf_nonempty|done].
Qed.

Lemma splitSpaces_nonempty s cur inRun : splitSpaces s cur inRun <> [].
Proof.
  revert cur inRun. induction s as [|ch s IH]; intros cur inRun; simpl; [done|].
  destruct (isSpace ch); [destruct inRun|]; auto.
Qed.

(** C9, as the code has it.  In this order: a non-empty [id] gives [#id];
    else a non-empty [name] attribute gives the lower-case tag followed by
    the name in brackets; else a non-empty class string gives the tag
    followed by its classes joined with dots; else the selector is the
    path of [tag:nth-of-type(index)] segments of the element and its
    ancestors below [body], joined by [" > "] after ["body"], or the bare
    lower-case tag when there is no such segment (the element is the body
    or has no parent).  When the evaluation fails, the tag name is
    evaluated instead; the generator throws only when that fails too. *)
Theorem unique_selector_rules (el : Crawler.Node) :
  let tag := toLowerCase (Crawler.node_tagName el) in
  let name := Crawler.getAttribute (Crawler.node_attributes el) "name" in
  (Crawler.node_id el <> "" ->
     Crawler.uniqueSelector el = "#" +:+ Crawler.node_id el) /\
  (Crawler.node_id el = "" ->
     forall n, name = Some n -> n <> "" ->
     Crawler.uniqueSelector el = tag +:+ "[name=" +:+ dquote +:+ n +:+ dquote +:+ "]") /\
  (Crawler.node_id el = "" ->
     name = None \/ name = Some "" ->
     forall c, Crawler.node_className el = Crawler.ClassString c -> c <> "" ->
     Crawler.uniqueSelector el = tag +:+ "." +:+ join "." (splitSpaces (trim c) "" false)) /\
  (Crawler.node_id el = "" ->
     name = None \/ name = Some "" ->
     Crawler.node_className el = Crawler.ClassString "" \/
     Crawler.node_className el = Crawler.ClassObject ->
     Crawler.uniqueSelector el =
       match climb el with
       | [] => tag
       | _ :: _ => "body > " +:+ join " > " (map segmentOf (rev (climb el)))
       end) /\
  (forall (element : Crawler.Handle) (s : Crawler.CState W),
     Crawler.generateUniqueSelector D element s =
       match Crawler.resolve D element (Crawler.cworld s) with
       | (w1, inr node) =>
           (Crawler.mkCState (Crawler.errorCount s) w1
              (Crawler.events s ++ [Crawler.Evaluated element]),
            inr (Crawler.uniqueSelector node))
       | (w1, inl _) =>
           match Crawler.resolve D element w1 with
           | (w2, inr node) =>
               (Crawler.mkCState (Crawler.errorCount s) w2
                  (Crawler.events s ++ [Crawler.Evaluated element;
                                        Crawler.Evaluated element]),
                inr (toLowerCase (Crawler.node_tagName node)))
           | (w2, inl e) =>
               (Crawler.mkCState (Crawler.errorCount s) w2
                  (Crawler.events s ++ [Crawler.Evaluated element;
                                        Crawler.Evaluated element]),
                inl e)
           end
       end).
Proof.
  intros tag name.
  assert (Hpos : Crawler.node_id el = "" -> name = None \/ name = Some "" ->
            (if truthy name
             then tag +:+ "[name=" +:+ dquote +:+ default "" name +:+ dquote +:+ "]"
             else (let path := Crawler.positionalPath el "" in
                   if truthy (Some path) then "body > " +:+ path else tag))
            = match climb el with
              | [] => tag
              | _ :: _ => "body > " +:+ join " > " (map segmentOf (rev (climb el)))
              end).
  { intros _ Hname.
    assert (truthy name = false) as -> by (by destruct Hname as [-> | ->]).
    pose proof (positionalPath_join el [] (Forall_nil_2 _)) as Hp.
    simpl in Hp. rewrite app_nil_r in Hp. cbv zeta. rewrite Hp.
    destruct (climb el) as [|x xs] eqn:Hc; [done|].
    assert (Ht : truthy (Some (join " > " (map segmentOf (rev (x :: xs))))) = true).
    { apply truthy_Some. apply join_nonempty.
      - intros Hnil. apply (f_equal length) in Hnil.
        rewrite length_map, length_rev in Hnil. discriminate.
      - apply Forall_forall. intros y [z [-> _]]%list_elem_of_fmap.
        apply segmentOf_nonempty. }
    by rewrite Ht. }
  split; [|split; [|split; [|split]]].
  - intros Hid. unfold Crawler.uniqueSelector.
    by apply truthy_Some in Hid as ->.
  - intros Hid n Hn Hne. unfold Crawler.uniqueSelector. fold name. rewrite Hid, Hn.
    apply truthy_Some in Hne. by rewrite Hne.
  - intros Hid Hname c Hc Hne. unfold Crawler.uniqueSelector. fold name.
    rewrite Hid, Hc.
    assert (truthy name = false) as -> by (by destruct Hname as [-> | ->]).
    apply truthy_Some in Hne. rewrite Hne.
    destruct (splitSpaces (trim c) "" false) as [|x xs] eqn:Hs; [|done].
    by apply splitSpaces_nonempty in Hs.
  - intros Hid Hname Hclass. rewrite <- (Hpos Hid Hname).
    unfold Crawler.uniqueSelector. fold name tag. rewrite Hid.
    assert (truthy name = false) as -> by (by destruct Hname as [-> | ->]).
    by destruct Hclass as [-> | ->].
  - intros element s. unfold Crawler.generateUniqueSelector, try_catch, Crawler.evaluate.
    destruct (Crawler.resolve D element (Crawler.cworld s)) as [w1 [e|node]]; [|done].
    simpl. destruct (Crawler.resolve D element w1) as [w2 [e2|node]];
      by rewrite <- app_assoc.
Qed.
End SelectorFacts.

(** C9 as stated fails in three places.  An element that is no longer in
    the document (no parent) and has no id, name or class gets its bare tag,
    not a path rooted at [body].  An element whose [name] attribute is
    present but empty skips the name rule.  And when the evaluation fails
    for good (a stale handle), the generator throws. *)
Lemma unique_selector_exceptions :
  Crawler.uniqueSelector detachedDiv = "div" /\
  Crawler.getAttribute (Crawler.node_attributes namelessInput) "name" = Some "" /\
  Crawler.uniqueSelector namelessInput = "input.field" /\
  (Crawler.generateUniqueSelector staleDom 0 freshCrawl).2
    = inl (mkError "Execution context was destroyed").
Proof. repeat split; vm_compute; reflexivity. Qed.

(** The four rules and the fallback on concrete elements. *)
Lemma unique_selector_examples :
  Crawler.uniqueSelector loginForm = "#login" /\
  Crawler.uniqueSelector userInput = "input[name=" +:+ dquote +:+ "user" +:+ dquote +:+ "]" /\
  Crawler.uniqueSelector namelessInput = "input.field" /\
  Crawler.uniqueSelector cardDiv = "div.card.wide" /\
  Crawler.uniqueSelector bareInput = "body > form:nth-of-type(1) > input:nth-of-type(3)" /\
  (Crawler.generateUniqueSelector (flakyDom bareInput) 0 (Crawler.mkCState 0 0 [])).2
    = inr "input".
Proof. repeat split; vm_compute; reflexivity. Qed.

(** * The suite runner: what is recorded *)

Section RecordFacts.
Context {W : Type} (D : Driver W).
Implicit Types (s : State W) (f : @Frame W) (r : TestSuiteRun) (t : TestRun).

Lemma keepsId_ret {A} (a : A) : keepsId (W:=W) (ret a).
Proof. by intros f. Qed.

Lemma keepsId_throw {A} e : keepsId (W:=W) (A:=A) (throw e).
Proof. by intros f. Qed.

Lemma keepsId_liftS {A} (m : M (State W) A) : keepsId (liftS m).
Proof. intros [tr s]. unfold liftS. simpl. by destruct (m s). Qed.

Lemma keepsId_modRun g :
  (forall t, run_testCaseId (g t) = run_testCaseId t) -> keepsId (W:=W) (modRun g).
Proof. intros Hg f. apply Hg. Qed.

Lemma keepsId_bind {A B} (m : M (@Frame W) A) (k : A -> M (@Frame W) B) :
  keepsId m -> (forall a, keepsId (k a)) -> keepsId (bind m k).
Proof.
  intros Hm Hk f. unfold bind. specialize (Hm f).
  destruct (m f) as [f1 [e|a]]; simpl in *; [done|].
  by rewrite Hk.
Qed.

Lemma keepsId_try_catch {A} (m : M (@Frame W) A) h :
  keepsId m -> (forall e, keepsId (h e)) -> keepsId (try_catch m h).
Proof.
  intros Hm Hh f. unfold try_catch. specialize (Hm f).
  destruct (m f) as [f1 [e|a]]; simpl in *; [|done].
  by rewrite Hh.
Qed.

Lemma keepsId_forEach {A} (body : A -> M (@Frame W) unit) xs :
  (forall x, keepsId (body x)) -> keepsId (forEach body xs).
Proof.
  intros Hb. induction xs as [|x xs IH]; simpl.
  - apply keepsId_ret.
  - apply keepsId_bind; [apply Hb|done].
Qed.
End RecordFacts.

#[local] Hint Resolve keepsId_ret keepsId_throw keepsId_liftS : keeps.

(** Splits a [keepsId] goal along the structure of the computation. *)
Ltac keepsId_tac :=
  repeat first
    [ progress intros
    | apply keepsId_bind | apply keepsId_try_catch | apply keepsId_forEach
    | apply keepsId_modRun; intros []; reflexivity
    | match goal with
      | |- keepsId (if ?b then _ else _) => destruct b
      | |- keepsId (match ?x with _ => _ end) => destruct x
      end
    | solve [eauto with keeps] ].

Section SuiteRecords.
Context {W : Type} (D : Driver W).
Implicit Types (s : State W) (f : @Frame W) (r : TestSuiteRun) (t : TestRun).

Lemma keepsId_runAssertions page assertions failed :
  keepsId (RunTS.runAssertions D page assertions failed).
Proof.
  revert failed. induction assertions as [|a rest IH]; intros failed; simpl.
  - apply keepsId_ret.
  - keepsId_tac.
Qed.

Lemma keepsId_runTestCaseBody testCase : keepsId (RunTS.runTestCaseBody D testCase).
Proof.
  unfold RunTS.runTestCaseBody, RunTS.runStep.
  pose proof keepsId_runAssertions. keepsId_tac.
Qed.

(** One turn of the loop of [runTestSuite] records one run, under the id of
    the case, and counts it under its status. *)
Lemma runOne_records testCase s r :
  currentSuiteRun s = Some r ->
  exists s' t,
    RunTS.runOne D testCase s = (s', inr tt) /\
    run_testCaseId t = tc_id testCase /\
    settled t /\
    currentSuiteRun s' = Some (pushTestRun t (bump (run_status t) r)) /\
    testRuns s' = <[tc_id testCase := t]> (testRuns s) /\
    browser s' = browser s.
Proof.
  intros Hr. unfold RunTS.runOne, bind.
  assert (Hcan : exists b, canRunTest testCase s = (s, inr b)).
  { unfold canRunTest. destruct (tc_dependsOn testCase) as [[|]|]; eauto. }
  destruct Hcan as [[] ->].
  - destruct (runTestCaseBody_counts D testCase (RunTS.startedRun testCase) s r Hr)
      as (tr' & s1 & st & E & Hst & Hrun & Hc & Hb & Ht).
    pose proof (keepsId_runTestCaseBody testCase (RunTS.startedRun testCase, s)) as Hid.
    rewrite E in Hid. simpl in Hid.
    eexists _, tr'. split; [by apply (runTestCase_from_body D _ _ _ _ _ E Hc)|].
    simpl. rewrite Hrun, Ht. repeat split; auto.
    unfold settled. rewrite Hrun. tauto.
  - rewrite (recordBlockedTest_some _ _ r Hr).
    eexists _, (blockedRun testCase). split; [reflexivity|].
    repeat split; auto. unfold settled. simpl. tauto.
Qed.

Lemma forEach_runOne_records cases s r :
  currentSuiteRun s = Some r ->
  exists s' ts,
    forEach (RunTS.runOne D) cases s = (s', inr tt) /\
    map run_testCaseId ts = map tc_id cases /\
    Forall settled ts /\
    currentSuiteRun s' = Some (recordAll ts r) /\
    testRuns s' = storeAll ts (testRuns s) /\
    browser s' = browser s.
Proof.
  revert s r. induction cases as [|tc cases IH]; intros s r Hr.
  - exists s, []. by repeat split.
  - destruct (runOne_records tc s r Hr) as (s1 & t & E1 & Hid & Hset & Hr1 & Ht1 & Hb1).
    destruct (IH s1 _ Hr1) as (s2 & ts & E2 & Hids & Hsets & Hr2 & Ht2 & Hb2).
    exists s2, (t :: ts). cbn [forEach]. rewrite (bind_inr _ _ _ _ _ E1).
    split; [exact E2|]. split; [cbn [map]; by rewrite Hid, Hids|].
    split; [by constructor|]. split; [exact Hr2|].
    split; [|congruence].
    rewrite Ht2, Ht1. unfold storeAll. cbn [foldl]. by rewrite Hid.
Qed.

Lemma withStatus_cons st t ts :
  withStatus st (t :: ts) =
    (if decide (run_status t = st) then 1 else 0) + withStatus st ts.
Proof. unfold withStatus. rewrite filter_cons. by destruct (decide _). Qed.

(** What [recordAll] does to each field of the suite run. *)
Lemma recordAll_fields ts r :
  tsr_testRuns (recordAll ts r) = tsr_testRuns r ++ ts /\
  tsr_testSuiteId (recordAll ts r) = tsr_testSuiteId r /\
  tsr_totalTests (recordAll ts r) = tsr_totalTests r /\
  tsr_status (recordAll ts r) = tsr_status r /\
  tsr_passedTests (recordAll ts r) = tsr_passedTests r + withStatus PASSED ts /\
  tsr_failedTests (recordAll ts r) = tsr_failedTests r + withStatus FAILED ts /\
  tsr_blockedTests (recordAll ts r) = tsr_blockedTests r + withStatus BLOCKED ts /\
  tsr_skippedTests (recordAll ts r) = tsr_skippedTests r + withStatus SKIPPED ts.
Proof.
  revert r. induction ts as [|t ts IH]; intros r.
  - unfold recordAll, withStatus. simpl. rewrite app_nil_r. repeat split; lia.
  - unfold recordAll. cbn [foldl]. fold (recordAll ts (pushTestRun t (bump (run_status t) r))).
    destruct (IH (pushTestRun t (bump (run_status t) r)))
      as (H1 & H2 & H3 & H4 & H5 & H6 & H7 & H8).
    rewrite H1, H2, H3, H4, H5, H6, H7, H8, !withStatus_cons.
    destruct (run_status t); simpl; rewrite <- ?app_assoc; repeat split; lia.
Qed.

Lemma withStatus_settled ts : Forall settled ts -> withStatus SKIPPED ts = 0.
Proof.
  induction 1 as [|t ts Ht _ IH]; [done|].
  rewrite withStatus_cons, IH.
  destruct (decide (run_status t = SKIPPED)) as [E|]; [|done].
  destruct Ht as [H|[H|H]]; congruence.
Qed.

Lemma withStatus_total ts :
  Forall settled ts ->
  withStatus PASSED ts + withStatus FAILED ts + withStatus BLOCKED ts = length ts.
Proof.
  induction 1 as [|t ts Ht _ IH]; [done|].
  rewrite !withStatus_cons. cbn [length].
  destruct Ht as [H|[H|H]]; rewrite H;
    repeat match goal with |- context [decide ?P] => destruct (decide P); try done end;
    lia.
Qed.

Lemma browserAvailable_ensure s :
  browserAvailable D s ->
  exists s1 b,
    RunTS.ensureBrowser D s = (s1, inr tt) /\
    browser s1 = Some b /\
    currentSuiteRun s1 = currentSuiteRun s /\
    testRuns s1 = testRuns s.
Proof.
  unfold browserAvailable, RunTS.ensureBrowser. destruct (browser s) as [b|] eqn:Hb.
  - intros _. by exists s, b.
  - intros (w' & b & E).
    unfold RunTS.initialize, try_catch, bind, call, modify. rewrite E.
    eexists _, b. by repeat split.
Qed.

(** [runTestSuite] on a crawler whose browser is available: the runs that
    it records, and where. *)
Lemma runTestSuite_records testSuite s :
  browserAvailable D s ->
  exists s' ts b,
    let r2 := recordAll ts (freshSuiteRun testSuite) in
    let r := setSuiteStatus (derivedStatus r2) r2 in
    RunTS.runTestSuite D testSuite s = (s', inr r) /\
    currentSuiteRun s' = Some r /\
    map run_testCaseId ts = map tc_id (suite_testCases testSuite) /\
    Forall settled ts /\
    testRuns s' = storeAll ts (testRuns s) /\
    browser s' = Some b.
Proof.
  intros Hav.
  set (s0 := setCurrentSuiteRun (Some (freshSuiteRun testSuite)) s).
  destruct (browserAvailable_ensure s0 Hav) as (s1 & b & E0 & Hb1 & Hc1 & Ht1).
  destruct (forEach_runOne_records (suite_testCases testSuite) s1 _ Hc1)
    as (s2 & ts & E2 & Hids & Hsets & Hr2 & Ht2 & Hb2).
  eexists _, ts, b. cbv zeta.
  unfold RunTS.runTestSuite.
  rewrite (bind_inr (modify _) _ s s0 tt) by reflexivity.
  unfold bind at 1. unfold try_finally.
  rewrite (bind_inr _ _ s0 s1 tt E0). rewrite E2.
  unfold finishSuiteRun, determineTestSuiteStatus. rewrite Hr2.
  cbn [fst snd currentSuiteRun setCurrentSuiteRun].
  split; [reflexivity|]. split; [reflexivity|].
  split; [exact Hids|]. split; [exact Hsets|].
  unfold setCurrentSuiteRun. cbn [testRuns browser].
  split; [by rewrite Ht2, Ht1|congruence].
Qed.

(** On a crawler whose browser is there or can be launched, [runTestSuite]
    returns a suite run that lists one run per case of the suite, in the
    order of the suite and under the ids of the cases; every run is PASSED,
    FAILED or BLOCKED, and each counter is the number of listed runs with
    that status, so that no run is counted as skipped. *)
Theorem suite_run_lists_its_cases (testSuite : TestSuite) (s : State W) :
  browserAvailable D s ->
  exists s' r,
    RunTS.runTestSuite D testSuite s = (s', inr r) /\
    tsr_testSuiteId r = suite_id testSuite /\
    map run_testCaseId (tsr_testRuns r) = map tc_id (suite_testCases testSuite) /\
    Forall settled (tsr_testRuns r) /\
    tsr_passedTests r = withStatus PASSED (tsr_testRuns r) /\
    tsr_failedTests r = withStatus FAILED (tsr_testRuns r) /\
    tsr_blockedTests r = withStatus BLOCKED (tsr_testRuns r) /\
    tsr_skippedTests r = 0.
Proof.
  intros Hav.
  destruct (runTestSuite_records testSuite s Hav)
    as (s' & ts & b & E & _ & Hids & Hsets & _ & _).
  cbv zeta in E. eexists _, _. split; [exact E|].
  destruct (recordAll_fields ts (freshSuiteRun testSuite))
    as (H1 & H2 & H3 & H4 & H5 & H6 & H7 & H8).
  cbn [tsr_testSuiteId tsr_testRuns tsr_passedTests tsr_failedTests tsr_blockedTests
       tsr_skippedTests setSuiteStatus].
  rewrite H1, H2, H5, H6, H7, H8, (withStatus_settled ts Hsets).
  by repeat split.
Qed.

Lemma storeAll_lookup_notin ts (m : gmap string TestRun) k :
  k ∉ map run_testCaseId ts -> storeAll ts m !! k = m !! k.
Proof.
  revert m. induction ts as [|t ts IH]; intros m Hk; [done|].
  unfold storeAll. cbn [foldl]. fold (storeAll ts (<[run_testCaseId t := t]> m)).
  cbn [map] in Hk. apply not_elem_of_cons in Hk as [Hne Hk].
  rewrite (IH _ Hk). by rewrite lookup_insert_ne.
Qed.

Lemma storeAll_app ts1 ts2 (m : gmap string TestRun) :
  storeAll (ts1 ++ ts2) m = storeAll ts2 (storeAll ts1 m).
Proof. unfold storeAll. by rewrite foldl_app. Qed.

Lemma storeAll_lookup_last before t after (m : gmap string TestRun) :
  run_testCaseId t ∉ map run_testCaseId after ->
  storeAll (before ++ t :: after) m !! run_testCaseId t = Some t.
Proof.
  intros Hk. rewrite storeAll_app.
  change (storeAll (t :: after) (storeAll before m))
    with (storeAll after (<[run_testCaseId t := t]> (storeAll before m))).
  rewrite (storeAll_lookup_notin _ _ _ Hk). by rewrite lookup_insert_eq.
Qed.

(** The last run of a list that carries a given case id. *)
Lemma last_run_with_id ts k :
  k ∈ map run_testCaseId ts ->
  exists before t after,
    ts = before ++ t :: after /\ run_testCaseId t = k /\
    k ∉ map run_testCaseId after.
Proof.
  induction ts as [|t ts IH]; cbn [map]; intros Hk.
  - by apply not_elem_of_nil in Hk.
  - destruct (decide (k ∈ map run_testCaseId ts)) as [Hin|Hnot].
    + destruct (IH Hin) as (before & t' & after & -> & Hid & Hafter).
      by exists (t :: before), t', after.
    + apply elem_of_cons in Hk as [->|Hk]; [|done].
      by exists [], t, ts.
Qed.

(** [this.testRuns] lives as long as the crawler.  When [runTestSuite]
    returns, the map is the one it found, overwritten with the runs of the
    suite in the order in which they were listed: an id that is not a case
    of the suite keeps the run it had (a run of an earlier suite still
    satisfies dependencies), and the id of a case holds the last run listed
    for it. *)
Theorem suite_run_stores_its_runs (testSuite : TestSuite) (s : State W) :
  browserAvailable D s ->
  exists s' r,
    RunTS.runTestSuite D testSuite s = (s', inr r) /\
    testRuns s' = storeAll (tsr_testRuns r) (testRuns s) /\
    (forall k, k ∉ map tc_id (suite_testCases testSuite) ->
       testRuns s' !! k = testRuns s !! k) /\
    (forall k, k ∈ map tc_id (suite_testCases testSuite) ->
       exists before t after,
         tsr_testRuns r = before ++ t :: after /\
         run_testCaseId t = k /\
         testRuns s' !! k = Some t /\
         k ∉ map run_testCaseId after).
Proof.
  intros Hav.
  destruct (runTestSuite_records testSuite s Hav)
    as (s' & ts & b & E & _ & Hids & _ & Ht & _).
  cbv zeta in E. eexists _, _. split; [exact E|].
  destruct (recordAll_fields ts (freshSuiteRun testSuite)) as (H1 & _).
  cbn [tsr_testRuns setSuiteStatus]. rewrite H1. cbn [freshSuiteRun tsr_testRuns app].
  split; [exact Ht|]. rewrite <- Hids, Ht. split.
  - intros k Hk. by apply storeAll_lookup_notin.
  - intros k Hk.
    destruct (last_run_with_id ts k Hk) as (before & t & after & -> & <- & Hafter).
    exists before, t, after. split; [done|]. split; [done|].
    split; [by apply storeAll_lookup_last|done].
Qed.
End SuiteRecords.

(** On a healthy browser, the suite of the cases A and B lists a run for A
    and then one for B. *)
Lemma suite_run_lists_its_cases_witness :
  exists s' r,
    RunTS.runTestSuite healthy suiteAB newCrawler = (s', inr r) /\
    map run_testCaseId (tsr_testRuns r) = ["A"; "B"].
Proof.
  destruct (suite_run_lists_its_cases healthy suiteAB newCrawler)
    as (s' & r & E & _ & H & _).
  - simpl. by eexists tt, 1.
  - exists s', r. split; [exact E|exact H].
Defined.

(** A crawler that holds a run of a case Z from an earlier suite still
    holds it after the suite of A and B. *)
Lemma suite_run_stores_its_runs_witness :
  exists s',
    (RunTS.runTestSuite healthy suiteAB earlierZ).1 = s' /\
    testRuns s' !! "Z" = Some (blockedRun caseZ).
Proof.
  destruct (suite_run_stores_its_runs healthy suiteAB earlierZ)
    as (s' & r & E & _ & H & _).
  - simpl. by eexists tt, 1.
  - exists s'. split; [by rewrite E|].
    rewrite H; [reflexivity|].
    apply (bool_decide_unpack _). by vm_compute.
Defined.

(** * The suite runner: status and blocking *)

Section SuiteOutcome.
Context {W : Type} (D : Driver W).
Implicit Types (s : State W) (r : TestSuiteRun) (t : TestRun).

Lemma withStatus_pos st ts :
  0 < withStatus st ts <-> Exists (fun t => run_status t = st) ts.
Proof.
  induction ts as [|t ts IH].
  - split; [unfold withStatus; cbn; lia|]. intros H. by apply Exists_nil in H.
  - rewrite withStatus_cons, Exists_cons.
    destruct (decide (run_status t = st)) as [E|E].
    + split; [by left|lia].
    + rewrite <- IH. split; [intros H; right; lia|intros [?|?]; [done|lia]].
Qed.

Lemma withStatus_le st ts : withStatus st ts <= length ts.
Proof.
  induction ts as [|t ts IH]; [done|].
  rewrite withStatus_cons. cbn [length]. destruct (decide _); lia.
Qed.

Lemma withStatus_all st ts :
  withStatus st ts = length ts <-> Forall (fun t => run_status t = st) ts.
Proof.
  induction ts as [|t ts IH]; [by split|].
  rewrite withStatus_cons, Forall_cons. cbn [length].
  pose proof (withStatus_le st ts).
  destruct (decide (run_status t = st)) as [E|E].
  - rewrite <- IH. split; [intros ?; split; [done|lia]|intros [_ ?]; lia].
  - split; [lia|]. by intros [? _].
Qed.

(** The status of a suite run in terms of the runs it lists.  For every
    suite run that [runTestSuite] returns, the status is FAILED exactly
    when some listed run is FAILED, PASSED exactly when every listed run is
    PASSED (so for a suite with no case), and BLOCKED exactly when no run
    is FAILED and some run is BLOCKED.  The last branch of
    [determineTestSuiteStatus], the FAILED of a run with nothing failed and
    nothing blocked, is never taken for such a run. *)
Theorem suite_status_by_runs (testSuite : TestSuite) (s : State W) :
  browserAvailable D s ->
  exists s' r,
    RunTS.runTestSuite D testSuite s = (s', inr r) /\
    (tsr_status r = FAILED <->
       Exists (fun t => run_status t = FAILED) (tsr_testRuns r)) /\
    (tsr_status r = PASSED <->
       Forall (fun t => run_status t = PASSED) (tsr_testRuns r)) /\
    (tsr_status r = BLOCKED <->
       ~ Exists (fun t => run_status t = FAILED) (tsr_testRuns r) /\
       Exists (fun t => run_status t = BLOCKED) (tsr_testRuns r)) /\
    (tsr_failedTests r = 0 -> tsr_blockedTests r = 0 ->
       tsr_passedTests r = tsr_totalTests r).
Proof.
  intros Hav.
  destruct (runTestSuite_records D testSuite s Hav)
    as (s' & ts & b & E & _ & Hids & Hsets & _ & _).
  cbv zeta in E. eexists _, _. split; [exact E|].
  destruct (recordAll_fields ts (freshSuiteRun testSuite))
    as (H1 & H2 & H3 & H4 & H5 & H6 & H7 & H8).
  cbn [tsr_status tsr_testRuns tsr_passedTests tsr_failedTests tsr_blockedTests
       tsr_totalTests setSuiteStatus].
  unfold derivedStatus. rewrite H1, H3, H5, H6, H7.
  cbn [freshSuiteRun tsr_testRuns tsr_totalTests tsr_passedTests tsr_failedTests
       tsr_blockedTests app Nat.add].
  assert (Hlen : length (suite_testCases testSuite) = length ts).
  { apply (f_equal length) in Hids. by rewrite !length_map in Hids. }
  rewrite Hlen.
  pose proof (withStatus_total ts Hsets) as Hsum.
  pose proof (withStatus_pos FAILED ts) as Hf.
  pose proof (withStatus_pos BLOCKED ts) as Hb.
  pose proof (withStatus_all PASSED ts) as Hp.
  destruct (Nat.ltb_spec 0 (withStatus FAILED ts)) as [Hf1|Hf1].
  { split; [split; [by intros _; apply Hf|done]|].
    split; [split; [done|intros Hall%Hp; lia]|].
    split; [split; [done|intros [Hn _]; exfalso; by apply Hn, Hf]|lia]. }
  destruct (Nat.eqb_spec (withStatus PASSED ts) (length ts)) as [Hp1|Hp1].
  { split; [split; [done|intros ?%Hf; lia]|].
    split; [split; [by intros _; apply Hp|done]|].
    split; [split; [done|intros [_ ?%Hb]; lia]|lia]. }
  destruct (Nat.ltb_spec 0 (withStatus BLOCKED ts)) as [Hb1|Hb1]; [|lia].
  split; [split; [done|intros ?%Hf; lia]|].
  split; [split; [done|intros ?%Hp; lia]|].
  split; [|lia]. split; [|done]. intros _. split; [intros ?%Hf; lia|by apply Hb].
Qed.

(** One turn of the loop, with the gate: the run is BLOCKED exactly when
    the case is not eligible. *)
Lemma runOne_gate testCase s r :
  currentSuiteRun s = Some r ->
  exists s' t,
    RunTS.runOne D testCase s = (s', inr tt) /\
    run_testCaseId t = tc_id testCase /\
    (run_status t = BLOCKED <-> ~ eligibleIn (testRuns s) testCase) /\
    currentSuiteRun s' = Some (pushTestRun t (bump (run_status t) r)) /\
    testRuns s' = <[tc_id testCase := t]> (testRuns s).
Proof.
  intros Hr.
  destruct (canRunTest_spec testCase s) as (eligible & Ecan & Hiff).
  change (dependenciesPassed testCase s) with (eligibleIn (testRuns s) testCase) in Hiff.
  unfold RunTS.runOne. rewrite (bind_inr _ _ _ _ _ Ecan). destruct eligible.
  - destruct (runTestCaseBody_counts D testCase (RunTS.startedRun testCase) s r Hr)
      as (tr' & s1 & st & E & Hst & Hrun & Hc & Hb & Ht).
    pose proof (keepsId_runTestCaseBody D testCase (RunTS.startedRun testCase, s)) as Hid.
    rewrite E in Hid. simpl in Hid.
    eexists _, tr'. split; [by apply (runTestCase_from_body D _ _ _ _ _ E Hc)|].
    simpl. rewrite Hrun, Ht. split; [done|]. split; [|done].
    split.
    + intros ->. destruct Hst; discriminate.
    + intros Hn. exfalso. by apply Hn, Hiff.
  - rewrite (recordBlockedTest_some _ _ r Hr).
    eexists _, (blockedRun testCase). split; [reflexivity|].
    split; [done|]. split; [|done]. split; [|done].
    intros _ He. apply Hiff in He. discriminate.
Qed.

Lemma forEach_runOne_gate cases s r :
  currentSuiteRun s = Some r ->
  exists s' ts,
    forEach (RunTS.runOne D) cases s = (s', inr tt) /\
    currentSuiteRun s' = Some (recordAll ts r) /\
    length ts = length cases /\
    forall i testCase t,
      cases !! i = Some testCase -> ts !! i = Some t ->
      run_testCaseId t = tc_id testCase /\
      (run_status t = BLOCKED <->
         ~ eligibleIn (storeAll (take i ts) (testRuns s)) testCase).
Proof.
  revert s r. induction cases as [|tc cases IH]; intros s r Hr.
  - exists s, []. repeat split; done.
  - destruct (runOne_gate tc s r Hr) as (s1 & t & E1 & Hid & Hgate & Hr1 & Ht1).
    destruct (IH s1 _ Hr1) as (s2 & ts & E2 & Hr2 & Hlen & Hall).
    exists s2, (t :: ts). cbn [forEach]. rewrite (bind_inr _ _ _ _ _ E1).
    split; [exact E2|]. split; [exact Hr2|]. split; [cbn; by rewrite Hlen|].
    intros [|i] testCase t' Hc Hi.
    + injection Hc as <-. injection Hi as <-. by split.
    + cbn [lookup list_lookup] in Hc, Hi.
      replace (storeAll (take (S i) (t :: ts)) (testRuns s))
        with (storeAll (take i ts) (testRuns s1)).
      * by apply Hall.
      * rewrite Ht1, <- Hid. reflexivity.
Qed.

(** Which cases of a suite are blocked.  [runTestSuite] handles the cases
    in the order of the suite, and the run of the i-th case is BLOCKED
    exactly when one of its dependencies has no PASSED run in the map of
    runs as it stands at that point: the map that [runTestSuite] found,
    overwritten with the runs of the first i cases.  So a dependency on a
    case listed later, on a case that failed, or on a case that was itself
    blocked, blocks. *)
Theorem blocking_follows_the_order (testSuite : TestSuite) (s : State W) :
  browserAvailable D s ->
  exists s' r,
    RunTS.runTestSuite D testSuite s = (s', inr r) /\
    length (tsr_testRuns r) = length (suite_testCases testSuite) /\
    forall i testCase t,
      suite_testCases testSuite !! i = Some testCase ->
      tsr_testRuns r !! i = Some t ->
      run_testCaseId t = tc_id testCase /\
      (run_status t = BLOCKED <->
         ~ eligibleIn (storeAll (take i (tsr_testRuns r)) (testRuns s)) testCase).
Proof.
  intros Hav.
  set (s0 := setCurrentSuiteRun (Some (freshSuiteRun testSuite)) s).
  destruct (browserAvailable_ensure D s0 Hav) as (s1 & b & E0 & Hb1 & Hc1 & Ht1).
  destruct (forEach_runOne_gate (suite_testCases testSuite) s1 _ Hc1)
    as (s2 & ts & E2 & Hr2 & Hlen & Hall).
  eexists _, _. split.
  { unfold RunTS.runTestSuite.
    rewrite (bind_inr (modify _) _ s s0 tt) by reflexivity.
    unfold bind at 1. unfold try_finally.
    rewrite (bind_inr _ _ s0 s1 tt E0). rewrite E2.
    unfold finishSuiteRun, determineTestSuiteStatus. rewrite Hr2.
    cbn [fst snd currentSuiteRun setCurrentSuiteRun]. reflexivity. }
  destruct (recordAll_fields ts (freshSuiteRun testSuite)) as (H1 & _).
  cbn [tsr_testRuns setSuiteStatus]. rewrite H1. cbn [freshSuiteRun tsr_testRuns app].
  split; [exact Hlen|]. intros i testCase t Hc Hi.
  specialize (Hall i testCase t Hc Hi). rewrite Ht1 in Hall. exact Hall.
Qed.
End SuiteOutcome.

(** Case B depends on A.  In the suite of A and B on a healthy browser A
    passes and B runs; in the suite of B and A, B comes first and is
    blocked. *)
Lemma blocking_follows_the_order_witness :
  exists r,
    (RunTS.runTestSuite healthy suiteBA newCrawler).2 = inr r /\
    map run_status (tsr_testRuns r) = [BLOCKED; PASSED] /\
    tsr_status r = BLOCKED.
Proof.
  destruct (blocking_follows_the_order healthy suiteBA newCrawler)
    as (s' & r & E & _ & _).
  - simpl. by eexists tt, 1.
  - exists r. rewrite E. split; [reflexivity|].
    revert E. vm_compute. by intros [= <- <-].
Defined.

(** The suite of A and B on a healthy browser: both runs PASSED, and so is
    the suite. *)
Lemma suite_status_by_runs_witness :
  exists r,
    (RunTS.runTestSuite healthy suiteAB newCrawler).2 = inr r /\
    tsr_status r = PASSED.
Proof.
  destruct (suite_status_by_runs healthy suiteAB newCrawler)
    as (s' & r & E & _ & Hp & _).
  - simpl. by eexists tt, 1.
  - exists r. rewrite E. split; [reflexivity|].
    revert E. vm_compute. by intros [= <- <-].
Defined.

(** * Several suites *)

Section SuitesFacts.
Context {W : Type} (C : Chromium W).
Implicit Types (s : State W) (r : TestSuiteRun).

(** [runTestSuite] returns a complete run of the suite, and leaves the
    browser in place. *)
Lemma runTestSuite_runOf testSuite s :
  browserAvailable (pages C) s ->
  exists s' r b,
    RunTS.runTestSuite (pages C) testSuite s = (s', inr r) /\
    runOf testSuite r /\
    browser s' = Some b.
Proof.
  intros Hav.
  destruct (runTestSuite_records (pages C) testSuite s Hav)
    as (s' & ts & b & E & _ & Hids & Hsets & _ & Hb).
  cbv zeta in E. eexists _, _, b. split; [exact E|]. split; [|exact Hb].
  destruct (recordAll_fields ts (freshSuiteRun testSuite))
    as (H1 & H2 & H3 & H4 & H5 & H6 & H7 & H8).
  unfold runOf, counted.
  cbn [tsr_testSuiteId tsr_testRuns tsr_totalTests tsr_passedTests tsr_failedTests
       tsr_blockedTests tsr_skippedTests tsr_status setSuiteStatus].
  rewrite H1, H2, H3, H5, H6, H7, H8, (withStatus_settled ts Hsets).
  cbn [freshSuiteRun tsr_testSuiteId tsr_testRuns tsr_totalTests tsr_passedTests
       tsr_failedTests tsr_blockedTests tsr_skippedTests app].
  split; [done|]. split; [done|]. split; [done|].
  split; [|apply terminal_derivedStatus].
  pose proof (withStatus_total ts Hsets) as Hsum.
  apply (f_equal length) in Hids. rewrite !length_map in Hids. lia.
Qed.

Lemma runSuites_runOf testSuites acc s b :
  browser s = Some b ->
  exists s' rs b',
    RunTS.runSuites C testSuites acc s = (s', inr (acc ++ rs)) /\
    Forall2 runOf testSuites rs /\
    browser s' = Some b'.
Proof.
  revert acc s b. induction testSuites as [|suite rest IH]; intros acc s b Hb.
  - exists s, [], b. rewrite app_nil_r. by repeat split.
  - destruct (runTestSuite_runOf suite s) as (s1 & r & b1 & E1 & Hr & Hb1).
    { unfold browserAvailable. by rewrite Hb. }
    destruct (IH (acc ++ [r]) s1 b1 Hb1) as (s2 & rs & b2 & E2 & Hrs & Hb2).
    exists s2, (r :: rs), b2. cbn [RunTS.runSuites].
    rewrite (bind_inr _ _ _ _ _ E1), E2, <- app_assoc.
    split; [done|]. split; [by constructor|done].
Qed.

(** The [try] block of [runAllTestSuites]. *)
Lemma runAll_try testSuites s :
  browserAvailable (pages C) s ->
  exists s1 rs b,
    try_catch
      (run RunTS.ensureBrowser (pages C);
       do suiteRuns <- RunTS.runSuites C testSuites [];
       ret suiteRuns)
      (fun error => throw error) s = (s1, inr rs) /\
    Forall2 runOf testSuites rs /\
    browser s1 = Some b.
Proof.
  intros Hav.
  destruct (browserAvailable_ensure (pages C) s Hav) as (s0 & b & E0 & Hb0 & _ & _).
  destruct (runSuites_runOf testSuites [] s0 b Hb0) as (s1 & rs & b1 & E1 & Hrs & Hb1).
  exists s1, rs, b1. split; [|done].
  apply try_catch_inr.
  rewrite (bind_inr _ _ _ _ _ E0), (bind_inr _ _ _ _ _ E1). reflexivity.
Qed.

(** When the browser is there or can be launched, [runAllTestSuites] runs
    every suite: what it hands to [cleanup] is one complete run per suite,
    in the order of the suites.  It returns these runs when the browser
    closes, and throws the error of [browser.close()] otherwise. *)
Theorem run_all_returns_a_run_per_suite (testSuites : list TestSuite) (s : State W) :
  browserAvailable (pages C) s ->
  exists s1 rs b,
    Forall2 runOf testSuites rs /\
    browser s1 = Some b /\
    RunTS.runAllTestSuites C testSuites s =
      match browser_close C b (world s1) with
      | (w', inr _) =>
          (mkState None (currentSuiteRun s1) (testRuns s1) w' (trace s1), inr rs)
      | (w', inl e) =>
          (mkState (Some b) (currentSuiteRun s1) (testRuns s1) w' (trace s1), inl e)
      end.
Proof.
  intros Hav. destruct (runAll_try testSuites s Hav) as (s1 & rs & b & E & Hrs & Hb).
  exists s1, rs, b. split; [exact Hrs|]. split; [exact Hb|].
  unfold RunTS.runAllTestSuites, try_finally. rewrite E.
  unfold RunTS.cleanup. rewrite Hb.
  unfold bind, RunTS.closeBrowser, modify, setBrowser. rewrite Hb.
  by destruct (browser_close C b (world s1)) as [w' [e|[]]].
Qed.

(** [cleanup] on a crawler that holds a browser that closes. *)
Lemma cleanup_closes s b :
  closes C -> browser s = Some b ->
  exists s', RunTS.cleanup C s = (s', inr tt) /\ browser s' = None.
Proof.
  intros Hcl Hb. unfold RunTS.cleanup. rewrite Hb.
  unfold bind, RunTS.closeBrowser, modify, setBrowser.
  destruct (Hcl b (world s)) as [w' ->]. by eexists.
Qed.

(** [runAllTestSuites] never leaves a browser behind: whatever the suites
    and whatever happens while they run, afterwards the crawler holds no
    browser, unless [browser.close()] itself failed, and then the error of
    [close] is what [runAllTestSuites] throws. *)
Theorem run_all_leaves_no_browser (testSuites : list TestSuite) (s : State W) :
  let out := RunTS.runAllTestSuites C testSuites s in
  browser out.1 = None \/
  exists b w w' e, browser_close C b w = (w', inl e) /\ out.2 = inl e.
Proof.
  cbv zeta. unfold RunTS.runAllTestSuites, try_finally.
  match goal with |- context [try_catch ?m ?h s] => destruct (try_catch m h s) as [s1 r1] end.
  unfold RunTS.cleanup. destruct (browser s1) as [b|] eqn:Hb.
  - unfold bind, RunTS.closeBrowser, modify, setBrowser.
    destruct (browser_close C b (world s1)) as [w' [e|[]]] eqn:Ec.
    + right. by exists b, (world s1), w', e.
    + by left.
  - by left.
Qed.

Lemma foldl_sum {X} (g : X -> nat) (l : list X) (a : nat) :
  foldl (fun sum x => sum + g x) a l = a + sum_list (map g l).
Proof.
  revert a. induction l as [|x l IH]; intros a; simpl; [lia|].
  rewrite IH. lia.
Qed.

Lemma runOf_totals testSuites rs :
  Forall2 runOf testSuites rs ->
  sum_list (map tsr_totalTests rs) =
    sum_list (map (fun suite => length (suite_testCases suite)) testSuites) /\
  sum_list (map tsr_passedTests rs) + sum_list (map tsr_failedTests rs)
    + sum_list (map tsr_blockedTests rs) + sum_list (map tsr_skippedTests rs)
    = sum_list (map tsr_totalTests rs).
Proof.
  induction 1 as [|suite r suites rs (_ & _ & Ht & Hc & _) _ [IH1 IH2]];
    simpl; [done|].
  unfold counted in Hc. split; lia.
Qed.

Lemma filter_statuses (rs : list TestSuiteRun) :
  length (filter (fun r => tsr_status r = PASSED) rs)
    + length (filter (fun r => tsr_status r = FAILED) rs) <= length rs.
Proof.
  induction rs as [|r rs IH]; [done|].
  rewrite !filter_cons. cbn [length].
  destruct (decide (tsr_status r = PASSED)) as [E|];
    destruct (decide (tsr_status r = FAILED)); cbn [length]; try lia.
  congruence.
Qed.

(** The summary that [POST /run-all] sends with the runs adds up.  For the
    runs that [runAllTestSuites] returns, [totalSuites] is the number of
    suites given, [totalTests] the number of their cases, and the passed,
    failed, blocked and skipped cases together are [totalTests]; the passed
    and the failed suites are at most [totalSuites] (a BLOCKED suite is
    counted as neither). *)
Theorem summary_adds_up (testSuites : list TestSuite) (s : State W)
    (suiteRuns : list TestSuiteRun) :
  browserAvailable (pages C) s ->
  (RunTS.runAllTestSuites C testSuites s).2 = inr suiteRuns ->
  let summary := RunTS.getAllSuitesSummary suiteRuns in
  RunTS.totalSuites summary = length testSuites /\
  RunTS.totalTests summary =
    sum_list (map (fun suite => length (suite_testCases suite)) testSuites) /\
  RunTS.passedTests summary + RunTS.failedTests summary
    + RunTS.blockedTests summary + RunTS.skippedTests summary
    = RunTS.totalTests summary /\
  RunTS.passedSuites summary + RunTS.failedSuites summary <= RunTS.totalSuites summary.
Proof.
  intros Hav Hout.
  destruct (runAll_try testSuites s Hav) as (s1 & rs & b & E & Hrs & Hb).
  assert (suiteRuns = rs) as ->.
  { revert Hout. unfold RunTS.runAllTestSuites, try_finally. rewrite E.
    destruct (RunTS.cleanup C s1) as [s2 [e|[]]]; cbn [snd]; congruence. }
  destruct (runOf_totals testSuites rs Hrs) as [H1 H2].
  cbv zeta. unfold RunTS.getAllSuitesSummary.
  cbn [RunTS.totalSuites RunTS.totalTests RunTS.passedTests RunTS.failedTests
       RunTS.blockedTests RunTS.skippedTests RunTS.passedSuites RunTS.failedSuites].
  rewrite !foldl_sum. cbn [Nat.add].
  split; [symmetry; by eapply Forall2_length|].
  split; [exact H1|]. split; [exact H2|]. apply filter_statuses.
Qed.

(** [find] skips the suites that carry another id. *)
Lemma find_first_with_id (suiteId : string) (before rest : list TestSuite) :
  Forall (fun earlier => suite_id earlier <> suiteId) before ->
  List.find (fun x => same (suite_id x) suiteId) (before ++ rest) =
  List.find (fun x => same (suite_id x) suiteId) rest.
Proof.
  induction 1 as [|x before Hx _ IH]; [done|].
  cbn [app List.find]. unfold same at 1.
  by destruct (String.eqb_spec (suite_id x) suiteId).
Qed.

(** [runTestSuiteById] runs the first suite that carries the id, as
    [runTestSuite] does; when no suite carries it, it throws the error
    that names the id, and the crawler and the world are as before (no
    browser is launched, no suite run is started). *)
Theorem suite_by_id (testSuites : list TestSuite) (suiteId : string) (s : State W) :
  (Forall (fun suite => suite_id suite <> suiteId) testSuites ->
     RunTS.runTestSuiteById C testSuites suiteId s =
       (s, inl (mkError ("Test suite with ID " +:+ suiteId +:+ " not found")))) /\
  (forall before suite after,
     testSuites = before ++ suite :: after ->
     Forall (fun earlier => suite_id earlier <> suiteId) before ->
     suite_id suite = suiteId ->
     RunTS.runTestSuiteById C testSuites suiteId s =
       RunTS.runTestSuite (pages C) suite s).
Proof.
  split.
  - intros Hall. unfold RunTS.runTestSuiteById.
    rewrite <- (app_nil_r testSuites), (find_first_with_id _ _ [] Hall). reflexivity.
  - intros before suite after -> Hbefore Hid. unfold RunTS.runTestSuiteById.
    rewrite (find_first_with_id _ _ _ Hbefore). cbn [List.find]. unfold same.
    rewrite Hid, String.eqb_refl.
    unfold try_catch, bind, ret, throw.
    by destruct (RunTS.runTestSuite (pages C) suite s) as [s' [e|r]].
Qed.

(** ** The handlers of the test-runner router *)

(** [POST /run-all] never throws and sends exactly one reply.  A body whose
    [testSuites] is not an array is answered 400, and the crawler is not
    touched.  Otherwise the crawler runs all suites: the reply is 200 with
    the runs and the summary of these very runs, or 500 with the message of
    the error that [runAllTestSuites] threw.  When the browser is there or
    can be launched, and closes, the reply is 200 with one complete run per
    suite, and the crawler is left without browser. *)
Theorem run_all_route (field : Routes.Field) (v : Routes.Server W) :
  exists reply crawler',
    Routes.runAll C field v =
      (Routes.mkServer crawler' (Routes.sent v ++ [reply]), inr tt) /\
    (field = Routes.notAnArray ->
       reply = Routes.mkReply 400
                 (Routes.errorBody "Invalid request body. Expected testSuites array") /\
       crawler' = Routes.crawler v) /\
    (forall testSuites, field = Routes.array testSuites ->
       crawler' = (RunTS.runAllTestSuites C testSuites (Routes.crawler v)).1 /\
       reply =
         match (RunTS.runAllTestSuites C testSuites (Routes.crawler v)).2 with
         | inr suiteRuns =>
             Routes.mkReply 200
               (Routes.runAllBody suiteRuns (RunTS.getAllSuitesSummary suiteRuns))
         | inl e => Routes.mkReply 500 (Routes.errorBody (err_message e))
         end) /\
    (forall testSuites, field = Routes.array testSuites ->
       browserAvailable (pages C) (Routes.crawler v) -> closes C ->
       exists suiteRuns,
         reply = Routes.mkReply 200
                   (Routes.runAllBody suiteRuns (RunTS.getAllSuitesSummary suiteRuns)) /\
         Forall2 runOf testSuites suiteRuns /\
         browser crawler' = None).
Proof.
  destruct field as [|testSuites].
  - eexists _, _. split; [reflexivity|]. split; [done|]. split; intros; discriminate.
  - destruct (RunTS.runAllTestSuites C testSuites (Routes.crawler v)) as [s' [e|rs]] eqn:E.
    + exists (Routes.mkReply 500 (Routes.errorBody (err_message e))), s'. split.
      { unfold Routes.runAll, try_catch, bind, Routes.onCrawler. by rewrite E. }
      split; [done|]. split.
      * intros ? [= <-]. by rewrite E.
      * intros ? [= <-] Hav Hcl. exfalso. revert E.
        destruct (runAll_try testSuites (Routes.crawler v) Hav)
          as (s1 & rs & b & E' & _ & Hb).
        destruct (cleanup_closes s1 b Hcl Hb) as (s2 & Ec & _).
        unfold RunTS.runAllTestSuites, try_finally. by rewrite E', Ec.
    + exists (Routes.mkReply 200 (Routes.runAllBody rs (RunTS.getAllSuitesSummary rs))), s'.
      split.
      { unfold Routes.runAll, try_catch, bind, Routes.onCrawler. by rewrite E. }
      split; [done|]. split.
      * intros ? [= <-]. by rewrite E.
      * intros ? [= <-] Hav Hcl. exists rs. split; [done|]. revert E.
        destruct (runAll_try testSuites (Routes.crawler v) Hav)
          as (s1 & rs' & b & E' & Hrs & Hb).
        destruct (cleanup_closes s1 b Hcl Hb) as (s2 & Ec & Hnone).
        unfold RunTS.runAllTestSuites, try_finally. rewrite E', Ec.
        by intros [= <- <-].
Qed.

(** [POST /run-suite/:suiteId] never throws and sends exactly one reply.
    When no suite of the body carries the id, the reply is 500 with the
    message that names the id, and the crawler is not touched.  When one
    does and the browser is there or can be launched, the reply is 200 with
    a complete run of the first such suite and the summary of that run, and
    the crawler keeps its browser for the request that comes next. *)
Theorem run_suite_route (suiteId : string) (testSuites : list TestSuite)
    (v : Routes.Server W) :
  exists reply crawler',
    Routes.runSuite C suiteId testSuites v =
      (Routes.mkServer crawler' (Routes.sent v ++ [reply]), inr tt) /\
    (Forall (fun suite => suite_id suite <> suiteId) testSuites ->
       reply = Routes.mkReply 500
                 (Routes.errorBody ("Test suite with ID " +:+ suiteId +:+ " not found")) /\
       crawler' = Routes.crawler v) /\
    (forall before suite after,
       testSuites = before ++ suite :: after ->
       Forall (fun earlier => suite_id earlier <> suiteId) before ->
       suite_id suite = suiteId ->
       browserAvailable (pages C) (Routes.crawler v) ->
       exists suiteRun,
         reply = Routes.mkReply 200
                   (Routes.runSuiteBody suiteRun (RunTS.getSuiteSummary suiteRun)) /\
         runOf suite suiteRun /\
         RunTS.sum_totalTests (RunTS.getSuiteSummary suiteRun)
           = length (suite_testCases suite) /\
         browser crawler' <> None).
Proof.
  assert (Hfound : forall before suite after,
            testSuites = before ++ suite :: after ->
            Forall (fun earlier => suite_id earlier <> suiteId) before ->
            suite_id suite = suiteId ->
            RunTS.runTestSuiteById C testSuites suiteId (Routes.crawler v) =
              RunTS.runTestSuite (pages C) suite (Routes.crawler v)).
  { intros before suite after -> Hbefore Hid. unfold RunTS.runTestSuiteById.
    rewrite (find_first_with_id _ _ _ Hbefore). cbn [List.find]. unfold same.
    rewrite Hid, String.eqb_refl.
    unfold try_catch, bind, ret, throw.
    by destruct (RunTS.runTestSuite (pages C) suite (Routes.crawler v)) as [s' [e|r]]. }
  assert (Hmiss : Forall (fun suite => suite_id suite <> suiteId) testSuites ->
            RunTS.runTestSuiteById C testSuites suiteId (Routes.crawler v) =
              (Routes.crawler v,
               inl (mkError ("Test suite with ID " +:+ suiteId +:+ " not found")))).
  { intros Hall. unfold RunTS.runTestSuiteById.
    rewrite <- (app_nil_r testSuites), (find_first_with_id _ _ [] Hall). reflexivity. }
  destruct (RunTS.runTestSuiteById C testSuites suiteId (Routes.crawler v))
    as [s' [e|r]] eqn:E.
  - exists (Routes.mkReply 500 (Routes.errorBody (err_message e))), s'. split.
    { unfold Routes.runSuite, try_catch, bind, Routes.onCrawler. by rewrite E. }
    split.
    + intros Hall. specialize (Hmiss Hall). by injection Hmiss as -> ->.
    + intros before suite after Hsplit Hbefore Hid Hav.
      pose proof (Hfound _ _ _ Hsplit Hbefore Hid) as Hf.
      destruct (runTestSuite_runOf suite (Routes.crawler v) Hav) as (? & ? & ? & E' & _).
      rewrite E' in Hf. discriminate Hf.
  - exists (Routes.mkReply 200 (Routes.runSuiteBody r (RunTS.getSuiteSummary r))), s'. split.
    { unfold Routes.runSuite, try_catch, bind, Routes.onCrawler. by rewrite E. }
    split.
    + intros Hall. specialize (Hmiss Hall). discriminate.
    + intros before suite after Hsplit Hbefore Hid Hav.
      pose proof (Hfound _ _ _ Hsplit Hbefore Hid) as Hf.
      destruct (runTestSuite_runOf suite (Routes.crawler v) Hav)
        as (s2 & r2 & b & E' & Hrun & Hb).
      rewrite E' in Hf. injection Hf as -> ->.
      exists r2. split; [done|]. split; [done|].
      split; [by destruct Hrun as (_ & _ & ? & _)|]. by rewrite Hb.
Qed.
End SuitesFacts.

(** Two suites on a healthy browser that closes: two runs come back, and
    the crawler holds no browser. *)
Lemma run_all_returns_a_run_per_suite_witness :
  exists s' rs,
    RunTS.runAllTestSuites (closing healthy) [suiteAB; suiteZ] newCrawler = (s', inr rs) /\
    length rs = 2 /\ browser s' = None.
Proof.
  destruct (run_all_returns_a_run_per_suite (closing healthy) [suiteAB; suiteZ] newCrawler)
    as (s1 & rs & b & Hrs & Hb & E).
  - simpl. by eexists tt, 1.
  - cbn [closing browser_close] in E. eexists _, rs. split; [exact E|].
    split; [|reflexivity]. symmetry. exact (Forall2_length _ _ _ Hrs).
Defined.

(** The summary of the two suites: three cases in two suites. *)
Lemma summary_adds_up_witness :
  exists rs,
    (RunTS.runAllTestSuites (closing healthy) [suiteAB; suiteZ] newCrawler).2 = inr rs /\
    RunTS.totalTests (RunTS.getAllSuitesSummary rs) = 3.
Proof.
  eexists. split; [vm_compute; reflexivity|].
  refine (proj1 (proj2 (summary_adds_up (closing healthy) [suiteAB; suiteZ] newCrawler _ _ _))).
  - simpl. by eexists tt, 1.
  - vm_compute. reflexivity.
Defined.

(** * Steps and assertions that never reach the page *)

(** Membership in an explicit list. *)
Ltac in_list :=
  repeat first [ apply list_elem_of_here | apply list_elem_of_further ].

(** Decides the comparisons of a [switch] on a string that is none of the
    cases. *)
Ltac not_a_case Hnot :=
  unfold same;
  repeat match goal with
  | |- context [String.eqb ?t ?c] =>
      destruct (String.eqb_spec t c) as [E|_];
        [exfalso; apply Hnot; rewrite E; in_list|]
  end.

Section NoCall.
Context {W : Type} (D : Driver W).
Implicit Types (s : State W).

(** In src/services/runTScrawler.ts a step must carry a selector, whatever
    its action: [executeStep] resolves the selector first, and on a step
    without one (a [navigate] step as the API documentation shows it) this
    throws a TypeError before any call is made.  A case whose first step
    has no selector therefore ends FAILED once its page is open: the only
    call after [newPage] is the screenshot, no step and no assertion is
    executed. *)
Theorem step_without_selector_fails (testCase : TestCase) (step : Step)
    (rest : list Step) (s s1 : State W) (r : TestSuiteRun) (b : Browser) (page : Page) :
  step_selector step = None ->
  (forall p s0,
     RunTS.executeStep D p step s0 = (s0, inl (TypeError "undefined" "type"))) /\
  (tc_steps testCase = step :: rest ->
   currentSuiteRun s = Some r ->
   browser s = Some b ->
   call D (NewPage b) s = (s1, inr page) ->
   exists s' t,
     RunTS.runTestCase D testCase s = (s', inr tt) /\
     testRuns s' !! tc_id testCase = Some t /\
     run_status t = FAILED /\
     logs_assertions (run_logs t) = [] /\
     trace s' = trace s ++ [any (NewPage b); any (Screenshot page)] /\
     match (RunTS.captureScreenshot D page s1).2 with
     | inr _ =>
         run_errorMessage t =
           Some "Cannot read properties of undefined (reading 'type')" /\
         logs_steps (run_logs t) =
           [mkStepLog (step_id step) false
              (Some "Cannot read properties of undefined (reading 'type')")]
     | inl e' =>
         run_errorMessage t = Some (err_message e') /\ logs_steps (run_logs t) = []
     end).
Proof.
  intros Hsel.
  assert (Hthrow : forall p s0,
            RunTS.executeStep D p step s0 = (s0, inl (TypeError "undefined" "type"))).
  { intros p s0. unfold RunTS.executeStep. by rewrite Hsel. }
  split; [exact Hthrow|]. intros Hsteps Hr Hb Hpage.
  pose proof (call_trace D (NewPage b) s) as Htr1. rewrite Hpage in Htr1. simpl in Htr1.
  destruct (runTestCase_page_open D testCase s s1 r b page Hr Hb Hpage)
    as [(done & step' & rest' & sa & sb & e & sc & shot & s' & t & Hsplit & Hin & Ef
          & Es & E & Hl & Hst & Ha & _ & Htr & Hshot)
       |(sa & sb & outs & sc & closed & s' & t & Hin & _)].
  - rewrite Hsteps in Hsplit. destruct done as [|d done].
    + injection Hsplit as <- <-. inversion Hin; subst.
      rewrite Hthrow in Ef. injection Ef as <- <-.
      exists s', t. split; [exact E|]. split; [exact Hl|]. split; [exact Hst|].
      split; [exact Ha|]. split; [by rewrite Htr, Htr1, <- app_assoc|].
      rewrite Es. cbn [snd]. destruct shot as [e'|data].
      * destruct Hshot as (_ & Hlog & Hmsg). by split.
      * destruct Hshot as (_ & Hlog & Hmsg). by split.
    + injection Hsplit as <- _. inversion Hin as [|x xs s2 s3 s4 Hx _]; subst.
      rewrite Hthrow in Hx. discriminate.
  - rewrite Hsteps in Hin. inversion Hin as [|x xs s2 s3 s4 Hx _]; subst.
    rewrite Hthrow in Hx. discriminate.
Qed.

(** The actions that the step executors know.  The first revision executes
    [navigate], [click], [type] and [wait]; the later one also [select].
    Any other action of a step (and [select] in the first revision) throws
    "Unsupported action", and no call has been made. *)
Theorem unsupported_actions (page : Page) (step : Step) (s : State W) :
  (step_selector step <> None ->
   step_action step ∉ ["navigate"; "click"; "type"; "wait"] ->
   RunTS.executeStep D page step s =
     (s, inl (mkError ("Unsupported action: " +:+ step_action step)))) /\
  (step_action step ∉ ["navigate"; "click"; "type"; "select"; "wait"] ->
   RunTSFull.executeStep D page step s =
     (s, inl (mkError ("Unsupported action: " +:+ step_action step)))).
Proof.
  split.
  - intros Hsel Hnot. unfold RunTS.executeStep.
    destruct (step_selector step) as [sel|]; [|done].
    unfold bind, liftR, RunTS.buildSelector. not_a_case Hnot. reflexivity.
  - intros Hnot. unfold RunTSFull.executeStep. cbv zeta.
    not_a_case Hnot. reflexivity.
Qed.

(** In the later revision three kinds of assertion are decided without any
    call on the page.  [urlEquals] passes exactly when the URL of the page
    is the expected value; [textContains] with no (or an empty) expected
    value throws before the text is read; and an assertion type other than
    [elementExists], [elementVisible], [urlEquals] and [textContains]
    throws "Unsupported assertion type". *)
Theorem assertions_decided_without_the_page (page : Page) (a : Assertion) (s : State W) :
  (assertion_type a = "urlEquals" ->
   RunTSFull.executeAssertion D page a s =
     (s, if decide (assertion_expectedValue a = Some (page_url D page (world s)))
         then inr tt
         else inl (mkError ("URL mismatch. Expected: "
                            +:+ show_undef (assertion_expectedValue a)
                            +:+ ", Found: " +:+ page_url D page (world s))))) /\
  (assertion_type a = "textContains" ->
   truthy (assertion_expectedValue a) = false ->
   RunTSFull.executeAssertion D page a s =
     (s, inl (mkError "Expected value not provided for textContains assertion"))) /\
  (assertion_type a ∉ ["elementExists"; "elementVisible"; "urlEquals"; "textContains"] ->
   RunTSFull.executeAssertion D page a s =
     (s, inl (mkError ("Unsupported assertion type: " +:+ assertion_type a)))).
Proof.
  split; [|split].
  - intros Hty. unfold RunTSFull.executeAssertion. cbv zeta. rewrite Hty.
    cbn [same String.eqb Ascii.eqb Bool.eqb]. unfold bind, gets.
    destruct (assertion_expectedValue a) as [e|]; cbn [show_undef default].
    + destruct (String.eqb_spec (page_url D page (world s)) e) as [->|Hne].
      * by rewrite decide_True.
      * rewrite decide_False; [done|]. congruence.
    + by rewrite decide_False.
  - intros Hty Hexp. unfold RunTSFull.executeAssertion. cbv zeta. rewrite Hty, Hexp.
    reflexivity.
  - intros Hnot. unfold RunTSFull.executeAssertion. cbv zeta.
    not_a_case Hnot. reflexivity.
Qed.

(** In the first revision only three assertion types are checked.  The
    [switch] of [executeAssertion] has no [default]: an assertion of any
    type other than [elementExists], [elementVisible] and [textEquals]
    (a [textContains], [urlContains] or [pageTitle] assertion, say)
    returns at once, with or without selector and with no call on the
    page.  The loop of [runTestCase] adds one entry to [logs.assertions]
    for each such assertion, with its id and [success: true], changes
    nothing else of the test run, and does not set [assertionsFailed]. *)
Theorem unchecked_assertions_pass (page : Page) (unchecked rest : list Assertion)
    (failed : bool) (tr : TestRun) (s : State W) :
  Forall (fun a => assertion_type a ∉ ["elementExists"; "elementVisible"; "textEquals"])
         unchecked ->
  (forall a, a ∈ unchecked -> RunTS.executeAssertion D page a s = (s, inr tt)) /\
  (exists tr',
     RunTS.runAssertions D page (unchecked ++ rest) failed (tr, s) =
       RunTS.runAssertions D page rest failed (tr', s) /\
     logs_assertions (run_logs tr') =
       logs_assertions (run_logs tr) ++
       map (fun a => mkAssertionLog (assertion_id a) true None) unchecked /\
     sameButAssertionLog tr tr') /\
  (exists tr',
     RunTS.runAssertions D page unchecked failed (tr, s) = ((tr', s), inr failed) /\
     logs_assertions (run_logs tr') =
       logs_assertions (run_logs tr) ++
       map (fun a => mkAssertionLog (assertion_id a) true None) unchecked /\
     sameButAssertionLog tr tr').
Proof.
  intros Hnot.
  assert (H1 : forall a, a ∈ unchecked ->
                 RunTS.executeAssertion D page a s = (s, inr tt)).
  { intros a Ha. rewrite Forall_forall in Hnot. specialize (Hnot a Ha).
    unfold RunTS.executeAssertion.
    destruct (assertion_selector a) as [sel|]; [|done].
    unfold bind, liftR, RunTS.buildSelector. not_a_case Hnot. reflexivity. }
  split; [exact H1|]. split.
  - by apply runAssertions_unchecked.
  - destruct (runAssertions_unchecked D page unchecked [] failed tr s H1)
      as (tr' & Hrun & Hlog & Hsame).
    rewrite app_nil_r in Hrun. by exists tr'.
Qed.
End NoCall.

(** A [textContains] assertion on a heading is logged as passed,
    unchecked. *)
Lemma unchecked_assertions_pass_witness :
  RunTS.executeAssertion healthy 7 containsAssertion midRun = (midRun, inr tt) /\
  exists tr',
    RunTS.runAssertions healthy 7 [containsAssertion] false
      (RunTS.startedRun caseA, midRun) = ((tr', midRun), inr false) /\
    logs_assertions (run_logs tr') = [mkAssertionLog "a3" true None].
Proof.
  destruct (unchecked_assertions_pass healthy 7 [containsAssertion] [] false
              (RunTS.startedRun caseA) midRun)
    as (Hexec & _ & (tr' & E & Hlog & _)).
  - constructor; [|constructor]. apply (bool_decide_unpack _). by vm_compute.
  - split; [apply Hexec; by left|].
    exists tr'. split; [exact E|exact Hlog].
Defined.

(** The documented [navigate] step has no selector: its case ends FAILED. *)
Lemma step_without_selector_fails_witness :
  exists s' t,
    RunTS.runTestCase healthy caseN midRun = (s', inr tt) /\
    testRuns s' !! "N" = Some t /\
    run_status t = FAILED.
Proof.
  destruct (step_without_selector_fails healthy caseN navigateStep [] midRun pageOpen
              (mkTestSuiteRun "suite" RUNNING 1 0 0 0 0 []) 1 7 eq_refl) as [_ H].
  destruct H as (s' & t & E & Hl & Hs & _); try reflexivity.
  by exists s', t.
Defined.

(** * The later revision: values, unopened pages and logs *)

Section FullFacts.
Context {W : Type} (D : Driver W).
Implicit Types (s : State W) (f : @Frame W) (tr : TestRun).

(** Where the value of a step comes from in the later revision.  It is the
    literal [value] of the step when that is not empty.  The fixture table
    ([valid] or [invalid], by [useValidData]) is consulted only when the
    value is absent or empty, and it is indexed by that very value: the
    only entries that can ever be found are the one under the key
    "undefined" (value absent) and the one under the empty key (value
    empty). *)
Theorem fixture_is_keyed_by_the_value (step : Step) (v : string) :
  RunTSFull.resolveValue step = Some v <->
  (step_value step = Some v /\ v <> "") \/
  (exists testData tbl key,
     (step_value step = None /\ key = "undefined" \/
      step_value step = Some "" /\ key = "") /\
     step_testData step = Some testData /\
     (if step_useValidData step then td_valid testData else td_invalid testData)
       = Some tbl /\
     tbl !! key = Some v /\ v <> "").
Proof.
  unfold RunTSFull.resolveValue, RunTSFull.getValueFromTestData, RunTSFull.fixtureKey.
  assert (Hfix : forall m key,
            RunTSFull.fixture m key = Some v <->
            exists tbl, m = Some tbl /\ tbl !! key = Some v /\ v <> "").
  { intros m key. unfold RunTSFull.fixture. destruct m as [tbl|].
    - destruct (tbl !! key) as [x|] eqn:Ex.
      + destruct (truthy (Some x)) eqn:Hx.
        * apply truthy_Some in Hx. split.
          -- intros [= ->]. by exists tbl.
          -- intros (? & [= <-] & Hk & _). congruence.
        * split; [done|]. intros (? & [= <-] & Hk & Hv).
          rewrite Hk in Ex. injection Ex as ->.
          apply truthy_Some in Hv. congruence.
      + split; [done|]. intros (? & [= <-] & Hk & _). congruence.
    - split; [done|]. by intros (? & ? & _). }
  destruct (step_value step) as [x|] eqn:Hval.
  - destruct (truthy (Some x)) eqn:Hx.
    + apply truthy_Some in Hx. split.
      * intros [= ->]. by left.
      * intros [[[= ->] _]|(? & ? & ? & [[? _]|[[= ->] _]] & _)]; done.
    + assert (x = "") as ->.
      { destruct (String.eqb_spec x ""); [done|].
        apply truthy_Some in n. congruence. }
      cbn [default]. destruct (step_testData step) as [testData|].
      * destruct (step_useValidData step); rewrite Hfix; split.
        -- intros (tbl & Ht & Hk & Hv). right. exists testData, tbl, "". eauto 10.
        -- intros [[[= <-] Hv]|(td & tbl & key & [[? _]|[_ ->]] & [= <-] & Ht & Hk & Hv)];
             [done|done|]. by exists tbl.
        -- intros (tbl & Ht & Hk & Hv). right. exists testData, tbl, "". eauto 10.
        -- intros [[[= <-] Hv]|(td & tbl & key & [[? _]|[_ ->]] & [= <-] & Ht & Hk & Hv)];
             [done|done|]. by exists tbl.
      * split; [done|].
        intros [[[= <-] Hv]|(td & tbl & key & _ & ? & _)]; done.
  - cbn [truthy default]. destruct (step_testData step) as [testData|].
    + destruct (step_useValidData step); rewrite Hfix; split.
      * intros (tbl & Ht & Hk & Hv). right. exists testData, tbl, "undefined". eauto 10.
      * intros [[? _]|(td & tbl & key & [[_ ->]|[? _]] & [= <-] & Ht & Hk & Hv)];
          [done| |done]. by exists tbl.
      * intros (tbl & Ht & Hk & Hv). right. exists testData, tbl, "undefined". eauto 10.
      * intros [[? _]|(td & tbl & key & [[_ ->]|[? _]] & [= <-] & Ht & Hk & Hv)];
          [done| |done]. by exists tbl.
    + split; [done|].
      intros [[? _]|(td & tbl & key & _ & ? & _)]; done.
Qed.

Lemma forEach_app {S A} (body : A -> M S unit) (xs ys : list A) (s : S) :
  forEach body (xs ++ ys) s = (run forEach body xs; forEach body ys) s.
Proof.
  revert s. induction xs as [|x xs IH]; intros s; [done|].
  cbn [app forEach]. unfold bind in *.
  destruct (body x s) as [s1 [e|[]]]; [done|]. apply IH.
Qed.

(** In the later revision the page of a case is opened outside the [try]:
    when it cannot be opened, [runTestCase] throws, and the case is neither
    recorded nor counted.  The loop of [runTestSuite] stops there: the
    suite throws the same error, the cases after this one are not run, and
    the suite run is only given the status that its counters have at that
    point. *)
Theorem unopened_page_stops_the_suite (testSuite : TestSuite)
    (done rest : list TestCase) (testCase : TestCase)
    (s s1 s2 s3 : State W) (b : Browser) (e : JsError) :
  browser s2 = Some b ->
  call D (NewPage b) s2 = (s3, inl e) ->
  RunTSFull.runTestCase D testCase s2 = (s3, inl e) /\
  sameObject s2 s3 /\
  (suite_testCases testSuite = done ++ testCase :: rest ->
   RunTSFull.ensureBrowser D (setCurrentSuiteRun (Some (freshSuiteRun testSuite)) s)
     = (s1, inr tt) ->
   forEach (RunTSFull.runOne D) done s1 = (s2, inr tt) ->
   dependenciesPassed testCase s2 ->
   RunTSFull.runTestSuite D testSuite s = ((finishSuiteRun s3).1, inl e) /\
   testRuns (finishSuiteRun s3).1 = testRuns s2 /\
   forall r, currentSuiteRun s2 = Some r ->
     currentSuiteRun (finishSuiteRun s3).1 = Some (setSuiteStatus (derivedStatus r) r)).
Proof.
  intros Hb Hpage.
  assert (Hcase : RunTSFull.runTestCase D testCase s2 = (s3, inl e)).
  { unfold RunTSFull.runTestCase. apply bind_inl.
    unfold RunTSFull.newPage. by rewrite Hb. }
  assert (Hsame : sameObject s2 s3).
  { pose proof (keeps_call D (NewPage b) s2) as H. by rewrite Hpage in H. }
  split; [exact Hcase|]. split; [exact Hsame|].
  intros Hcases Hensure Hdone Hdeps.
  destruct Hsame as (Hb3 & Hc3 & Ht3).
  assert (Hfin : forall x : State W, exists x', finishSuiteRun x = (x', inr tt)).
  { intros x. unfold finishSuiteRun. destruct (currentSuiteRun x); eauto. }
  split; [|split].
  - unfold RunTSFull.runTestSuite.
    rewrite (bind_inr (modify _) _ s _ tt) by reflexivity.
    unfold bind at 1. unfold try_finally.
    rewrite (bind_inr _ _ _ _ _ Hensure). rewrite Hcases, forEach_app.
    rewrite (bind_inr _ _ _ _ _ Hdone). cbn [forEach].
    assert (Hone : RunTSFull.runOne D testCase s2 = (s3, inl e)).
    { unfold RunTSFull.runOne.
      destruct (canRunTest_spec testCase s2) as (eligible & Ecan & Hiff).
      apply Hiff in Hdeps as ->. by rewrite (bind_inr _ _ _ _ _ Ecan). }
    rewrite (bind_inl _ _ _ _ _ Hone).
    destruct (Hfin s3) as [x' Ex]. by rewrite Ex.
  - unfold finishSuiteRun. by destruct (currentSuiteRun s3).
  - intros r Hr. unfold finishSuiteRun, determineTestSuiteStatus.
    rewrite Hc3, Hr. reflexivity.
Qed.

Lemma keepsStatus_liftS {A} (m : M (State W) A) : keepsStatus (liftS m).
Proof. intros [tr s]. unfold liftS. simpl. by destruct (m s). Qed.

Lemma keepsStatus_modRun g :
  (forall t, run_status (g t) = run_status t) -> keepsStatus (W:=W) (modRun g).
Proof. intros Hg f. apply Hg. Qed.

Lemma keepsStatus_bind {A B} (m : M (@Frame W) A) (k : A -> M (@Frame W) B) :
  keepsStatus m -> (forall a, keepsStatus (k a)) -> keepsStatus (bind m k).
Proof.
  intros Hm Hk f. unfold bind. specialize (Hm f).
  destruct (m f) as [f1 [e|a]]; simpl in *; [done|].
  by rewrite Hk.
Qed.

Lemma keepsId_saveLocalLogs : keepsId (RunTSFull.saveLocalLogs D).
Proof. intros f. unfold RunTSFull.saveLocalLogs. apply keepsId_liftS. Qed.

Lemma keepsStatus_saveLocalLogs : keepsStatus (RunTSFull.saveLocalLogs D).
Proof. intros f. unfold RunTSFull.saveLocalLogs. apply keepsStatus_liftS. Qed.

Lemma keepsId_runAssertionsFull page assertions failed :
  keepsId (RunTSFull.runAssertions D page assertions failed).
Proof.
  revert failed. induction assertions as [|a rest IH]; intros failed; simpl.
  - apply keepsId_ret.
  - keepsId_tac.
Qed.

(** The [try] / [catch] of the later [runTestCase], when it completes. *)
Lemma fullTry_returns testCase page tr s tr1 s1 :
  try_catch
    (run forEach (RunTSFull.runStep D (tc_id testCase) page) (tc_steps testCase);
     do assertionsFailed <- RunTSFull.runAssertions D page (tc_assertions testCase) false;
     run liftS (call D (PageClose page));
     let status := if assertionsFailed then FAILED else PASSED in
     run modRun (setStatus status);
     liftS (updateSuiteRunStats status))
    (fun error =>
       run modRun (setStatus FAILED);
       run modRun (setErrorMessage (Some (err_message error)));
       do screenshot <- liftS (RunTSFull.captureScreenshot D page (tc_id testCase));
       run modRun (setScreenshot (Some screenshot));
       run RunTSFull.saveLocalLogs D;
       liftS (updateSuiteRunStats FAILED)) (tr, s) = ((tr1, s1), inr tt) ->
  run_testCaseId tr1 = run_testCaseId tr /\
  (run_status tr1 = PASSED \/ run_status tr1 = FAILED).
Proof.
  intros E. split.
  - match type of E with ?m _ = _ => assert (Hid : keepsId m) end.
    { pose proof keepsId_runAssertionsFull. pose proof keepsId_saveLocalLogs.
      unfold RunTSFull.runStep. keepsId_tac. }
    specialize (Hid (tr, s)). by rewrite E in Hid.
  - revert E. unfold try_catch.
    match goal with |- context [bind ?m ?k (tr, s)] =>
      destruct (bind m k (tr, s)) as [[trm sm] [e|[]]] eqn:Em end.
    + (* the catch block *)
      intros E.
      match type of E with bind ?m ?k ?f = _ =>
        assert (Hst : run_status (bind m k f).1.1 = FAILED) end.
      { unfold bind at 1. cbn [modRun fst snd].
        match goal with |- run_status (?m ?f).1.1 = _ =>
          assert (Hk : keepsStatus m) end.
        { pose proof keepsStatus_saveLocalLogs.
          repeat first
            [ progress intros
            | apply keepsStatus_bind
            | apply keepsStatus_liftS
            | apply keepsStatus_modRun; intros []; reflexivity
            | assumption ]. }
        by rewrite Hk. }
      rewrite E in Hst. auto.
    + (* the try block *)
      intros [= <- <-]. revert Em.
      bind_case as [f1 [e|[]]] eqn:E1; [done|].
      bind_case as [f2 [e|failed]] eqn:E2; [done|].
      bind_case as [f3 [e|[]]] eqn:E3; [done|].
      unfold bind, modRun, liftS. cbn [fst snd].
      destruct (updateSuiteRunStats _ f3.2) as [s4 r4].
      intros [= <- _ _]. destruct failed; auto.
Qed.

(** In the later revision a run is kept in memory only after its log has
    been written.  Whenever [runTestCase] returns, the last call that it
    made is the write of the log file of the case, and the run written is
    the very run that is then stored under the id of the case and appended
    to the suite run; that run is PASSED or FAILED. *)
Theorem logged_run_is_the_recorded_run (testCase : TestCase) (s s' : State W) :
  RunTSFull.runTestCase D testCase s = (s', inr tt) ->
  exists t pre r,
    testRuns s' !! tc_id testCase = Some t /\
    trace s' = pre ++ [any (WriteLog (tc_id testCase) t)] /\
    run_testCaseId t = tc_id testCase /\
    (run_status t = PASSED \/ run_status t = FAILED) /\
    currentSuiteRun s' = Some r /\
    last (tsr_testRuns r) = Some t.
Proof.
  unfold RunTSFull.runTestCase.
  bind_case as [s1 [e|page]] eqn:Enew; [done|].
  destruct (RunTSFull.runTestCaseBody D testCase page (RunTSFull.startedRun testCase, s1))
    as [[t s2] [e|[]]] eqn:Ebody; [done|].
  unfold bind, modify, pushToSuiteRun. cbn [fst snd currentSuiteRun setTestRuns].
  destruct (currentSuiteRun s2) as [r2|] eqn:Hr2; [|done].
  intros [= <-].
  revert Ebody. unfold RunTSFull.runTestCaseBody, try_finally.
  match goal with |- context [try_catch ?m ?h ?f] =>
    destruct (try_catch m h f) as [[tr1 s3] r1] eqn:Etry end.
  unfold RunTSFull.saveLocalLogs, liftS. cbn [fst snd].
  destruct (RunTSFull.saveTestLogs D tr1 s3) as [s4 [e|[]]] eqn:Esave; [done|].
  intros [= -> -> ->].
  destruct (fullTry_returns _ _ _ _ _ _ Etry) as [Hid Hst].
  cbn [RunTSFull.startedRun run_testCaseId] in Hid.
  assert (Htrace : exists pre, trace s2 = pre ++ [any (WriteLog (tc_id testCase) t)]).
  { revert Esave. unfold RunTSFull.saveTestLogs, try_catch.
    bind_case as [sd [e|[]]] eqn:Ed; [done|].
    pose proof (call_trace D (WriteLog (run_testCaseId t) t) sd) as Htr.
    destruct (call D (WriteLog (run_testCaseId t) t) sd) as [sw [e|[]]]; [done|].
    intros [= <-]. rewrite Hid in Htr. eauto. }
  destruct Htrace as [pre Htrace].
  exists t, pre, (pushTestRun t r2).
  unfold setCurrentSuiteRun, setTestRuns.
  cbn [testRuns trace currentSuiteRun tsr_testRuns pushTestRun].
  rewrite lookup_insert_eq, last_snoc. by repeat split.
Qed.
End FullFacts.

(** When no page can be opened, the suite of case A stops at A. *)
Lemma unopened_page_stops_the_suite_witness :
  (RunTSFull.runTestSuite noPages suiteA newCrawler).2 = inl (mkError "driver failure") /\
  testRuns (RunTSFull.runTestSuite noPages suiteA newCrawler).1 = ∅.
Proof.
  destruct (unopened_page_stops_the_suite noPages suiteA [] [] caseA newCrawler
              (mkState (Some 1) (Some (freshSuiteRun suiteA)) ∅ tt [any Launch])
              (mkState (Some 1) (Some (freshSuiteRun suiteA)) ∅ tt [any Launch])
              (mkState (Some 1) (Some (freshSuiteRun suiteA)) ∅ tt
                 [any Launch; any (NewPage 1)])
              1 (mkError "driver failure") eq_refl eq_refl) as (_ & _ & H).
  destruct H as (E & Ht & _); try reflexivity.
  - intros d Hd. by apply not_elem_of_nil in Hd.
  - rewrite E. split; [reflexivity|exact Ht].
Defined.

(** On a healthy browser case A passes, and its log is written last. *)
Lemma logged_run_is_the_recorded_run_witness :
  exists t pre,
    testRuns (RunTSFull.runTestCase healthy caseA midRun).1 !! "A" = Some t /\
    trace (RunTSFull.runTestCase healthy caseA midRun).1 = pre ++ [any (WriteLog "A" t)] /\
    run_status t = PASSED.
Proof.
  destruct (logged_run_is_the_recorded_run healthy caseA midRun
              (RunTSFull.runTestCase healthy caseA midRun).1)
    as (t & pre & r & Hl & Htr & _ & _ & _ & _).
  - vm_compute. reflexivity.
  - exists t, pre. split; [exact Hl|]. split; [exact Htr|].
    revert Hl. vm_compute. by intros [= <-].
Defined.

(** * The later revision: a suite on a disk that works *)

Section FullSuite.
Context {W : Type} (D : Driver W).
Implicit Types (s : State W) (f : @Frame W) (r : TestSuiteRun) (tr : TestRun).

Lemma keepsFull_executeAssertion page a : keeps (RunTSFull.executeAssertion D page a).
Proof. unfold RunTSFull.executeAssertion. keeps_tac. Qed.

Lemma keepsFFull_runAssertions page assertions failed :
  keepsF (RunTSFull.runAssertions D page assertions failed).
Proof.
  revert failed. induction assertions as [|a rest IH]; intros failed; simpl.
  - apply keepsF_ret.
  - pose proof (keepsFull_executeAssertion page a). keeps_tac.
Qed.

(** The [try] block of the later [runTestCase]: it throws with the object
    as it was, or completes with the case counted. *)
Lemma fullTry_counts testCase page tr s r :
  currentSuiteRun s = Some r ->
  let block :=
    (run forEach (RunTSFull.runStep D (tc_id testCase) page) (tc_steps testCase);
     do assertionsFailed <- RunTSFull.runAssertions D page (tc_assertions testCase) false;
     run liftS (call D (PageClose page));
     let status := if assertionsFailed then FAILED else PASSED in
     run modRun (setStatus status);
     liftS (updateSuiteRunStats status)) in
  (exists f1 e, block (tr, s) = (f1, inl e) /\ sameObject s f1.2) \/
  (exists tr1 s1 st,
     block (tr, s) = ((tr1, s1), inr tt) /\
     (st = PASSED \/ st = FAILED) /\ run_status tr1 = st /\
     currentSuiteRun s1 = Some (bump st r) /\
     browser s1 = browser s /\ testRuns s1 = testRuns s).
Proof.
  intros Hr. cbv zeta.
  pose proof (keepsF_forEach _ (tc_steps testCase)
                (keepsFFull_runStep D (tc_id testCase) page) (tr, s)) as H2.
  bind_case as [f2 [e|[]]] eqn:E2; simpl in H2.
  { left. by exists f2, e. }
  pose proof (keepsFFull_runAssertions page (tc_assertions testCase) false f2) as H3.
  bind_case as [f3 [e|failed]] eqn:E3; simpl in H3.
  { left. exists f3, e. split; [done|]. by eapply sameObject_trans. }
  pose proof (keepsF_liftS _ (keeps_call D (PageClose page)) f3) as H4.
  assert (H5 : sameObject s (liftS (call D (PageClose page)) f3).1.2).
  { eapply sameObject_trans; [|exact H4]. by eapply sameObject_trans. }
  clear H2 H3 H4.
  bind_case as [[tr4 s4] [e|[]]] eqn:E4; simpl in H5.
  { left. by exists (tr4, s4), e. }
  right. destruct H5 as (Hb & Hc & Ht).
  unfold bind, modRun, liftS. cbn [fst snd].
  rewrite (updateSuiteRunStats_some _ s4 r) by congruence.
  eexists _, _, (if failed then FAILED else PASSED).
  split; [reflexivity|]. simpl.
  repeat split; try done. destruct failed; auto.
Qed.

(** The [catch] block, when the screenshot and the log can be written. *)
Lemma fullCatch_counts testCase page tr s r e :
  ArtifactsWork D ->
  currentSuiteRun s = Some r ->
  exists tr1 s1,
    (run modRun (setStatus FAILED);
     run modRun (setErrorMessage (Some (err_message e)));
     do screenshot <- liftS (RunTSFull.captureScreenshot D page (tc_id testCase));
     run modRun (setScreenshot (Some screenshot));
     run RunTSFull.saveLocalLogs D;
     liftS (updateSuiteRunStats FAILED)) (tr, s) = ((tr1, s1), inr tt) /\
    run_status tr1 = FAILED /\
    currentSuiteRun s1 = Some (bump FAILED r) /\
    browser s1 = browser s /\ testRuns s1 = testRuns s.
Proof.
  intros HA Hr.
  destruct (captureScreenshot_works D page (tc_id testCase) s HA)
    as (s3 & data & Ecap & H3 & _).
  set (tr3 := setScreenshot (Some ("data:image/png;base64," +:+ data))
                (setErrorMessage (Some (err_message e)) (setStatus FAILED tr))).
  destruct (saveLocalLogs_works D tr3 s3 HA) as (s4 & Esave & H4 & _).
  assert (Hc4 : currentSuiteRun s4 = Some r).
  { destruct H3 as (_ & Hc3 & _), H4 as (_ & Hc4 & _). congruence. }
  exists tr3, (setCurrentSuiteRun (Some (bump FAILED r)) s4).
  split.
  - rewrite (bind_inr _ _ (tr, s) (setStatus FAILED tr, s) tt eq_refl). cbv beta.
    rewrite (bind_inr _ _ (setStatus FAILED tr, s)
               (setErrorMessage (Some (err_message e)) (setStatus FAILED tr), s)
               tt eq_refl).
    cbv beta.
    rewrite (bind_inr _ _ _ _ _ (liftS_eq _ _ _ _ _ Ecap)). cbv beta.
    rewrite (bind_inr _ _
               (setErrorMessage (Some (err_message e)) (setStatus FAILED tr), s3)
               (tr3, s3) tt eq_refl).
    cbv beta.
    rewrite (bind_inr _ _ _ _ _ Esave). cbv beta.
    by rewrite (liftS_eq _ tr3 _ _ _ (updateSuiteRunStats_some FAILED s4 r Hc4)).
  - split; [done|]. split; [done|].
    destruct H3 as (Hb3 & _ & Ht3), H4 as (Hb4 & _ & Ht4).
    cbn [browser testRuns setCurrentSuiteRun]. split; congruence.
Qed.

(** The later [runTestCase] on a disk that works: once the page is open
    the case is recorded and counted, as passed or as failed. *)
Lemma runTestCaseFull_counts testCase s r b :
  ArtifactsWork D -> PagesOpen D ->
  currentSuiteRun s = Some r ->
  browser s = Some b ->
  exists s' t,
    RunTSFull.runTestCase D testCase s = (s', inr tt) /\
    run_testCaseId t = tc_id testCase /\
    (run_status t = PASSED \/ run_status t = FAILED) /\
    currentSuiteRun s' = Some (pushTestRun t (bump (run_status t) r)) /\
    testRuns s' = <[tc_id testCase := t]> (testRuns s) /\
    browser s' = Some b.
Proof.
  intros HA HP Hr Hb.
  destruct (HP b (world s)) as (w1 & page & Epage).
  pose proof (call_works D (NewPage b) s w1 page Epage) as Ecall.
  set (s1 := mkState (browser s) (currentSuiteRun s) (testRuns s) w1
               (trace s ++ [any (NewPage b)])) in *.
  assert (Enew : RunTSFull.newPage D s = (s1, inr page)).
  { unfold RunTSFull.newPage. by rewrite Hb. }
  assert (Hbody : exists tr' s2,
            RunTSFull.runTestCaseBody D testCase page (RunTSFull.startedRun testCase, s1)
              = ((tr', s2), inr tt) /\
            (run_status tr' = PASSED \/ run_status tr' = FAILED) /\
            currentSuiteRun s2 = Some (bump (run_status tr') r) /\
            browser s2 = browser s /\ testRuns s2 = testRuns s).
  { assert (Hb1 : browser s1 = browser s) by reflexivity.
    assert (Ht1 : testRuns s1 = testRuns s) by reflexivity.
    unfold RunTSFull.runTestCaseBody, try_finally.
    destruct (fullTry_counts testCase page (RunTSFull.startedRun testCase) s1 r Hr)
      as [(f1 & e & E & Hs1)|(tr1 & s2 & st & E & Hst & Hrun & Hc & Hb2 & Ht2)];
      cbv zeta in E.
    - destruct f1 as [tr1 sx]. cbn [snd] in Hs1. destruct Hs1 as (Hbx & Hcx & Htx).
      destruct (fullCatch_counts testCase page tr1 sx r e HA) as
        (tr2 & s2 & Ecatch & Hst & Hc & Hb2 & Ht2); [by rewrite Hcx|].
      rewrite (try_catch_inl _ _ _ _ _ E), Ecatch.
      destruct (saveLocalLogs_works D tr2 s2 HA) as (s3 & Esave & (Hb3 & Hc3 & Ht3) & _).
      rewrite Esave. exists tr2, s3. split; [done|]. rewrite Hst.
      split; [by right|]. split; [congruence|]. split; congruence.
    - rewrite (try_catch_inr _ _ _ _ _ E).
      destruct (saveLocalLogs_works D tr1 s2 HA) as (s3 & Esave & (Hb3 & Hc3 & Ht3) & _).
      rewrite Esave. exists tr1, s3. split; [done|]. rewrite Hrun.
      split; [done|]. split; [congruence|]. split; congruence. }
  destruct Hbody as (t & s2 & Ebody & Hst & Hc & Hb2 & Ht2).
  assert (Hid : run_testCaseId t = tc_id testCase).
  { revert Ebody. unfold RunTSFull.runTestCaseBody, try_finally.
    match goal with |- context [try_catch ?m ?h ?f] =>
      destruct (try_catch m h f) as [[tr1 s3] r1] eqn:Etry end.
    pose proof (keepsId_saveLocalLogs D (tr1, s3)) as Hsave.
    destruct (RunTSFull.saveLocalLogs D (tr1, s3)) as [[tr2 s4] [e|[]]]; [done|].
    intros [= -> -> ->]. cbn [fst] in Hsave. rewrite Hsave.
    by destruct (fullTry_returns D _ _ _ _ _ _ Etry) as [-> _]. }
  eexists _, t. split.
  { unfold RunTSFull.runTestCase. rewrite (bind_inr _ _ _ _ _ Enew), Ebody.
    unfold bind, modify, pushToSuiteRun. cbn [fst snd currentSuiteRun setTestRuns].
    rewrite Hc. reflexivity. }
  unfold setCurrentSuiteRun, setTestRuns. cbn [currentSuiteRun testRuns browser].
  rewrite Ht2, Hb2. by repeat split.
Qed.

Lemma runOneFull_records testCase s r b :
  ArtifactsWork D -> PagesOpen D ->
  currentSuiteRun s = Some r ->
  browser s = Some b ->
  exists s' t,
    RunTSFull.runOne D testCase s = (s', inr tt) /\
    run_testCaseId t = tc_id testCase /\
    settled t /\
    currentSuiteRun s' = Some (pushTestRun t (bump (run_status t) r)) /\
    testRuns s' = <[tc_id testCase := t]> (testRuns s) /\
    browser s' = Some b.
Proof.
  intros HA HP Hr Hb. unfold RunTSFull.runOne, bind.
  assert (Hcan : exists ok, canRunTest testCase s = (s, inr ok)).
  { unfold canRunTest. destruct (tc_dependsOn testCase) as [[|]|]; eauto. }
  destruct Hcan as [[] ->].
  - destruct (runTestCaseFull_counts testCase s r b HA HP Hr Hb)
      as (s' & t & E & Hid & Hst & Hc & Ht & Hb').
    exists s', t. split; [done|]. split; [done|].
    split; [unfold settled; tauto|]. by repeat split.
  - rewrite (recordBlockedTest_some _ _ r Hr).
    eexists _, (blockedRun testCase). split; [reflexivity|].
    repeat split; auto. unfold settled. simpl. tauto.
Qed.

Lemma forEachFull_records cases s r b :
  ArtifactsWork D -> PagesOpen D ->
  currentSuiteRun s = Some r ->
  browser s = Some b ->
  exists s' ts,
    forEach (RunTSFull.runOne D) cases s = (s', inr tt) /\
    map run_testCaseId ts = map tc_id cases /\
    Forall settled ts /\
    currentSuiteRun s' = Some (recordAll ts r).
Proof.
  intros HA HP. revert s r. induction cases as [|tc cases IH]; intros s r Hr Hb.
  - exists s, []. by repeat split.
  - destruct (runOneFull_records tc s r b HA HP Hr Hb)
      as (s1 & t & E1 & Hid & Hset & Hr1 & _ & Hb1).
    destruct (IH s1 _ Hr1 Hb1) as (s2 & ts & E2 & Hids & Hsets & Hr2).
    exists s2, (t :: ts). cbn [forEach]. rewrite (bind_inr _ _ _ _ _ E1).
    split; [exact E2|]. split; [cbn [map]; by rewrite Hid, Hids|].
    split; [by constructor|exact Hr2].
Qed.

(** The later revision keeps the books of a suite as the first does, as
    long as the disk works and pages open: when screenshots and logs can
    be written, every page can be opened, and the browser is there or can
    be launched, [runTestSuite] returns a complete run of the suite, with
    one run listed per case, in order, every case counted, and a terminal
    status. *)
Theorem later_suite_completes (testSuite : TestSuite) (s : State W) :
  ArtifactsWork D ->
  PagesOpen D ->
  browserAvailable D s ->
  exists s' r,
    RunTSFull.runTestSuite D testSuite s = (s', inr r) /\
    runOf testSuite r.
Proof.
  intros HA HP Hav.
  set (s0 := setCurrentSuiteRun (Some (freshSuiteRun testSuite)) s).
  destruct (browserAvailable_ensure D s0 Hav) as (s1 & b & E0 & Hb1 & Hc1 & _).
  change (RunTS.ensureBrowser D s0) with (RunTSFull.ensureBrowser D s0) in E0.
  destruct (forEachFull_records (suite_testCases testSuite) s1 _ b HA HP Hc1 Hb1)
    as (s2 & ts & E2 & Hids & Hsets & Hr2).
  eexists _, _. split.
  { unfold RunTSFull.runTestSuite.
    rewrite (bind_inr (modify _) _ s s0 tt) by reflexivity.
    unfold bind at 1. unfold try_finally.
    rewrite (bind_inr _ _ s0 s1 tt E0). rewrite E2.
    unfold finishSuiteRun, determineTestSuiteStatus. rewrite Hr2.
    cbn [fst snd currentSuiteRun setCurrentSuiteRun]. reflexivity. }
  destruct (recordAll_fields ts (freshSuiteRun testSuite))
    as (H1 & H2 & H3 & H4 & H5 & H6 & H7 & H8).
  unfold runOf, counted.
  cbn [tsr_testSuiteId tsr_testRuns tsr_totalTests tsr_passedTests tsr_failedTests
       tsr_blockedTests tsr_skippedTests tsr_status setSuiteStatus].
  rewrite H1, H2, H3, H5, H6, H7, H8, (withStatus_settled ts Hsets).
  cbn [freshSuiteRun tsr_testSuiteId tsr_testRuns tsr_totalTests tsr_passedTests
       tsr_failedTests tsr_blockedTests tsr_skippedTests app].
  split; [done|]. split; [done|]. split; [done|].
  split.
  2:{ repeat match goal with |- context [if ?c then _ else _] => destruct c end; done. }
  pose proof (withStatus_total ts Hsets) as Hsum.
  apply (f_equal length) in Hids. rewrite !length_map in Hids. lia.
Qed.
End FullSuite.

Lemma healthy_PagesOpen : PagesOpen healthy.
Proof. intros b []. by eexists tt, 7. Qed.

(** On a healthy browser and disk the suite of A and B completes in the
    later revision too. *)
Lemma later_suite_completes_witness :
  exists s' r,
    RunTSFull.runTestSuite healthy suiteAB newCrawler = (s', inr r) /\
    tsr_totalTests r = 2 /\ counted r = 2.
Proof.
  destruct (later_suite_completes healthy suiteAB newCrawler)
    as (s' & r & E & _ & _ & Ht & Hc & _).
  - apply healthy_ArtifactsWork.
  - apply healthy_PagesOpen.
  - simpl. by eexists tt, 1.
  - exists s', r. split; [exact E|]. split; [exact Ht|]. by rewrite Hc, Ht.
Defined.

(** * The crawler: retries and identifiers *)

Section RetryAccounting.
Context {W : Type}.
Implicit Types (s : Crawler.CState W).

(** What a call of [retryOperation] adds up to, whatever [retryCount] it
    is started with.  If it made [k] retries, the operation was run [k + 1]
    times and [k] delays were slept, one between any two runs and none
    after the last; [stats.errorCount] grew by the number of runs that
    failed, which is [k] when the call returns and [k + 1] when it
    throws. *)
Theorem retry_accounting {T} (operation : W -> W * (JsError + T)) (retryCount : nat)
    (s : Crawler.CState W) :
  exists k pre,
    attempts (Crawler.events (Crawler.retryOperation operation retryCount s).1)
      = attempts (Crawler.events s) + k + 1 /\
    length (delays (Crawler.events (Crawler.retryOperation operation retryCount s).1))
      = length (delays (Crawler.events s)) + k /\
    Crawler.errorCount (Crawler.retryOperation operation retryCount s).1
      = Crawler.errorCount s + k
        + match (Crawler.retryOperation operation retryCount s).2 with
          | inl _ => 1
          | inr _ => 0
          end /\
    Crawler.events (Crawler.retryOperation operation retryCount s).1
      = pre ++ [Crawler.Attempted].
Proof.
  funelim (Crawler.retryOperation operation retryCount s); clear Heqcall.
  - unfold Crawler.attempt in Heq. destruct (operation (Crawler.cworld s)) as [w' r].
    injection Heq as <- ->. exists 0, (Crawler.events s).
    cbn [fst snd Crawler.events Crawler.errorCount].
    rewrite attempts_app, delays_app, length_app. cbn [attempts delays length].
    repeat split; lia.
  - unfold Crawler.attempt in Heq0. destruct (operation (Crawler.cworld s)) as [w' r].
    injection Heq0 as <- ->. exists 0, (Crawler.events s).
    cbn [fst snd Crawler.events Crawler.errorCount Crawler.failed].
    rewrite attempts_app, delays_app, length_app. cbn [attempts delays length].
    repeat split; lia.
  - destruct H as (k & pre & H1 & H2 & H3 & H4).
    unfold Crawler.attempt in Heq0. destruct (operation (Crawler.cworld s)) as [w' r].
    injection Heq0 as <- ->.
    cbn [fst snd Crawler.events Crawler.errorCount Crawler.failed Crawler.sleep] in *.
    exists (S k), pre.
    rewrite H1, H2, H3, H4, !attempts_app, !delays_app, !length_app.
    cbn [attempts delays length].
    repeat split; lia.
Qed.
End RetryAccounting.

Section IdentifierFacts.

Lemma letter_is_no_mark c :
  isLetter c = true ->
  Ascii.eqb (lowerChar c) "#" = false /\ Ascii.eqb (lowerChar c) "." = false.
Proof.
  destruct c as [[] [] [] [] [] [] [] []]; vm_compute; intros H; by try discriminate H.
Qed.

(** The selector of an element without id starts as its lower-case tag
    does, or with "body". *)
Lemma uniqueSelector_head (el : Crawler.Node) c rest :
  Crawler.node_id el = "" ->
  Crawler.node_tagName el = String c rest ->
  exists tail,
    Crawler.uniqueSelector el = String (lowerChar c) tail \/
    Crawler.uniqueSelector el = String "b" tail.
Proof.
  intros Hid Htag. unfold Crawler.uniqueSelector. rewrite Hid, Htag.
  cbn [truthy String.eqb negb toLowerCase].
  repeat match goal with
  | |- context [if ?b then _ else _] => destruct b
  | |- context [match ?x with Crawler.ClassString _ => _ | Crawler.ClassObject => _ end] =>
      destruct x
  end; rewrite ?append_cons; eauto.
Qed.

(** How the identifier that the form, link and input finders derive from
    the unique selector relates to the element.  For an element with an id
    it is the id, typed [id], whatever characters the id has: the same as
    [generateElementIdentifier] reports.  For an element without id it is
    typed [class], and its value is the whole selector (for instance
    [input[name="q"]] or a path from [body]), since a selector that starts
    with a tag name has no mark to strip. *)
Theorem identifier_of_unique_selector (el : Crawler.Node) :
  (Crawler.node_id el <> "" ->
     Crawler.identifierOfSelector (Crawler.uniqueSelector el)
       = Crawler.mkIdentifier Crawler.id (Crawler.node_id el) /\
     Crawler.elementIdentifier el
       = Crawler.mkIdentifier Crawler.id (Crawler.node_id el)) /\
  (Crawler.node_id el = "" ->
   startsWithLetter (Crawler.node_tagName el) = true ->
     Crawler.identifierOfSelector (Crawler.uniqueSelector el)
       = Crawler.mkIdentifier Crawler.class (Crawler.uniqueSelector el) /\
     Crawler.ident_type (Crawler.elementIdentifier el) = Crawler.class).
Proof.
  split.
  - intros Hid. unfold Crawler.uniqueSelector, Crawler.elementIdentifier.
    apply truthy_Some in Hid. by rewrite Hid.
  - intros Hid Htag. split.
    + destruct (Crawler.node_tagName el) as [|c rest] eqn:Et; [done|].
      cbn [startsWithLetter] in Htag.
      destruct (letter_is_no_mark c Htag) as [H1 H2].
      destruct (uniqueSelector_head el c rest Hid Et) as [tail [-> | ->]].
      * unfold Crawler.identifierOfSelector, Crawler.startsWithHash, Crawler.stripMark.
        by rewrite H1, H2.
      * reflexivity.
    + unfold Crawler.elementIdentifier. rewrite Hid. cbn [truthy String.eqb negb].
      repeat match goal with
      | |- context [if ?b then _ else _] => destruct b
      | |- context [match ?x with Crawler.ClassString _ => _ | Crawler.ClassObject => _ end] =>
          destruct x
      end; reflexivity.
Qed.
End IdentifierFacts.

(** ** White space in class lists *)

Section ClassLists.

Lemma noSpace_app a b : noSpace (a +:+ b) = noSpace a && noSpace b.
Proof.
  induction a as [|c a IH]; [done|].
  rewrite append_cons. cbn [noSpace]. by rewrite IH, andb_assoc.
Qed.

Lemma splitSpaces_noSpace s cur inRun :
  noSpace cur = true ->
  Forall (fun p => noSpace p = true) (splitSpaces s cur inRun).
Proof.
  revert cur inRun. induction s as [|c s IH]; intros cur inRun Hcur; cbn [splitSpaces].
  - by constructor.
  - destruct (isSpace c) eqn:Hc.
    + destruct inRun; [by apply IH|]. constructor; [done|]. by apply IH.
    + apply IH. rewrite noSpace_app, Hcur. cbn [noSpace]. by rewrite Hc.
Qed.

Lemma append_empty a b : a +:+ b = "" -> a = "" /\ b = "".
Proof. destruct a; [done|]. by rewrite append_cons. Qed.

(** Splitting a string that neither starts nor ends with white space
    gives no empty piece. *)
Lemma splitSpaces_pieces s cur inRun :
  (s = "" -> cur <> "") ->
  endsWithSpace s = false ->
  (inRun = false -> cur = "" -> startsWithSpace s = false) ->
  Forall (fun p => p <> "") (splitSpaces s cur inRun).
Proof.
  revert cur inRun. induction s as [|c s IH]; intros cur inRun H1 H2 H3; cbn [splitSpaces].
  - constructor; [by apply H1|constructor].
  - assert (Hrest : s = "" -> isSpace c = false).
    { intros ->. exact H2. }
    assert (Hends : s <> "" -> endsWithSpace s = false).
    { intros Hs. destruct s; [done|exact H2]. }
    destruct (isSpace c) eqn:Hc.
    + assert (Hs : s <> "") by (intros Hs; by apply Hrest in Hs).
      destruct inRun.
      * apply IH; [done|by apply Hends|done].
      * constructor.
        -- intros ->. specialize (H3 eq_refl eq_refl).
           cbn [startsWithSpace] in H3. congruence.
        -- apply IH; [done|by apply Hends|done].
    + apply IH.
      * intros _ [_ ?]%append_empty. discriminate.
      * destruct s; [done|exact H2].
      * intros _ [_ ?]%append_empty. discriminate.
Qed.

Lemma trimStart_starts s : startsWithSpace (trimStart s) = false.
Proof.
  induction s as [|c s IH]; [done|]. cbn [trimStart].
  destruct (isSpace c) eqn:Hc; [exact IH|]. exact Hc.
Qed.

Lemma trimStart_ends s : endsWithSpace s = false -> endsWithSpace (trimStart s) = false.
Proof.
  induction s as [|c s IH]; [done|]. intros H. cbn [trimStart].
  destruct (isSpace c) eqn:Hc; [|exact H].
  apply IH. destruct s; [done|exact H].
Qed.

Lemma trimStart_fixed s : startsWithSpace s = false -> trimStart s = s.
Proof. destruct s as [|c s]; [done|]. cbn [startsWithSpace trimStart]. by intros ->. Qed.

Lemma string_of_list_app (l1 l2 : list ascii) :
  string_of_list_ascii (l1 ++ l2) = string_of_list_ascii l1 +:+ string_of_list_ascii l2.
Proof. induction l1 as [|c l1 IH]; [done|]. cbn. by rewrite IH. Qed.

Lemma reverse_cons c s : reverse (String c s) = reverse s +:+ String c "".
Proof. unfold reverse. cbn [list_ascii_of_string rev]. by rewrite string_of_list_app. Qed.

Lemma reverse_involutive s : reverse (reverse s) = s.
Proof.
  unfold reverse.
  by rewrite list_ascii_of_string_of_list_ascii, rev_involutive,
    string_of_list_ascii_of_string.
Qed.

Lemma reverse_empty s : reverse s = "" -> s = "".
Proof. intros H. by rewrite <- (reverse_involutive s), H. Qed.

Lemma starts_snoc a c :
  startsWithSpace (a +:+ String c "") = (if decide (a = "") then isSpace c else startsWithSpace a).
Proof. by destruct a. Qed.

Lemma reverse_starts s : startsWithSpace (reverse s) = endsWithSpace s.
Proof.
  induction s as [|c s IH]; [done|].
  rewrite reverse_cons, starts_snoc. destruct (decide (reverse s = "")) as [E|E].
  - apply reverse_empty in E as ->. done.
  - rewrite IH. destruct s; [done|reflexivity].
Qed.

Lemma reverse_ends s : endsWithSpace (reverse s) = startsWithSpace s.
Proof. by rewrite <- reverse_starts, reverse_involutive. Qed.

(** [trim] leaves no white space at either end. *)
Lemma trim_ends s : startsWithSpace (trim s) = false /\ endsWithSpace (trim s) = false.
Proof.
  unfold trim. rewrite reverse_starts, reverse_ends. split.
  - apply trimStart_ends. rewrite reverse_ends. apply trimStart_starts.
  - apply trimStart_starts.
Qed.

Lemma trim_fixed s :
  startsWithSpace s = false -> endsWithSpace s = false -> trim s = s.
Proof.
  intros H1 H2. unfold trim. rewrite (trimStart_fixed s H1).
  rewrite trimStart_fixed; [apply reverse_involutive|]. by rewrite reverse_starts.
Qed.

(** Reading a class name moves it into the piece being read. *)
Lemma splitSpaces_word p t cur inRun :
  className p -> splitSpaces (p +:+ t) cur inRun = splitSpaces t (cur +:+ p) false.
Proof.
  intros [Hne Hns]. revert cur inRun Hne.
  induction p as [|c p IH]; intros cur inRun Hne; [done|].
  cbn [noSpace] in Hns. apply andb_prop in Hns as [Hc Hp].
  apply negb_true_iff in Hc. rewrite append_cons. cbn [splitSpaces]. rewrite Hc.
  destruct p as [|c' p'].
  - reflexivity.
  - rewrite (IH Hp _ false) by done.
    by rewrite append_assoc.
Qed.

(** Splitting the class names joined by single spaces gives them back. *)
Lemma splitSpaces_join ps inRun :
  ps <> [] -> Forall className ps -> splitSpaces (join " " ps) "" inRun = ps.
Proof.
  revert inRun. induction ps as [|p ps IH]; intros inRun Hne Hall; [done|].
  apply Forall_cons in Hall as [Hp Hall]. rewrite join_cons.
  rewrite (splitSpaces_word p _ "" inRun Hp). cbn [String.append].
  destruct ps as [|q ps]; [done|].
  change (" " +:+ join " " (q :: ps)) with (String " " (join " " (q :: ps))).
  cbn [splitSpaces]. change (isSpace " ") with true. cbv iota.
  f_equal. by apply IH.
Qed.

Lemma join_starts ps :
  ps <> [] -> Forall className ps -> startsWithSpace (join " " ps) = false.
Proof.
  destruct ps as [|p ps]; [done|]. intros _ [[Hne Hns] _]%Forall_cons.
  rewrite join_cons. destruct p as [|c p]; [done|].
  rewrite append_cons. cbn [startsWithSpace noSpace] in *.
  apply andb_prop in Hns as [Hc _]. by apply negb_true_iff in Hc.
Qed.

Lemma ends_app a b : b <> "" -> endsWithSpace (a +:+ b) = endsWithSpace b.
Proof.
  intros Hb. induction a as [|c a IH]; [done|].
  rewrite append_cons. cbn [endsWithSpace].
  destruct (a +:+ b) eqn:E; [by apply append_empty in E as [_ ?]|exact IH].
Qed.

Lemma className_ends p : className p -> endsWithSpace p = false.
Proof.
  intros [Hne Hns]. induction p as [|c p IH]; [done|].
  cbn [noSpace] in Hns. apply andb_prop in Hns as [Hc Hp].
  apply negb_true_iff in Hc. cbn [endsWithSpace].
  destruct p; [exact Hc|]. by apply IH.
Qed.

Lemma join_ends ps :
  ps <> [] -> Forall className ps -> endsWithSpace (join " " ps) = false.
Proof.
  induction ps as [|p ps IH]; [done|]. intros _ [Hp Hall]%Forall_cons.
  rewrite join_cons. destruct ps as [|q ps].
  - rewrite append_nil_r. by apply className_ends.
  - rewrite ends_app.
    + change (" " +:+ join " " (q :: ps)) with (String " " (join " " (q :: ps))).
      cbn [endsWithSpace].
      destruct (join " " (q :: ps)) eqn:E.
      * exfalso. revert E. apply join_nonempty; [done|].
        eapply Forall_impl; [exact Hall|]. by intros ? [? _].
      * by apply IH.
    + discriminate.
Qed.
End ClassLists.

Section ClassIdentifier.

(** The identifier of an element without id is its class list, normalised.
    [generateElementIdentifier] types it [class]; when the class string has
    a class name in it, the value is the class names joined by single
    spaces, none of them empty or with white space in it, so that reading
    the value as a class string again gives the same class names.  A class
    string that is empty or all white space gives the empty value. *)
Theorem class_identifier_is_normalised (el : Crawler.Node) (c : string) :
  Crawler.node_id el = "" ->
  Crawler.node_className el = Crawler.ClassString c ->
  let classes := splitSpaces (trim c) "" false in
  let value := Crawler.ident_value (Crawler.elementIdentifier el) in
  Crawler.ident_type (Crawler.elementIdentifier el) = Crawler.class /\
  (trim c = "" -> value = "") /\
  (trim c <> "" ->
     value = join " " classes /\
     Forall className classes /\
     splitSpaces (trim value) "" false = classes).
Proof.
  intros Hid Hc. cbv zeta. unfold Crawler.elementIdentifier. rewrite Hid, Hc.
  cbn [truthy String.eqb negb].
  destruct (String.eqb_spec c "") as [->|Hne]; cbn [negb].
  { split; [done|]. split; [done|]. intros H. exfalso. apply H. by vm_compute. }
  destruct (splitSpaces (trim c) "" false) as [|p ps] eqn:Hs.
  { by apply splitSpaces_nonempty in Hs. }
  cbn [length Nat.ltb Nat.leb Crawler.ident_type Crawler.ident_value].
  split; [done|]. split.
  - intros Ht. rewrite Ht in Hs. injection Hs as <- <-. reflexivity.
  - intros Ht. split; [done|].
    destruct (trim_ends c) as [Hstart Hend].
    assert (Hall : Forall className (p :: ps)).
    { rewrite <- Hs. apply Forall_and. split.
      - apply splitSpaces_pieces; [done|exact Hend|by intros _ _].
      - by apply splitSpaces_noSpace. }
    split; [exact Hall|].
    rewrite trim_fixed.
    + by apply splitSpaces_join.
    + by apply join_starts.
    + by apply join_ends.
Qed.
End ClassIdentifier.

(** The class string of the card: leading, trailing and doubled blanks go. *)
Lemma class_identifier_is_normalised_witness :
  Crawler.ident_value (Crawler.elementIdentifier cardDiv) = "card wide".
Proof.
  destruct (class_identifier_is_normalised cardDiv " card   wide " eq_refl eq_refl)
    as (_ & _ & H).
  destruct H as [Hv _]; [by vm_compute|].
  rewrite Hv. by vm_compute.
Defined.

Section SelectorNonEmpty.
Context {W : Type} (D : Crawler.Dom W).

Lemma toLowerCase_nonempty s : s <> "" -> toLowerCase s <> "".
Proof. by destruct s. Qed.

Lemma append_nonempty_l (a b : string) : a <> "" -> a +:+ b <> "".
Proof. destruct a; [done|]. by rewrite append_cons. Qed.

Lemma uniqueSelector_nonempty (el : Crawler.Node) :
  Crawler.node_tagName el <> "" -> Crawler.uniqueSelector el <> "".
Proof.
  intros Htag%toLowerCase_nonempty. unfold Crawler.uniqueSelector.
  repeat match goal with
  | |- context [if ?b then _ else _] => destruct b
  | |- context [match ?x with Crawler.ClassString _ => _ | Crawler.ClassObject => _ end] =>
      destruct x
  end; try done; by apply append_nonempty_l.
Qed.

(** The selector that [generateUniqueSelector] returns is never empty, on
    a page whose elements all have a tag name: neither the selector built
    by the four rules nor the tag name of the fallback is the empty
    string. *)
Theorem unique_selector_is_never_empty (element : Crawler.Handle)
    (s s' : Crawler.CState W) (selector : string) :
  (forall h w w' n, Crawler.resolve D h w = (w', inr n) -> Crawler.node_tagName n <> "") ->
  Crawler.generateUniqueSelector D element s = (s', inr selector) ->
  selector <> "".
Proof.
  intros Htags. unfold Crawler.generateUniqueSelector, try_catch, Crawler.evaluate.
  destruct (Crawler.resolve D element (Crawler.cworld s)) as [w1 [e|n]] eqn:E1.
  - cbn [Crawler.cworld].
    destruct (Crawler.resolve D element w1) as [w2 [e2|n]] eqn:E2; [done|].
    intros [= _ <-]. apply toLowerCase_nonempty. by eapply Htags.
  - intros [= _ <-]. apply uniqueSelector_nonempty. by eapply Htags.
Qed.
End SelectorNonEmpty.

(** The selector of the login form on a page that shows it. *)
Lemma unique_selector_is_never_empty_witness :
  exists selector,
    (Crawler.generateUniqueSelector (staticDom loginForm) 0 freshCrawl).2 = inr selector /\
    selector <> "".
Proof.
  exists "#login". split; [reflexivity|].
  refine (unique_selector_is_never_empty (staticDom loginForm) 0 freshCrawl
            (Crawler.generateUniqueSelector (staticDom loginForm) 0 freshCrawl).1
            "#login" _ eq_refl).
  intros h w w' n [= _ <-]. discriminate.
Defined.

(** An input with a name and no id: its identifier is the whole selector,
    typed as a class. *)
Lemma identifier_of_unique_selector_examples :
  Crawler.identifierOfSelector (Crawler.uniqueSelector loginForm)
    = Crawler.mkIdentifier Crawler.id "login" /\
  Crawler.identifierOfSelector (Crawler.uniqueSelector userInput)
    = Crawler.mkIdentifier Crawler.class
        ("input[name=" +:+ dquote +:+ "user" +:+ dquote +:+ "]") /\
  Crawler.elementIdentifier userInput = Crawler.mkIdentifier Crawler.class "field big".
Proof. repeat split; vm_compute; reflexivity. Qed.

(** * The crawler: what the finders report *)

Section FinderFacts.
Context {W Box : Type} (D : Crawler.Dom W) (H : Crawler.Handles W Box).
Implicit Types (s : Crawler.CState W) (el : Crawler.TestableElement Box).

(** A loop that pushes at most one element per turn, each with the
    property [P]. *)
Lemma forEachInto_invariant {S A B} (P : B -> Prop)
    (body : A -> list B -> M S (list B)) :
  (forall x found (s s' : S) found',
     Forall P found -> body x found s = (s', inr found') ->
     Forall P found' /\ length found' <= length found + 1) ->
  forall xs found (s s' : S) out,
    Forall P found -> Crawler.forEachInto body xs found s = (s', inr out) ->
    Forall P out /\ length out <= length found + length xs.
Proof.
  intros Hbody. induction xs as [|x xs IH]; intros found s s' out Hfound.
  - cbn [Crawler.forEachInto]. intros [= <- <-]. split; [done|]. cbn [length]. lia.
  - cbn [Crawler.forEachInto].
    bind_case as [s1 [e|found1]] eqn:E1; [done|]. intros E2.
    destruct (Hbody _ _ _ _ _ Hfound E1) as [H1 L1].
    destruct (IH _ _ _ _ H1 E2) as [H2 L2]. split; [done|]. cbn [length]. lia.
Qed.

Lemma extractAttributes_slim element s s' attributes :
  Crawler.extractAttributes D element s = (s', inr attributes) ->
  forall k v, attributes !! k = Some v -> String.length v < 1000.
Proof.
  unfold Crawler.extractAttributes.
  bind_case as [s1 [e|raw]] eqn:E1; [done|]. intros [= _ <-] k v Hk.
  by apply validateAttributes_lookup in Hk as (_ & ? & _).
Qed.

Lemma Forall_snoc_1 {B} (P : B -> Prop) (l : list B) (x : B) :
  Forall P l -> P x -> Forall P (l ++ [x]) /\ length (l ++ [x]) <= length l + 1.
Proof.
  intros Hl Hx. split; [apply Forall_app; split; [done|by constructor]|].
  rewrite length_app. cbn [length]. lia.
Qed.

(** What the three finders that work through their handles one at a time
    report.  Every element has the type of its finder and carries only
    attributes whose value is shorter than 1000 characters; a button and a
    navigation link carry their inner text, an input field none; and a
    finder never reports more elements than the page gave it handles. *)
Theorem finders_report_filtered_elements (s s' : Crawler.CState W)
    (found : list (Crawler.TestableElement Box)) :
  (Crawler.findButtons D H s = (s', inr found) ->
     Forall (fun el => Crawler.te_type el = "button" /\ slim el /\
                       Crawler.te_innerText el <> None) found /\
     exists w1 handles,
       Crawler.queryAll H Crawler.buttonSelector (Crawler.cworld s) = (w1, inr handles) /\
       length found <= length handles) /\
  (Crawler.findNavigationLinks D H s = (s', inr found) ->
     Forall (fun el => Crawler.te_type el = "navigationLink" /\ slim el /\
                       Crawler.te_innerText el <> None) found /\
     exists w1 handles,
       Crawler.queryAll H Crawler.navigationSelector (Crawler.cworld s)
         = (w1, inr handles) /\
       length found <= length handles) /\
  (Crawler.findInputFields D H s = (s', inr found) ->
     Forall (fun el => Crawler.te_type el = "input" /\ slim el /\
                       Crawler.te_innerText el = None) found /\
     exists w1 handles,
       Crawler.queryAll H Crawler.inputSelector (Crawler.cworld s) = (w1, inr handles) /\
       length found <= length handles).
Proof.
  split; [|split].
  - unfold Crawler.findButtons.
    destruct (Crawler.queryAll H Crawler.buttonSelector (Crawler.cworld s))
      as [w1 [e|handles]] eqn:Eq;
      unfold bind at 1; unfold Crawler.asking at 1; rewrite Eq; [done|].
    intros Eloop.
    eapply forEachInto_invariant in Eloop as [Hall Hlen]; [| |by constructor].
    + split; [exact Hall|]. exists w1, handles. split; [done|]. exact Hlen.
    + clear. intros button acc s s' acc' Hacc.
      bind_case as [s1 [e|valid]] eqn:E1; [done|].
      destruct valid; [|by intros [= _ <-]; split; [|lia]].
      bind_case as [s2 [e|box]] eqn:E2; [done|].
      bind_case as [s3 [e|text]] eqn:E3; [done|].
      destruct box as [location|]; [|by intros [= _ <-]; split; [|lia]].
      bind_case as [s4 [e|identifier]] eqn:E4; [done|].
      bind_case as [s5 [e|attributes]] eqn:E5; [done|].
      intros [= _ <-]. apply Forall_snoc_1; [done|].
      split; [done|]. split; [|done].
      intros k v. by apply (extractAttributes_slim _ _ _ _ E5).
  - unfold Crawler.findNavigationLinks.
    destruct (Crawler.queryAll H Crawler.navigationSelector (Crawler.cworld s))
      as [w1 [e|handles]] eqn:Eq;
      unfold bind at 1; unfold Crawler.asking at 1; rewrite Eq; [done|].
    intros Eloop.
    eapply forEachInto_invariant in Eloop as [Hall Hlen]; [| |by constructor].
    + split; [exact Hall|]. exists w1, handles. split; [done|]. exact Hlen.
    + clear. intros link acc s s' acc' Hacc.
      bind_case as [s1 [e|selector]] eqn:E1; [done|].
      bind_case as [s2 [e|box]] eqn:E2; [done|].
      bind_case as [s3 [e|text]] eqn:E3; [done|].
      destruct box as [location|]; [|by intros [= _ <-]; split; [|lia]].
      bind_case as [s5 [e|attributes]] eqn:E5; [done|].
      intros [= _ <-]. apply Forall_snoc_1; [done|].
      split; [done|]. split; [|done].
      intros k v. by apply (extractAttributes_slim _ _ _ _ E5).
  - unfold Crawler.findInputFields.
    destruct (Crawler.queryAll H Crawler.inputSelector (Crawler.cworld s))
      as [w1 [e|handles]] eqn:Eq;
      unfold bind at 1; unfold Crawler.asking at 1; rewrite Eq; [done|].
    intros Eloop.
    eapply forEachInto_invariant in Eloop as [Hall Hlen]; [| |by constructor].
    + split; [exact Hall|]. exists w1, handles. split; [done|]. exact Hlen.
    + clear. intros input acc s s' acc' Hacc.
      bind_case as [s1 [e|selector]] eqn:E1; [done|].
      bind_case as [s2 [e|box]] eqn:E2; [done|].
      destruct box as [location|]; [|by intros [= _ <-]; split; [|lia]].
      bind_case as [s5 [e|attributes]] eqn:E5; [done|].
      intros [= _ <-]. apply Forall_snoc_1; [done|].
      split; [done|]. split; [|done].
      intros k v. by apply (extractAttributes_slim _ _ _ _ E5).
Qed.
End FinderFacts.

(** On a page of two handles of which the second has no bounding box, the
    input finder reports the element of the first, without the attributes
    of 1000 characters and more. *)
Lemma finders_example :
  exists el,
    (Crawler.findInputFields (staticDom longAttributes) twoHandles freshCrawl).2
      = inr [el] /\
    Crawler.te_type el = "input" /\
    Crawler.te_location el = (10, 20) /\
    Crawler.te_attributes el !! "data-b" = Some (repeatChar 999 "b") /\
    Crawler.te_attributes el !! "data-a" = None.
Proof. eexists. repeat split; vm_compute; reflexivity. Qed.

(** * The analysis handler *)

Section AnalyzeFacts.
Context {W : Type} (Sel : Analyze.Selenium W).

Lemma substring_length n s : String.length (substring 0 n s) <= n.
Proof.
  revert s. induction n as [|n IH]; intros [|c s]; cbn [substring String.length]; try lia.
  specialize (IH s). lia.
Qed.

Lemma substring_all n s : String.length s <= n -> substring 0 n s = s.
Proof.
  revert s. induction n as [|n IH]; intros [|c s]; cbn [substring String.length];
    intros H; try done; try lia.
  rewrite IH; [done|lia].
Qed.

Lemma substring_starts n s :
  startsWithSpace s = false -> startsWithSpace (substring 0 n s) = false.
Proof. destruct n, s; done. Qed.

Lemma substring_empty n s : substring 0 (S n) s = "" <-> s = "".
Proof. destruct s; done. Qed.

(** The text that the analysis reports for an element has at most 100
    characters and no white space in front.  It is the trimmed text of the
    element when that has at most 100 characters, and it is empty exactly
    when the element has no text or only white space. *)
Theorem element_text_is_short (textContent : option string) :
  String.length (Analyze.elementText textContent) <= 100 /\
  startsWithSpace (Analyze.elementText textContent) = false /\
  (Analyze.elementText textContent = "" <->
     textContent = None \/ exists t, textContent = Some t /\ trim t = "") /\
  (forall t, textContent = Some t -> String.length (trim t) <= 100 ->
     Analyze.elementText textContent = trim t).
Proof.
  unfold Analyze.elementText. destruct textContent as [t|].
  - cbv zeta.
    assert (Hcut : (if truthy (Some (substring 0 100 (trim t)))
                    then substring 0 100 (trim t) else "") = substring 0 100 (trim t)).
    { destruct (truthy (Some (substring 0 100 (trim t)))) eqn:E; [done|].
      destruct (String.eqb_spec (substring 0 100 (trim t)) "") as [->|Hne]; [done|].
      apply truthy_Some in Hne. congruence. }
    rewrite Hcut. split; [apply substring_length|].
    split; [apply substring_starts, trim_ends|]. split.
    + rewrite substring_empty. split.
      * intros Ht. right. by exists t.
      * intros [?|(t' & [= <-] & Ht)]; done.
    + intros t' [= <-] Hlen. by apply substring_all.
  - split; [cbn; lia|]. split; [done|]. split; [|done].
    split; [by left|done].
Qed.

Lemma elementText_cut (t : string) :
  Analyze.elementText (Some t) = substring 0 100 (trim t).
Proof.
  unfold Analyze.elementText. cbv zeta.
  destruct (truthy (Some (substring 0 100 (trim t)))) eqn:E; [done|].
  destruct (String.eqb_spec (substring 0 100 (trim t)) "") as [->|Hne]; [done|].
  apply truthy_Some in Hne. congruence.
Qed.

Lemma describe_describes (els : list Analyze.Element) :
  Forall2 describes els (map Analyze.describe els).
Proof.
  induction els as [|el els IH]; [constructor|].
  cbn [map]. constructor; [|exact IH].
  unfold describes, Analyze.describe. cbn [Analyze.tag Analyze.attributes Analyze.text].
  split; [done|]. split; [done|].
  destruct (Analyze.el_textContent el) as [t|]; [apply elementText_cut|done].
Qed.

(** What [POST /analyzewebsite] does.  When the driver cannot be built the
    handler throws and no reply is sent.  Once the driver is built, exactly
    one reply is sent, [driver.quit()] is called after it, whatever failed
    before, and the handler ends as that call does.  When the page loaded
    and the script ran, the reply is 200 with [success: true], no error,
    one description for each element that the script found, in order, and
    [elementCount] their number.  When the page did not load the script is
    not run, and then, or when the script failed, the reply is the fixed
    500 reply with no element. *)
Theorem analysis_replies_once_and_quits (websiteUrl : option string)
    (s : Analyze.Exchange W) :
  match Analyze.build Sel (Analyze.sworld s) with
  | (w1, inl e) =>
      Analyze.analyzewebsite Sel websiteUrl s =
        (Analyze.mkExchange (Analyze.replies s) w1 (Analyze.did s ++ [Analyze.DidBuild]),
         inl e)
  | (w1, inr driver) =>
      exists r ran w2,
        Analyze.analyzewebsite Sel websiteUrl s =
          (Analyze.mkExchange (Analyze.replies s ++ [r])
             (Analyze.quit Sel driver w2).1
             (Analyze.did s ++ [Analyze.DidBuild; Analyze.DidGet websiteUrl] ++ ran
                ++ [Analyze.DidReply r; Analyze.DidQuit]),
           (Analyze.quit Sel driver w2).2) /\
        match Analyze.get Sel driver websiteUrl w1 with
        | (wg, inl _) => w2 = wg /\ ran = [] /\ r = analysisFailed
        | (wg, inr _) =>
            ran = [Analyze.DidScript] /\
            match Analyze.allElements Sel driver wg with
            | (ws, inl _) => w2 = ws /\ r = analysisFailed
            | (ws, inr found) =>
                w2 = ws /\
                Analyze.reply_status r = 200 /\
                Analyze.success (Analyze.reply_body r) = true /\
                Analyze.error (Analyze.reply_body r) = None /\
                Analyze.elementCount (Analyze.reply_body r) = length found /\
                Forall2 describes found (Analyze.elements (Analyze.reply_body r))
            end
        end
  end.
Proof.
  unfold Analyze.analyzewebsite, Analyze.executeScript, Analyze.reply, Analyze.calling,
    try_finally, try_catch, bind, modify, ret.
  destruct (Analyze.build Sel (Analyze.sworld s)) as [w1 [e|driver]]; [done|].
  cbn [Analyze.sworld Analyze.replies Analyze.did].
  destruct (Analyze.get Sel driver websiteUrl w1) as [w2 [e|[]]].
  - cbn [Analyze.sworld Analyze.replies Analyze.did].
    exists analysisFailed, [], w2. split; [|done].
    destruct (Analyze.quit Sel driver w2) as [w3 [e3|[]]];
      cbn [fst snd Analyze.replies Analyze.did Analyze.sworld];
      rewrite <- !app_assoc; reflexivity.
  - cbn [Analyze.sworld Analyze.replies Analyze.did].
    destruct (Analyze.allElements Sel driver w2) as [w3 [e|found]].
    + cbn [Analyze.sworld Analyze.replies Analyze.did].
      exists analysisFailed, [Analyze.DidScript], w3. split; [|done].
      destruct (Analyze.quit Sel driver w3) as [w4 [e4|[]]];
        cbn [fst snd Analyze.replies Analyze.did Analyze.sworld];
        rewrite <- !app_assoc; reflexivity.
    + cbn [Analyze.sworld Analyze.replies Analyze.did].
      eexists _, [Analyze.DidScript], w3. split.
      * destruct (Analyze.quit Sel driver w3) as [w4 [e4|[]]];
          cbn [fst snd Analyze.replies Analyze.did Analyze.sworld];
          rewrite <- !app_assoc; reflexivity.
      * split; [done|]. split; [done|].
        cbn [Analyze.reply_status Analyze.reply_body Analyze.success Analyze.error
             Analyze.elementCount Analyze.elements].
        split; [done|]. split; [done|]. split; [done|].
        split; [by rewrite length_map|apply describe_describes].
Qed.
End AnalyzeFacts.

(** The handler on a page of two elements, and on a page that does not
    load. *)
Lemma analysis_examples :
  Analyze.replies (Analyze.analyzewebsite (seleniumWith (fun _ => false))
                     (Some "https://example.test/") newExchange).1 =
    [Analyze.mkReply 200
       (Analyze.mkCrawlerResponse true 2
          [Analyze.mkDescribed "HTML" [] "Hello";
           Analyze.mkDescribed "IMG" [("src", "a.png")] ""] None)] /\
  Analyze.analyzewebsite (seleniumWith isGet) None newExchange =
    (Analyze.mkExchange
       [Analyze.mkReply 500
          (Analyze.mkCrawlerResponse false 0 []
             (Some "There was an error running our analysis"))]
       tt
       [Analyze.DidBuild; Analyze.DidGet None;
        Analyze.DidReply
          (Analyze.mkReply 500
             (Analyze.mkCrawlerResponse false 0 []
                (Some "There was an error running our analysis")));
        Analyze.DidQuit],
     inr tt).
Proof. split; vm_compute; reflexivity. Qed.

(** * The response cache *)

Section ResponseFacts.
Context {W : Type}.
Implicit Types (s : Responses.RState W) (r : Responses.Response W).

Lemma invoke_callable {A} name (call : W -> W * (JsError + A)) s :
  Responses.invoke name (Responses.callable call) s =
    (Responses.mkRState (Responses.responseCache s) (call (Responses.rworld s)).1,
     (call (Responses.rworld s)).2).
Proof. unfold Responses.invoke. by destruct (call (Responses.rworld s)). Qed.

(** A hit: only [url()] is called. *)
Lemma getResponseDetails_hit r call s w1 u cached :
  Responses.resp_url r = Responses.callable call ->
  call (Responses.rworld s) = (w1, inr u) ->
  Responses.responseCache s !! u = Some cached ->
  Responses.getResponseDetails (Responses.object r) s =
    (Responses.mkRState (Responses.responseCache s) w1, inr cached).
Proof.
  intros Hu Hcall Hc. unfold Responses.getResponseDetails, bind, gets.
  rewrite Hu, invoke_callable, Hcall. cbn [fst snd Responses.responseCache].
  by rewrite Hc.
Qed.

(** A miss: the five other members are called in turn, and the details
    are stored when none of the calls threw. *)
Lemma getResponseDetails_miss r call s w1 u :
  Responses.resp_url r = Responses.callable call ->
  call (Responses.rworld s) = (w1, inr u) ->
  Responses.responseCache s !! u = None ->
  (exists s' e,
     Responses.getResponseDetails (Responses.object r) s = (s', inl e) /\
     Responses.responseCache s' = Responses.responseCache s) \/
  (exists details w',
     Responses.getResponseDetails (Responses.object r) s =
       (Responses.mkRState (<[u := details]> (Responses.responseCache s)) w', inr details) /\
     builtFrom r w1 u details w').
Proof.
  intros Hu Hcall Hc.
  unfold Responses.getResponseDetails, Responses.readBody, bind, gets, modify, ret, throw.
  rewrite Hu, invoke_callable, Hcall. cbn [fst snd Responses.responseCache].
  rewrite Hc. unfold builtFrom.
  destruct (Responses.resp_status r) as [|c1]; [left; by eexists _, _|].
  rewrite invoke_callable. cbn [Responses.rworld Responses.responseCache].
  destruct (c1 w1) as [w2 [e|v1]] eqn:E1; cbn [fst snd]; [left; by eexists _, _|].
  destruct (Responses.resp_statusText r) as [|c2]; [left; by eexists _, _|].
  rewrite invoke_callable. cbn [Responses.rworld Responses.responseCache].
  destruct (c2 w2) as [w3 [e|v2]] eqn:E2; cbn [fst snd]; [left; by eexists _, _|].
  destruct (Responses.resp_headers r) as [|c3]; [left; by eexists _, _|].
  rewrite invoke_callable. cbn [Responses.rworld Responses.responseCache].
  destruct (c3 w3) as [w4 [e|v3]] eqn:E3; cbn [fst snd]; [left; by eexists _, _|].
  destruct (Responses.resp_text r) as [|c4]; [left; by eexists _, _|].
  rewrite invoke_callable. cbn [Responses.rworld Responses.responseCache].
  destruct (c4 w4) as [w5 [e|answer]] eqn:E4; cbn [fst snd]; [left; by eexists _, _|].
  destruct (Responses.resp_timing r) as [|c5];
    [left; destruct answer; by eexists _, _|].
  destruct answer as [e|v|e]; [left; by eexists _, _| |];
    rewrite invoke_callable; cbn [Responses.rworld Responses.responseCache];
    (destruct (c5 w5) as [w6 [e5|v5]] eqn:E5; cbn [fst snd]; [left; by eexists _, _|]);
    right; eexists _, _; (split; [reflexivity|]);
    eexists c1, c2, c3, c4, c5, w2, w3, w4, w5, v1, v2, v3, _, v5;
    repeat (split; [done|]); done.
Qed.

(** [getResponseDetails], for one call at a time.  A call that throws
    stores nothing.  A call that returns was given an object whose [url]
    is a method; the details it returns are afterwards the entry of the
    URL that the method answered, and the other entries are as before.
    When the URL had an entry, that entry is returned and no other member
    is called; otherwise the details are what the five other methods
    answered, with the fixed text for a body that could not be read.
    Asking again for the same URL, even with another response, returns
    the same details with no call but [url()].  An argument whose [url] is
    no function (a details object of the cache, say) makes the call throw
    a [TypeError] at once, and an argument that lacks one of the other
    five methods (a Playwright response has no [timing]) makes every call
    that misses the cache throw, so that nothing is ever stored for it. *)
Theorem response_details_are_cached (response : Responses.Argument W)
    (s : Responses.RState W) :
  (forall s' e,
     Responses.getResponseDetails response s = (s', inl e) ->
     Responses.responseCache s' = Responses.responseCache s) /\
  (forall s' details,
     Responses.getResponseDetails response s = (s', inr details) ->
     exists r call w1 u,
       response = Responses.object r /\
       Responses.resp_url r = Responses.callable call /\
       call (Responses.rworld s) = (w1, inr u) /\
       Responses.responseCache s' !! u = Some details /\
       (forall k, k <> u ->
          Responses.responseCache s' !! k = Responses.responseCache s !! k) /\
       (forall cached,
          Responses.responseCache s !! u = Some cached ->
          details = cached /\ s' = Responses.mkRState (Responses.responseCache s) w1) /\
       (Responses.responseCache s !! u = None ->
          builtFrom r w1 u details (Responses.rworld s')) /\
       (forall again call' w2,
          Responses.resp_url again = Responses.callable call' ->
          call' (Responses.rworld s') = (w2, inr u) ->
          Responses.getResponseDetails (Responses.object again) s' =
            (Responses.mkRState (Responses.responseCache s') w2, inr details))) /\
  (forall r,
     response = Responses.object r ->
     (Responses.resp_url r = Responses.notCallable ->
      Responses.getResponseDetails response s =
        (s, inl (mkError "response.url is not a function"))) /\
     (forall call w1 u,
        Responses.resp_url r = Responses.callable call ->
        call (Responses.rworld s) = (w1, inr u) ->
        Responses.responseCache s !! u = None ->
        lacksAMethod r ->
        exists s' e,
          Responses.getResponseDetails response s = (s', inl e) /\
          Responses.responseCache s' = Responses.responseCache s)).
Proof.
  assert (Hcases :
    match response with
    | Responses.object r =>
        match Responses.resp_url r with
        | Responses.callable call =>
            match call (Responses.rworld s) with
            | (w1, inr u) => True
            | (w1, inl e) =>
                Responses.getResponseDetails response s =
                  (Responses.mkRState (Responses.responseCache s) w1, inl e)
            end
        | Responses.notCallable =>
            Responses.getResponseDetails response s =
              (s, inl (mkError "response.url is not a function"))
        end
    | _ => exists e, Responses.getResponseDetails response s = (s, inl e)
    end).
  { destruct response as [| |r]; [by eexists|by eexists|].
    unfold Responses.getResponseDetails, bind.
    destruct (Responses.resp_url r) as [|call]; [done|].
    rewrite invoke_callable.
    by destruct (call (Responses.rworld s)) as [w1 [e|u]]. }
  split; [|split].
  - intros s' e E. destruct response as [| |r].
    + destruct Hcases as [e0 H0]. rewrite H0 in E. by injection E as <- _.
    + destruct Hcases as [e0 H0]. rewrite H0 in E. by injection E as <- _.
    + destruct (Responses.resp_url r) as [|call] eqn:Hu.
      { rewrite Hcases in E. by injection E as <- _. }
      destruct (call (Responses.rworld s)) as [w1 [e1|u]] eqn:Hcall.
      { rewrite Hcases in E. by injection E as <- _. }
      destruct (Responses.responseCache s !! u) as [cached|] eqn:Hc.
      { by rewrite (getResponseDetails_hit _ _ _ _ _ _ Hu Hcall Hc) in E. }
      destruct (getResponseDetails_miss _ _ _ _ _ Hu Hcall Hc)
        as [(s1 & e1 & E1 & Hsame)|(details & w' & E1 & _)];
        rewrite E1 in E; [by injection E as <- _|done].
  - intros s' details E. destruct response as [| |r].
    + destruct Hcases as [e0 H0]. by rewrite H0 in E.
    + destruct Hcases as [e0 H0]. by rewrite H0 in E.
    + destruct (Responses.resp_url r) as [|call] eqn:Hu.
      { by rewrite Hcases in E. }
      destruct (call (Responses.rworld s)) as [w1 [e1|u]] eqn:Hcall.
      { by rewrite Hcases in E. }
      exists r, call, w1, u. split; [done|]. split; [done|]. split; [done|].
      destruct (Responses.responseCache s !! u) as [cached|] eqn:Hc.
      * rewrite (getResponseDetails_hit _ _ _ _ _ _ Hu Hcall Hc) in E.
        injection E as <- <-. cbn [Responses.responseCache Responses.rworld].
        split; [done|]. split; [done|]. split; [by intros ? [= <-]|].
        split; [done|].
        intros again call' w2 Hu' Hcall'.
        exact (getResponseDetails_hit again call'
                 (Responses.mkRState (Responses.responseCache s) w1) w2 u cached
                 Hu' Hcall' Hc).
      * destruct (getResponseDetails_miss _ _ _ _ _ Hu Hcall Hc)
          as [(s1 & e1 & E1 & _)|(details' & w' & E1 & Hbuilt)];
          rewrite E1 in E; [done|].
        injection E as <- <-. cbn [Responses.responseCache Responses.rworld].
        split; [by rewrite lookup_insert_eq|].
        split; [intros k Hk; by rewrite lookup_insert_ne|].
        split; [done|]. split; [done|].
        intros again call' w2 Hu' Hcall'.
        refine (getResponseDetails_hit again call'
                  (Responses.mkRState (<[u := details']> (Responses.responseCache s)) w')
                  w2 u details' Hu' Hcall' _).
        cbn [Responses.responseCache]. by rewrite lookup_insert_eq.
  - intros r ->. split.
    + intros Hu. by rewrite Hu in Hcases.
    + intros call w1 u Hu Hcall Hc Hlacks.
      destruct (getResponseDetails_miss _ _ _ _ _ Hu Hcall Hc)
        as [(s1 & e1 & E1 & Hsame)|(details & w' & E1 & Hbuilt)];
        [by exists s1, e1|].
      exfalso. destruct Hbuilt as (c1 & c2 & c3 & c4 & c5 & w2 & w3 & w4 & w5 & v1 & v2
                                   & v3 & answer & v5 & H1 & _ & H2 & _ & H3 & _ & H4 & _
                                   & H5 & _).
      destruct Hlacks as [H|[H|[H|[H|H]]]]; congruence.
Qed.
End ResponseFacts.

(** An object with the six methods is cached: a later response to the
    same URL, with status 500, is answered with the details of the first,
    and only its [url()] is called.  A Playwright response, which has no
    [timing], is read and then dropped with a [TypeError], and a details
    object of the cache, passed back as the argument, fails at once. *)
Lemma response_cache_example :
  (exists details,
     (Responses.getResponseDetails (Responses.object okResponse)
        (Responses.mkRState ∅ [])).2 = inr details /\
     Responses.status details = Responses.VOther 200 /\
     Responses.body details = Responses.VString "<html></html>" /\
     Responses.rworld
       (Responses.getResponseDetails (Responses.object okResponse)
          (Responses.mkRState ∅ [])).1
       = ["url"; "status"; "statusText"; "headers"; "text"; "timing"] /\
     (Responses.getResponseDetails (Responses.object laterResponse)
        (Responses.getResponseDetails (Responses.object okResponse)
           (Responses.mkRState ∅ [])).1).2 = inr details /\
     Responses.rworld
       (Responses.getResponseDetails (Responses.object laterResponse)
          (Responses.getResponseDetails (Responses.object okResponse)
             (Responses.mkRState ∅ [])).1).1
       = ["url"; "status"; "statusText"; "headers"; "text"; "timing"; "url"]) /\
  Responses.getResponseDetails (Responses.object playwrightResponse)
      (Responses.mkRState ∅ []) =
    (Responses.mkRState ∅ ["url"; "status"; "statusText"; "headers"; "text"],
     inl (mkError "response.timing is not a function")) /\
  Responses.getResponseDetails (Responses.object detailsObject) (Responses.mkRState ∅ []) =
    (Responses.mkRState ∅ [], inl (mkError "response.url is not a function")).
Proof.
  split; [|split; vm_compute; reflexivity].
  exists (Responses.mkDetails (Responses.VOther 200) (Responses.VString "OK")
            (Responses.VString "https://example.test/api") (Responses.VOther 1)
            (Responses.VString "<html></html>") (Responses.VOther 2)).
  repeat split; vm_compute; reflexivity.
Qed.
